(** * Style-span alignment engine of ProcessPreserveStyling_http

    A shallow embedding of the alignment core of
    [src/ProcessPreserveStyling_http/__init__.py]: style-span extraction,
    the retrying HTTP client, recovery of the service's answer, positional
    pairing and the relocation of spans in the translated text. *)

From Stdlib Require Import ZArith Ascii Lia.
From stdpp Require Import base option list strings gmap sorting.

Set Warnings "-register-all".
Open Scope Z_scope.

(** ** Python strings

    A Python [str] is a sequence of Unicode code points; indices, offsets and
    lengths are Python integers, so they are [Z] here. *)

Abbreviation str := (list N) (only parsing).

(** The code points of an ASCII literal. *)
Definition lit (s : string) : str :=
  N_of_ascii <$> String.list_ascii_of_string s.

(** A literal in which every apostrophe stands for a double quote (code point
    34), for JSON texts. *)
Definition jlit (s : string) : str :=
  (fun c => if (c =? 39)%N then 34%N else c) <$> lit s.

Module Py.

(** [len(s)] *)
Definition len {A} (s : list A) : Z := Z.of_nat (length s).

(** How a slice bound is read against a sequence of length [n]: a negative
    bound counts from the end, and both ends are clamped to [0, n]. *)
Definition clamp (n i : Z) : Z :=
  if i <? 0 then Z.max (i + n) 0 else Z.min i n.

(** [s[i:j]] *)
Definition slice {A} (s : list A) (i j : Z) : list A :=
  let a := clamp (len s) i in
  let b := clamp (len s) j in
  take (Z.to_nat (b - a)) (drop (Z.to_nat a) s).

(** [s[i:]] *)
Definition slice_from {A} (s : list A) (i : Z) : list A :=
  drop (Z.to_nat (clamp (len s) i)) s.

(** [s[:j]] *)
Definition slice_to {A} (s : list A) (j : Z) : list A :=
  take (Z.to_nat (clamp (len s) j)) s.

(** [s.startswith(p)] *)
Fixpoint startswith (s p : str) : bool :=
  match p, s with
  | [], _ => true
  | _ :: _, [] => false
  | a :: p', b :: s' => (a =? b)%N && startswith s' p'
  end.

(** [s.endswith(p)] *)
Definition endswith (s p : str) : bool := startswith (reverse s) (reverse p).

(** The lowest [k] such that [sub] occurs in [s] at [k]; the result is
    counted from [i], the position of the head of [s] in the whole text. *)
Fixpoint find_aux (sub s : str) (i : nat) : option nat :=
  if startswith s sub then Some i
  else match s with
       | [] => None
       | _ :: s' => find_aux sub s' (S i)
       end.

(** [s.find(sub, start)]: the lowest index at or after [start] where [sub]
    occurs, or -1.  [start] is read as a slice bound, and a [start] past the
    end finds nothing, not even the empty string. *)
Definition find_from (s sub : str) (start : Z) : Z :=
  let a := if start <? 0 then Z.max (start + len s) 0 else start in
  if len s <? a then -1
  else match find_aux sub (drop (Z.to_nat a) s) (Z.to_nat a) with
       | Some k => Z.of_nat k
       | None => -1
       end.

(** [s.find(sub)] *)
Definition find (s sub : str) : Z := find_from s sub 0.

(** [sub in s] for two strings *)
Definition contains (s sub : str) : bool :=
  match find_aux sub s 0 with Some _ => true | None => false end.

(** [s.split(sep, 1)] for a non-empty [sep]: the parts before and after the
    first occurrence, or the whole string alone. *)
Definition split1 (s sep : str) : str * option str :=
  match find_aux sep s 0 with
  | Some k => (take k s, Some (drop (k + length sep) s))
  | None => (s, None)
  end.

(** [c.isspace()]: the code points [str.strip()] removes. *)
Definition isspace (c : N) : bool :=
  ((9 <=? c) && (c <=? 13) || (28 <=? c) && (c <=? 32)
   || (c =? 133) || (c =? 160) || (c =? 5760)
   || (8192 <=? c) && (c <=? 8202)
   || (c =? 8232) || (c =? 8233) || (c =? 8239) || (c =? 8287)
   || (c =? 12288))%N.

Fixpoint lstrip (s : str) : str :=
  match s with
  | c :: s' => if isspace c then lstrip s' else s
  | [] => []
  end.

(** [s.strip()] *)
Definition strip (s : str) : str := reverse (lstrip (reverse (lstrip s))).

End Py.

(** ** Python values, exceptions and the built-ins the code calls *)

(** The values that flow through the code: what [json.loads] can produce and
    what the code builds from it.  A float is kept as its IEEE 754 binary64
    bit pattern; a [dict] keeps its insertion order and has each key once. *)
Inductive pyval :=
  | PNone
  | PBool (b : bool)
  | PInt (z : Z)
  | PFloat (bits : Z)
  | PStr (s : str)
  | PList (l : list pyval)
  | PDict (d : list (str * pyval)).

Inductive exn :=
  | TypeError | ValueError | AttributeError | KeyError | IndexError
  | OverflowError | UnboundLocalError | RuntimeError | HTTPError
  | ConnectionError.

(** A call either returns a value or raises. *)
Inductive result (A : Type) :=
  | Ok (a : A)
  | Raise (e : exn).
Arguments Ok {A} a.
Arguments Raise {A} e.

(** Sequencing: the first exception raised ends the computation. *)
Definition bind {A B} (m : result A) (f : A -> result B) : result B :=
  match m with Ok a => f a | Raise e => Raise e end.

Notation "'let*' x ':=' m 'in' k" := (bind m (fun x => k))
  (at level 10, x name, m at level 100, k at level 200).

Module Dict.

(** [d.get(k)] *)
Fixpoint get {V} (k : str) (d : list (str * V)) : option V :=
  match d with
  | [] => None
  | (k', v) :: d' => if bool_decide (k = k') then Some v else get k d'
  end.

(** [d[k] = v]: an existing key keeps its place, a new one goes last. *)
Fixpoint set {V} (k : str) (v : V) (d : list (str * V)) : list (str * V) :=
  match d with
  | [] => [(k, v)]
  | (k', v') :: d' =>
      if bool_decide (k = k') then (k, v) :: d' else (k', v') :: set k v d'
  end.

(** [list(d)], the keys in insertion order *)
Definition keys {V} (d : list (str * V)) : list str := fst <$> d.

End Dict.

Module Float.

(** [int(f)] on a binary64 bit pattern: truncation toward zero; infinities
    raise [OverflowError] and NaNs [ValueError]. *)
Definition to_int (bits : Z) : result Z :=
  let sign := Z.testbit bits 63 in
  let e := Z.land (Z.shiftr bits 52) 2047 in
  let m := Z.land bits (2 ^ 52 - 1) in
  if e =? 2047 then Raise (if m =? 0 then OverflowError else ValueError)
  else
    let mag :=
      if e =? 0 then 0
      else if 1075 <=? e then Z.shiftl (2 ^ 52 + m) (e - 1075)
      else Z.shiftr (2 ^ 52 + m) (1075 - e) in
    Ok (if sign then - mag else mag).

(** [bool(f)]: false exactly on the two zeros. *)
Definition truthy (bits : Z) : bool := negb (Z.land bits (2 ^ 63 - 1) =? 0).

End Float.

(** [bool(v)] *)
Definition truthy (v : pyval) : bool :=
  match v with
  | PNone => false
  | PBool b => b
  | PInt z => negb (z =? 0)
  | PFloat bits => Float.truthy bits
  | PStr s => match s with [] => false | _ => true end
  | PList l => match l with [] => false | _ => true end
  | PDict d => match d with [] => false | _ => true end
  end.

(** [v or d] *)
Definition py_or (v d : pyval) : pyval := if truthy v then v else d.

(** [for x in v]: the elements a loop or comprehension visits. *)
Definition py_iter (v : pyval) : result (list pyval) :=
  match v with
  | PList l => Ok l
  | PStr s => Ok ((fun c => PStr [c]) <$> s)
  | PDict d => Ok (PStr <$> Dict.keys d)
  | _ => Raise TypeError
  end.

(** [v.get(k, dflt)]: only a [dict] has the method. *)
Definition py_get (v : pyval) (k : str) (dflt : pyval) : result pyval :=
  match v with
  | PDict d => Ok (default dflt (Dict.get k d))
  | _ => Raise AttributeError
  end.

(** The built-ins whose behaviour rests on tables and grammars that are
    not part of the repository: the Unicode case mappings, [int] and [str]
    applied to text and values, and the JSON decoder. *)
Class Builtins := {
  str_upper : str -> str;
  str_lower : str -> str;
  str_casefold : str -> str;
  int_of_str : str -> result Z;
  str_of : pyval -> str;
  str_of_str : forall s, str_of (PStr s) = s;
  json_loads : str -> result pyval;
}.

Section Builtin_calls.
Context `{Builtins}.

(** [int(v)] *)
Definition py_int (v : pyval) : result Z :=
  match v with
  | PInt z => Ok z
  | PBool b => Ok (if b then 1 else 0)
  | PFloat bits => Float.to_int bits
  | PStr s => int_of_str s
  | PNone | PList _ | PDict _ => Raise TypeError
  end.

(** [v.upper()]: only a [str] has the method. *)
Definition py_upper (v : pyval) : result str :=
  match v with
  | PStr s => Ok (str_upper s)
  | _ => Raise AttributeError
  end.

End Builtin_calls.

(** ** Style utilities *)

Definition BOLD : str := lit "BOLD".
Definition ITALIC : str := lit "ITALIC".
Definition UNDERLINE : str := lit "UNDERLINE".

Definition bold : str := lit "bold".
Definition italics : str := lit "italics".
Definition underline : str := lit "underline".

(** [style in ("BOLD", "ITALIC", "UNDERLINE")] *)
Definition is_style (s : str) : bool :=
  bool_decide (s ∈ [BOLD; ITALIC; UNDERLINE]).

(** A source span as [_parse_styles] emits it:
    [{"offset": o, "length": l, "style": st}]. *)
Definition span_dict (o l : Z) (st : str) : pyval :=
  PDict [(lit "offset", PInt o); (lit "length", PInt l); (lit "style", PStr st)].

Section Style_spans.
Context `{Builtins}.

(** The last test of the source is [s in ("UNDERLINED")]: the parentheses
    hold a string, not a tuple, so it is a substring test. *)
Definition _normalize_style_name (name : pyval) : result str :=
  let* s := py_upper (py_or name (PStr [])) in
  let s := if bool_decide (s ∈ [lit "BOLDED"]) then BOLD else s in
  let s :=
    if bool_decide (s ∈ [lit "ITALICS"; lit "ITALICIZED"]) then ITALIC else s in
  let s := if Py.contains (lit "UNDERLINED") s then UNDERLINE else s in
  Ok s.

(** The body of the [try] of [_parse_styles] for one [dict] entry: the span
    to append, if any. *)
Definition parse_entry (s : pyval) : result (option pyval) :=
  let* o2 := py_get s (lit "Offset") (PInt 0) in
  let* o1 := py_get s (lit "offset") o2 in
  let* offset := py_int (py_or o1 (PInt 0)) in
  let* l2 := py_get s (lit "Length") (PInt 0) in
  let* l1 := py_get s (lit "length") l2 in
  let* length := py_int (py_or l1 (PInt 0)) in
  let* s2 := py_get s (lit "Style") (PStr []) in
  let* s1 := py_get s (lit "style") s2 in
  let* style := _normalize_style_name (PStr (str_of s1)) in
  if (0 <? length) && is_style style
  then Ok (Some (span_dict offset length style))
  else Ok None.

(** One round of the loop of [_parse_styles]: an entry that is not a [dict]
    and an entry whose decoding raises are both passed over. *)
Definition parse_step (s : pyval) : option pyval :=
  match s with
  | PDict _ =>
      match parse_entry s with
      | Ok r => r
      | Raise _ => None
      end
  | _ => None
  end.

Definition _parse_styles (raw : pyval) : result (list pyval) :=
  if negb (truthy raw) then Ok []
  else
    let decoded : result pyval :=
      match raw with
      | PStr t => json_loads t
      | _ => let* l := py_iter raw in Ok (PList l)
      end in
    match decoded with
    | Raise _ => Ok []
    | Ok styles =>
        let* entries := py_iter styles in
        Ok (omap parse_step entries)
    end.

(** The argument of [extract_words_by_style], as its callers build it:
    [{"value": source_text, "styles": styles}]. *)
Record payload := { value : str; styles : list pyval }.

(** The body of the [try] in the first loop of [extract_words_by_style]:
    the [(style, si, chunk)] to append, if any. *)
Definition extract_item (src : str) (s : pyval) : result (option (str * Z * str)) :=
  let* o := py_get s (lit "offset") PNone in
  let* start := py_int o in
  let* l := py_get s (lit "length") PNone in
  let* length := py_int l in
  if length <=? 0 then Ok None
  else
    let end_ := start + length in
    let* st := py_get s (lit "style") (PStr []) in
    let* style := _normalize_style_name st in
    if negb (is_style style) then Ok None
    else
      let chunk := Py.slice src start end_ in
      match chunk with
      | [] => Ok None
      | _ => Ok (Some (style, start, chunk))
      end.

Definition extract_step (src : str) (s : pyval) : option (str * Z * str) :=
  match extract_item src s with
  | Ok r => r
  | Raise _ => None
  end.

(** [items.sort(key=lambda t: t[1])]: a stable sort on the start position. *)
Fixpoint insert_item (x : str * Z * str) (l : list (str * Z * str)) :=
  match l with
  | [] => [x]
  | y :: l' => if x.1.2 <? y.1.2 then x :: l else y :: insert_item x l'
  end.

Definition sort_items (l : list (str * Z * str)) : list (str * Z * str) :=
  foldl (fun acc x => insert_item x acc) [] l.

(** [{"BOLD": "bold", "ITALIC": "italics", "UNDERLINE": "underline"}[style]] *)
Definition bucket_key (style : str) : result str :=
  match Dict.get style [(BOLD, bold); (ITALIC, italics); (UNDERLINE, underline)] with
  | Some k => Ok k
  | None => Raise KeyError
  end.

(** One round of the second loop: [out] and [seen] after it. *)
Definition place (dedupe : bool) (st : gmap str (list str) * gmap str (gset str))
    (it : str * Z * str) : result (gmap str (list str) * gmap str (gset str)) :=
  let '(out, seen) := st in
  let '(style, _, chunk) := it in
  let* key := bucket_key style in
  if dedupe then
    let norm := str_casefold chunk in
    if bool_decide (norm ∈ default ∅ (seen !! key)) then Ok (out, seen)
    else Ok (alter (fun l => l ++ [chunk]) key out,
               alter (fun s => s ∪ {[norm]}) key seen)
  else Ok (alter (fun l => l ++ [chunk]) key out, seen).

Fixpoint place_all (dedupe : bool) (st : gmap str (list str) * gmap str (gset str))
    (items : list (str * Z * str)) : result (gmap str (list str) * gmap str (gset str)) :=
  match items with
  | [] => Ok st
  | it :: items' =>
      let* st' := place dedupe st it in place_all dedupe st' items'
  end.

Definition empty_buckets : gmap str (list str) :=
  <[bold := []]> (<[italics := []]> (<[underline := []]> ∅)).

Definition empty_seen : gmap str (gset str) :=
  <[bold := ∅]> (<[italics := ∅]> (<[underline := ∅]> ∅)).

(** [snap_to_word] is accepted and never read: the code that used it is
    commented out in the source. *)
Definition extract_words_by_style (p : payload) (snap_to_word dedupe : bool)
    : result (gmap str (list str)) :=
  let src := value p in
  let spans := styles p in
  let items := omap (extract_step src) spans in
  let items := sort_items items in
  let* st := place_all dedupe (empty_buckets, empty_seen) items in
  Ok st.1.

End Style_spans.

(** ** The alignment service client *)

(** What one [requests.post] call does: it raises (no connection, time-out),
    or it brings a response with a status code and a body that [resp.json()]
    decodes or fails to decode. *)
Inductive outcome :=
  | Refused (e : exn)
  | Response (status_code : Z) (json : result pyval).

(** What the client does to the outside world, in order. *)
Inductive event :=
  | Post (attempt : Z)
  | Sleep (backoff : Z).

(** [status_code in (408, 429, 500, 502, 503, 504)] *)
Definition retry_status (status_code : Z) : bool :=
  bool_decide (status_code ∈ [408; 429; 500; 502; 503; 504]).

(** [resp.raise_for_status()]: every 4xx and 5xx status raises. *)
Definition raise_for_status (status_code : Z) : result unit :=
  if (400 <=? status_code) && (status_code <? 600) then Raise HTTPError
  else Ok tt.

(** The body of the [try] of one attempt: [None] is the [continue] of the
    status test, [Some j] the [return]. *)
Definition attempt_body (o : outcome) (attempt max_retries : Z)
    : result (option pyval) :=
  match o with
  | Refused e => Raise e
  | Response status_code json =>
      if retry_status status_code && (attempt <? max_retries) then Ok None
      else
        let* _ := raise_for_status status_code in
        let* j := json in
        Ok (Some j)
  end.

(** The loop over [range(max_retries + 1)].  [net] tells what the post of
    each attempt meets; [backoff] is in seconds (1, 2, 4, 8, 8, ...), the
    random jitter added to each sleep is left out of the trace. *)
Fixpoint retry_loop (net : Z -> outcome) (max_retries : Z) (attempts : list Z)
    (backoff : Z) : list event * result pyval :=
  match attempts with
  | [] => ([], Raise RuntimeError)
  | attempt :: attempts' =>
      let again :=
        let '(tr, r) :=
          retry_loop net max_retries attempts' (Z.min (backoff * 2) 8) in
        (Post attempt :: Sleep backoff :: tr, r) in
      match attempt_body (net attempt) attempt max_retries with
      | Ok None => again
      | Ok (Some j) => ([Post attempt], Ok j)
      | Raise e =>
          if max_retries <=? attempt then ([Post attempt], Raise e)
          else again
      end
  end.

Definition _http_post_json_with_retries (net : Z -> outcome) (max_retries : Z)
    : list event * result pyval :=
  retry_loop net max_retries (seqZ 0 (max_retries + 1)) 1.

(** ** Recovery of the service's answer *)

Definition fence : str := [96; 96; 96]%N.
Definition newline : str := [10]%N.

Section Recovery.
Context `{Builtins}.

Definition _strip_code_fences (text : str) : str :=
  let t := Py.strip text in
  let t :=
    if Py.startswith t fence && Py.endswith t fence then
      let t := Py.slice_from t 3 in
      let t :=
        if Py.contains t newline then
          match Py.split1 t newline with
          | (first_line, Some rest) =>
              if bool_decide (str_lower (Py.strip first_line)
                                ∈ [lit "json"; lit "javascript"; lit "js"])
              then rest
              else first_line ++ newline ++ rest
          | (first_line, None) => t
          end
        else t in
      if Py.endswith t fence then Py.slice_to t (-3) else t
    else t in
  Py.strip t.

(** The loop of [_extract_first_json_object] from position [i]: the index
    of the brace that brings [depth] back to 0. *)
Fixpoint scan_object (s : str) (i : nat) (depth : Z) (in_str esc : bool)
    : option nat :=
  match s with
  | [] => None
  | c :: s' =>
      if in_str then
        if esc then scan_object s' (S i) depth in_str false
        else if (c =? 92)%N then scan_object s' (S i) depth in_str true
        else if (c =? 34)%N then scan_object s' (S i) depth false esc
        else scan_object s' (S i) depth in_str esc
      else
        if (c =? 34)%N then scan_object s' (S i) depth true esc
        else if (c =? 123)%N then scan_object s' (S i) (depth + 1) in_str esc
        else if (c =? 125)%N then
          if depth - 1 =? 0 then Some i
          else scan_object s' (S i) (depth - 1) in_str esc
        else scan_object s' (S i) depth in_str esc
  end.

Definition _extract_first_json_object (text : str) : option str :=
  let start := Py.find text (lit "{") in
  if start =? -1 then None
  else
    match scan_object (drop (Z.to_nat start) text) (Z.to_nat start) 0 false false with
    | Some i => Some (Py.slice text start (Z.of_nat i + 1))
    | None => None
    end.

(** [isinstance(x, str)] *)
Definition is_str (v : pyval) : bool :=
  match v with PStr _ => true | _ => false end.

Definition _coerce_brace_list_to_array (text : str) : option (list pyval) :=
  let t := Py.strip text in
  if Py.startswith t (lit "{") && Py.endswith t (lit "}")
     && negb (Py.contains t (lit ":"))
  then
    match json_loads (lit "[" ++ Py.slice t 1 (-1) ++ lit "]") with
    | Ok (PList arr) => if forallb is_str arr then Some arr else None
    | _ => None
    end
  else None.

(** One round of the loop of [_ensure_alignment_keys]. *)
Definition ensure_key (obj : list (str * pyval)) (k : str)
    : result (list (str * pyval)) :=
  let obj :=
    match Dict.get k obj with
    | None => Dict.set k (PList []) obj
    | Some _ => obj
    end in
  let* xs := py_iter (default PNone (Dict.get k obj)) in
  Ok (Dict.set k (PList ((fun x => PStr (str_of x)) <$> xs)) obj).

Definition _ensure_alignment_keys (obj : list (str * pyval))
    : result (list (str * pyval)) :=
  let* obj := ensure_key obj bold in
  let* obj := ensure_key obj italics in
  ensure_key obj underline.

(** [v[k]] *)
Definition py_getitem (v k : pyval) : result pyval :=
  match v, k with
  | PDict d, PStr s =>
      match Dict.get s d with Some x => Ok x | None => Raise KeyError end
  | PDict _, _ => Raise KeyError
  | PList l, PInt i =>
      let j := if i <? 0 then i + Py.len l else i in
      if (0 <=? j) && (j <? Py.len l)
      then match l !! Z.to_nat j with Some x => Ok x | None => Raise IndexError end
      else Raise IndexError
  | PStr s, PInt i =>
      let j := if i <? 0 then i + Py.len s else i in
      if (0 <=? j) && (j <? Py.len s)
      then match s !! Z.to_nat j with Some c => Ok (PStr [c]) | None => Raise IndexError end
      else Raise IndexError
  | _, _ => Raise TypeError
  end.

(** The split of a flat list by the numbers of terms of the request. *)
Definition split_by_counts (l : list pyval) (bN iN uN : Z) : list (str * pyval) :=
  [(bold, PList (Py.slice l 0 bN));
   (italics, PList (Py.slice l bN (bN + iN)));
   (underline, PList (Py.slice l (bN + iN) (bN + iN + uN)))].

(** The first two decoding attempts of [call_alignment_api] on the stripped
    content: the value of [parsed] after them, [None] for Python's [None],
    unset or decoded from [null]. *)
Definition decode_content (raw : str) : option pyval :=
  let parsed :=
    match json_loads raw with
    | Ok v => Some v
    | Raise _ =>
        match _extract_first_json_object raw with
        | Some maybe =>
            if truthy (PStr maybe)
            then match json_loads maybe with Ok v => Some v | Raise _ => None end
            else None
        | None => None
        end
    end in
  match parsed with
  | Some PNone => None
  | _ => parsed
  end.

(** What [call_alignment_api] does with a string [content]: the value bound
    to [obj], or the value returned at once by the brace-list fallback. *)
Definition recover_content (content : str) (bN iN uN : Z)
    : result (list (str * pyval)) :=
  let raw := _strip_code_fences content in
  let parsed := decode_content raw in
  let fallback : option (list pyval) :=
    match parsed with
    | None =>
        match _coerce_brace_list_to_array raw with
        | Some brace_list =>
            if Py.len brace_list =? bN + iN + uN then Some brace_list else None
        | None => None
        end
    | Some _ => None
    end in
  match fallback with
  | Some brace_list =>
      _ensure_alignment_keys (split_by_counts brace_list bN iN uN)
  | None =>
      match parsed with
      | None => Raise ValueError
      | Some (PList l) => _ensure_alignment_keys (split_by_counts l bN iN uN)
      | Some (PDict d) => _ensure_alignment_keys d
      | Some _ => Raise ValueError
      end
  end.

(** [content = data["choices"][0]["message"]["content"]], and [data] itself
    when one of the subscripts raises. *)
Definition response_content (data : pyval) : pyval :=
  let subscripts :=
    let* a := py_getitem data (PStr (lit "choices")) in
    let* b := py_getitem a (PInt 0) in
    let* c := py_getitem b (PStr (lit "message")) in
    py_getitem c (PStr (lit "content")) in
  match subscripts with
  | Ok content => content
  | Raise _ => data
  end.

(** [call_alignment_api]: the request is what [net] answers to, so of the
    arguments only the URL and the three term arrays are read here.  When
    [content] is not a string no branch binds [obj], and the log line that
    reads it raises [UnboundLocalError]. *)
Definition call_alignment_api (api_url : str) (net : Z -> outcome)
    (bold_array italics_array underlined_array : list str) (max_retries : Z)
    : result (list (str * pyval)) :=
  if negb (truthy (PStr api_url)) then Raise RuntimeError
  else
    let* data := (_http_post_json_with_retries net max_retries).2 in
    match response_content data with
    | PStr content =>
        recover_content content (Py.len bold_array) (Py.len italics_array)
          (Py.len underlined_array)
    | _ => Raise UnboundLocalError
    end.

End Recovery.

(** ** Positional pairing *)

(** The pairing marker. *)
Definition SEP : str := lit "****".

(** What [_pair_positionally_if_needed] stores in [fixed[key]] for a bucket
    [items] of the alignment and the terms [srcs] extracted for that style.
    The comprehension runs over [range(n)], so both subscripts are in
    range. *)
Definition pair_bucket (items srcs : list str) : list str :=
  let has_pairs := existsb (fun x => Py.contains x SEP) items in
  match items with
  | [] => []
  | _ =>
      if negb has_pairs then
        let n := Nat.min (length items) (length srcs) in
        omap (fun i =>
                let item := items !!! i in
                match item with
                | [] => None
                | _ => Some (srcs !!! i ++ SEP ++ item)
                end) (seq 0 n)
      else items
  end.

Definition _pair_positionally_if_needed
    (alignment source_terms : gmap str (list str)) : gmap str (list str) :=
  foldl (fun fixed key =>
           let items := default [] (alignment !! key) in
           let srcs := default [] (source_terms !! key) in
           <[key := pair_bucket items srcs]> fixed)
        (<[bold := []]> (<[italics := []]> (<[underline := []]> ∅)))
        [bold; italics; underline].

(** ** Relocation of the spans in the translated text *)

Module Span.
Record t := mk {
  style : str;
  source : str;
  translated_text : str;
  offset : Z;
  length : Z;
}.
End Span.

Definition _split_pair (s : str) : str * str :=
  if Py.contains s SEP then
    match Py.split1 s SEP with
    | (src, Some tgt) => (src, tgt)
    | (src, None) => (src, [])
    end
  else (s, []).

Section Relocation.
Context `{Builtins}.

Definition _find_from (text needle : str) (start : Z) : Z :=
  let pos := Py.find_from text needle start in
  if negb (pos =? -1) then pos
  else
    let pos := Py.find_from (str_lower text) (str_lower needle) start in
    if negb (pos =? -1) then pos
    else Py.find text needle.

(** The placeholder of an entry that was not found. *)
Definition unmatched (style_name src : str) : Span.t :=
  Span.mk style_name src [] (-1) 0.

(** One round of the inner loop of [transform_alignment_to_styles]: the
    spans appended to [out] and the cursor after it. *)
Definition locate_item (style_name translated_text : str) (keep_unmatched : bool)
    (item : str) (cursor : Z) : list Span.t * Z :=
  let '(src, tgt) := _split_pair item in
  match tgt with
  | _ :: _ =>
      let pos := _find_from translated_text tgt cursor in
      if negb (pos =? -1) then
        ([Span.mk style_name src
            (Py.slice translated_text pos (pos + Py.len tgt)) pos (Py.len tgt)],
         pos + Py.len tgt)
      else if keep_unmatched then ([unmatched style_name src], cursor)
      else ([], cursor)
  | [] =>
      if keep_unmatched then ([unmatched style_name src], cursor)
      else ([], cursor)
  end.

Fixpoint locate_bucket (style_name translated_text : str) (keep_unmatched : bool)
    (arr : list str) (cursor : Z) : list Span.t * Z :=
  match arr with
  | [] => ([], cursor)
  | item :: arr' =>
      let '(spans, cursor) :=
        locate_item style_name translated_text keep_unmatched item cursor in
      let '(spans', cursor) :=
        locate_bucket style_name translated_text keep_unmatched arr' cursor in
      (spans ++ spans', cursor)
  end.

Definition transform_alignment_to_styles (alignment : gmap str (list str))
    (translated_text : str) (keep_unmatched : bool) : list Span.t :=
  let cursors : gmap str Z :=
    <[bold := 0]> (<[italics := 0]> (<[underline := 0]> ∅)) in
  let step (st : list Span.t * gmap str Z) (ks : str * str) :=
    let '(out, cursors) := st in
    let '(key, style_name) := ks in
    let arr := default [] (alignment !! key) in
    let cursor := default 0 (cursors !! key) in
    let '(spans, cursor) :=
      locate_bucket style_name translated_text keep_unmatched arr cursor in
    (out ++ spans, <[key := cursor]> cursors) in
  (foldl step ([], cursors)
     [(bold, BOLD); (italics, ITALIC); (underline, UNDERLINE)]).1.

End Relocation.

(** ** A reference implementation of the built-ins

    For running the model on concrete inputs: the built-ins on ASCII text,
    integers, and JSON texts whose numbers are integers, where Python and
    this instance agree.  Outside this domain it is not meant to be used:
    it leaves non-ASCII letters as they are, reads ASCII digits only, fails
    on a JSON number with a fraction or an exponent, and renders a float or
    a container as the empty string.  The statements that quantify over
    every [Builtins] do not depend on it. *)
Module Ref.

Definition upper_char (c : N) : N :=
  if ((97 <=? c) && (c <=? 122))%N then (c - 32)%N else c.
Definition lower_char (c : N) : N :=
  if ((65 <=? c) && (c <=? 90))%N then (c + 32)%N else c.

Definition is_digit (c : N) : bool := ((48 <=? c) && (c <=? 57))%N.
Definition digit_val (c : N) : Z := Z.of_N c - 48.

(** A run of decimal digits, single underscores allowed between digits. *)
Fixpoint digits (s : str) (acc : Z) (after_digit : bool) : option Z :=
  match s with
  | [] => if after_digit then Some acc else None
  | c :: s' =>
      if is_digit c then digits s' (acc * 10 + digit_val c) true
      else if (c =? 95)%N && after_digit then
        match s' with
        | d :: _ => if is_digit d then digits s' acc false else None
        | [] => None
        end
      else None
  end.

(** [int(s)] for a string: surrounding white space, a sign, digits. *)
Definition int_of_str (s : str) : result Z :=
  let t := Py.strip s in
  let '(neg, t) :=
    match t with
    | 45%N :: t' => (true, t')
    | 43%N :: t' => (false, t')
    | _ => (false, t)
    end in
  match digits t 0 false with
  | Some z => Ok (if neg then - z else z)
  | None => Raise ValueError
  end.

(** The decimal digits of a non-negative integer, with fuel for the number
    of digits. *)
Fixpoint show_nat (fuel : nat) (z : Z) (acc : str) : str :=
  match fuel with
  | O => acc
  | S fuel =>
      let acc := (Z.to_N (z mod 10) + 48)%N :: acc in
      if z <? 10 then acc else show_nat fuel (z / 10) acc
  end.

Definition show_int (z : Z) : str :=
  if z <? 0 then 45%N :: show_nat (Z.to_nat (Z.log2 (- z)) + 1) (- z) []
  else show_nat (Z.to_nat (Z.log2 z) + 1) z [].

Definition str_of (v : pyval) : str :=
  match v with
  | PStr s => s
  | PNone => lit "None"
  | PBool b => if b then lit "True" else lit "False"
  | PInt z => show_int z
  | PFloat _ | PList _ | PDict _ => []
  end.

(** *** The JSON decoder *)

Definition is_ws (c : N) : bool :=
  ((c =? 32) || (c =? 9) || (c =? 10) || (c =? 13))%N.

Fixpoint skip_ws (s : str) : str :=
  match s with
  | c :: s' => if is_ws c then skip_ws s' else s
  | [] => []
  end.

Definition hex_val (c : N) : option N :=
  if is_digit c then Some (c - 48)%N
  else if ((97 <=? c) && (c <=? 102))%N then Some (c - 87)%N
  else if ((65 <=? c) && (c <=? 70))%N then Some (c - 55)%N
  else None.

(** The four hex digits after a backslash-u. *)
Definition hex4 (s : str) : option (N * str) :=
  match s with
  | a :: b :: c :: d :: s' =>
      match hex_val a, hex_val b, hex_val c, hex_val d with
      | Some a, Some b, Some c, Some d =>
          Some ((((a * 16 + b) * 16 + c) * 16 + d)%N, s')
      | _, _, _, _ => None
      end
  | _ => None
  end.

(** The rest of a string after its opening quote.  A high surrogate followed
    by an escaped low surrogate is one code point. *)
Fixpoint string_body (fuel : nat) (s : str) (acc : str) : option (str * str) :=
  match fuel with
  | O => None
  | S fuel =>
      match s with
      | [] => None
      | 34%N :: s' => Some (reverse acc, s')
      | 92%N :: e :: s' =>
          if (e =? 117)%N then
            match hex4 s' with
            | Some (u, s'') =>
                let joined :=
                  if ((55296 <=? u) && (u <=? 56319))%N then
                    match s'' with
                    | 92%N :: 117%N :: s3 =>
                        match hex4 s3 with
                        | Some (u2, s4) =>
                            if ((56320 <=? u2) && (u2 <=? 57343))%N
                            then Some ((65536 + (u - 55296) * 1024 + (u2 - 56320))%N, s4)
                            else None
                        | None => None
                        end
                    | _ => None
                    end
                  else None in
                match joined with
                | Some (c, s4) => string_body fuel s4 (c :: acc)
                | None => string_body fuel s'' (u :: acc)
                end
            | None => None
            end
          else
            let c :=
              if (e =? 34)%N then Some 34%N
              else if (e =? 92)%N then Some 92%N
              else if (e =? 47)%N then Some 47%N
              else if (e =? 98)%N then Some 8%N
              else if (e =? 102)%N then Some 12%N
              else if (e =? 110)%N then Some 10%N
              else if (e =? 114)%N then Some 13%N
              else if (e =? 116)%N then Some 9%N
              else None in
            match c with
            | Some c => string_body fuel s' (c :: acc)
            | None => None
            end
      | c :: s' =>
          if (c <? 32)%N || (c =? 92)%N then None
          else string_body fuel s' (c :: acc)
      end
  end.

Fixpoint digit_run (s : str) (acc : Z) : Z * str :=
  match s with
  | c :: s' => if is_digit c then digit_run s' (acc * 10 + digit_val c) else (acc, s)
  | [] => (acc, [])
  end.

(** An integer: an optional minus, then 0 or a run of digits that does not
    start with 0.  A fraction or an exponent after it is not read. *)
Definition number (s : str) : option (pyval * str) :=
  let '(neg, t) := match s with 45%N :: t => (true, t) | _ => (false, s) end in
  match t with
  | c :: t' =>
      if is_digit c then
        let '(z, rest) := if (c =? 48)%N then (0, t') else digit_run t 0 in
        match rest with
        | 46%N :: _ | 101%N :: _ | 69%N :: _ => None
        | _ => Some (PInt (if neg then - z else z), rest)
        end
      else None
  | [] => None
  end.

(** The elements of an array after the first, up to the closing bracket. *)
Fixpoint more_elements (value : str -> option (pyval * str)) (fuel : nat)
    (s : str) (acc : list pyval) : option (list pyval * str) :=
  match fuel with
  | O => None
  | S fuel =>
      match skip_ws s with
      | 93%N :: s' => Some (reverse acc, s')
      | 44%N :: s' =>
          match value s' with
          | Some (v, s'') => more_elements value fuel s'' (v :: acc)
          | None => None
          end
      | _ => None
      end
  end.

(** One [key : value] member. *)
Definition member (value : str -> option (pyval * str)) (s : str)
    : option (str * pyval * str) :=
  match skip_ws s with
  | 34%N :: s' =>
      match string_body (S (length s')) s' [] with
      | Some (k, s'') =>
          match skip_ws s'' with
          | 58%N :: s3 =>
              match value s3 with
              | Some (v, s4) => Some (k, v, s4)
              | None => None
              end
          | _ => None
          end
      | None => None
      end
  | _ => None
  end.

(** The members of an object after the first, up to the closing brace. *)
Fixpoint more_members (value : str -> option (pyval * str)) (fuel : nat)
    (s : str) (acc : list (str * pyval)) : option (list (str * pyval) * str) :=
  match fuel with
  | O => None
  | S fuel =>
      match skip_ws s with
      | 125%N :: s' => Some (acc, s')
      | 44%N :: s' =>
          match member value s' with
          | Some (k, v, s'') => more_members value fuel s'' (Dict.set k v acc)
          | None => None
          end
      | _ => None
      end
  end.

(** One JSON value and the text after it; [fuel] bounds the nesting. *)
Fixpoint value (fuel : nat) (s : str) : option (pyval * str) :=
  match fuel with
  | O => None
  | S fuel =>
      let s := skip_ws s in
      match s with
      | 34%N :: s' =>
          match string_body (S (length s')) s' [] with
          | Some (x, rest) => Some (PStr x, rest)
          | None => None
          end
      | 91%N :: s' =>
          match skip_ws s' with
          | 93%N :: rest => Some (PList [], rest)
          | _ =>
              match value fuel s' with
              | Some (v, s'') =>
                  match more_elements (value fuel) (S (length s'')) s'' [v] with
                  | Some (l, rest) => Some (PList l, rest)
                  | None => None
                  end
              | None => None
              end
          end
      | 123%N :: s' =>
          match skip_ws s' with
          | 125%N :: rest => Some (PDict [], rest)
          | _ =>
              match member (value fuel) s' with
              | Some (k, v, s'') =>
                  match more_members (value fuel) (S (length s'')) s'' [(k, v)] with
                  | Some (d, rest) => Some (PDict d, rest)
                  | None => None
                  end
              | None => None
              end
          end
      | _ =>
          if Py.startswith s (lit "null") then Some (PNone, drop 4 s)
          else if Py.startswith s (lit "true") then Some (PBool true, drop 4 s)
          else if Py.startswith s (lit "false") then Some (PBool false, drop 5 s)
          else number s
      end
  end.

(** [json.loads(s)]: one value, white space around it, nothing else. *)
Definition json_loads (s : str) : result pyval :=
  match value (S (length s)) s with
  | Some (v, rest) =>
      match skip_ws rest with
      | [] => Ok v
      | _ => Raise ValueError
      end
  | None => Raise ValueError
  end.

End Ref.

Global Instance ref_builtins : Builtins := {|
  str_upper := fmap Ref.upper_char;
  str_lower := fmap Ref.lower_char;
  str_casefold := fmap Ref.lower_char;
  int_of_str := Ref.int_of_str;
  str_of := Ref.str_of;
  str_of_str := fun s => eq_refl;
  json_loads := Ref.json_loads;
|}.

(** ** The properties stated about located spans *)

(** A span that was found: the placeholder of an unmatched entry has
    offset -1. *)
Definition located (s : Span.t) : Prop := Span.offset s ≠ -1.

(** The end of a span, where the cursor of its bucket moves. *)
Definition span_end (s : Span.t) : Z := Span.offset s + Span.length s.

(** Left to right and without overlap. *)
Definition left_to_right (s1 s2 : Span.t) : Prop :=
  span_end s1 ≤ Span.offset s2.

(** The spans of the bucket of style [st] that were found, in output order. *)
Definition located_in (st : str) (out : list Span.t) : list Span.t :=
  filter (fun s => Span.style s = st ∧ located s) out.

Section Placement.
Context `{Builtins}.

(** Where [_find_from] can put a span when the cursor is at [e]: at or after
    [e]; or, when its text occurs nowhere from [e] on, neither as it is nor
    after lowering, at the first occurrence in the whole text, which then
    starts before [e]. *)
Definition right_of (text : str) (e : Z) (s : Span.t) : Prop :=
  e ≤ Span.offset s
  ∨ (Py.find_from text (Span.translated_text s) e = -1
     ∧ Py.find_from (str_lower text) (str_lower (Span.translated_text s)) e = -1
     ∧ Span.offset s = Py.find text (Span.translated_text s)
     ∧ Span.offset s < e).

Definition placed_after (text : str) (s1 s2 : Span.t) : Prop :=
  right_of text (span_end s1) s2.

(** Spans placed one after the other from a cursor at [e]. *)
Fixpoint chain (text : str) (e : Z) (l : list Span.t) : Prop :=
  match l with
  | [] => True
  | s :: l' => right_of text e s ∧ 0 ≤ span_end s ∧ chain text (span_end s) l'
  end.

End Placement.

(** ** Service responses used in the statements *)

(** A response body with [content] at [choices[0].message.content]. *)
Definition chat_response (content : pyval) : pyval :=
  PDict [(lit "choices",
          PList [PDict [(lit "message", PDict [(lit "content", content)])]])].

(** A service that answers every post with status 200 and this body. *)
Definition answering (body : pyval) : Z -> outcome :=
  fun _ => Response 200 (Ok body).

(** The three keys of an alignment. *)
Definition alignment_keys : list str := [bold; italics; underline].

(** An array whose elements are all strings. *)
Definition string_array (v : pyval) : Prop :=
  ∃ l, v = PList l ∧ Forall (fun x => is_str x = true) l.

(** A service that answers every post with status 404. *)
Definition answer_404 : Z -> outcome :=
  fun _ => Response 404 (Raise ValueError).

(** The structured content [{"bold": [], "italics": [], "underline": []}]. *)
Definition empty_alignment : pyval :=
  PDict [(bold, PList []); (italics, PList []); (underline, PList [])].

(** The content
    [{"bold": ["Bold****Gras"], "italics": [], "underline": [], "note": []}]. *)
Definition noted_alignment : str :=
  jlit "{'bold': ['Bold****Gras'], 'italics': [], 'underline': [], 'note': []}".

(** ** Positional pairing, in the words of the specification *)

(** An entry that contains the pairing marker. *)
Definition has_marker (x : str) : Prop := ∃ pre post, x = pre ++ SEP ++ post.

(** The entries zipped index for index against the extracted terms, up to
    the shorter of the two, the pairs with an empty target dropped. *)
Definition pair_by_zip (items srcs : list str) : list str :=
  (fun p : str * str => p.1 ++ SEP ++ p.2)
    <$> filter (fun p : str * str => p.2 ≠ []) (zip srcs items).

(** ** Source spans, in the words of the specification *)

(** [s[o : o + l]] for a span inside the text: [l] characters from [o]. *)
Definition substring (s : str) (o l : Z) : str :=
  take (Z.to_nat l) (drop (Z.to_nat o) s).

(** The terms of a bucket, none for a key that is absent. *)
Definition terms_of (out : gmap str (list str)) (key : str) : list str :=
  default [] (out !! key).

Section Span_reading.
Context `{Builtins}.

(** How [extract_words_by_style] reads a span [s]: its offset, its length
    and its normalised style name. *)
Definition span_reads (s : pyval) (o l : Z) (style : str) : Prop :=
  (let* v := py_get s (lit "offset") PNone in py_int v) = Ok o
  ∧ (let* v := py_get s (lit "length") PNone in py_int v) = Ok l
  ∧ (let* v := py_get s (lit "style") (PStr []) in _normalize_style_name v)
    = Ok style.

(** The invariants of the second loop of [extract_words_by_style]: the
    three buckets exist in [out] and in [seen]. *)
Definition has_keys (st : gmap (list N) (list (list N)) * gmap (list N) (gset (list N)))
    : Prop :=
  ∀ k, k ∈ alignment_keys → is_Some (st.1 !! k) ∧ is_Some (st.2 !! k).

(** Every folded form recorded in [seen] is the folded form of a term of
    the bucket. *)
Definition seen_in_out (st : gmap (list N) (list (list N)) * gmap (list N) (gset (list N)))
    : Prop :=
  ∀ k norm, norm ∈ default ∅ (st.2 !! k) →
    ∃ t, t ∈ terms_of st.1 k ∧ str_casefold t = norm.

End Span_reading.

(** ** Payloads used in the statements *)

(** Two spans inside the text. *)
Definition payload_in_range : payload :=
  {| value := lit "Sugar, salt and water";
     styles := [span_dict 0 5 (lit "bold"); span_dict 7 4 (lit "Italics")] |}.

(** A span with a negative offset. *)
Definition payload_negative : payload :=
  {| value := lit "abcdef"; styles := [span_dict (-3) 2 BOLD] |}.

(** A span that runs past the end of the text. *)
Definition payload_overlong : payload :=
  {| value := lit "Sugar"; styles := [span_dict 2 10 (lit "bold")] |}.

(** A span that runs past the end of the text and whose suffix repeats, in
    another case, a term placed before it. *)
Definition payload_overlong_repeat : payload :=
  {| value := lit "ABC abc";
     styles := [span_dict 0 3 BOLD; span_dict 4 10 BOLD] |}.

(** The buckets [{"bold": b, "italics": i, "underline": u}]. *)
Definition buckets (b i u : list (list N)) : gmap (list N) (list (list N)) :=
  <[bold := b]> (<[italics := i]> (<[underline := u]> ∅)).

(** The content [{"foo****bar","baz****qux"}], a brace-wrapped list. *)
Definition brace_content : str := jlit "{'foo****bar','baz****qux'}".

(** An alignment whose bold entries are bare targets and whose italics
    entries carry a marker, and the terms extracted from the source. *)
Definition bare_alignment : gmap (list N) (list (list N)) :=
  <[bold := [lit "Sucre"; []; lit "Sel"; lit "Poivre"]]>
    (<[italics := [lit "Water****Eau"; lit "Lait"]]> ∅).

Definition extracted_terms : gmap (list N) (list (list N)) :=
  <[bold := [lit "Sugar"; lit "Flour"; lit "Salt"]]>
    (<[italics := [lit "Water"; lit "Milk"]]> (<[underline := []]> ∅)).

(** ** Traces of the retrying client *)

(** The attempts posted, in order. *)
Definition posts (tr : list event) : list Z :=
  omap (fun e => match e with Post a => Some a | Sleep _ => None end) tr.

(** The base delays slept, in order. *)
Definition sleeps (tr : list event) : list Z :=
  omap (fun e => match e with Sleep b => Some b | Post _ => None end) tr.

(** [n] delays from [b] on, each the double of the one before, capped
    at 8. *)
Fixpoint backoffs (b : Z) (n : nat) : list Z :=
  match n with
  | O => []
  | S n => b :: backoffs (Z.min (b * 2) 8) n
  end.

(** [k] posts from the attempt [a] on with one sleep between two
    consecutive posts, the first of [b] seconds and each later one the
    double of the one before, capped at 8. *)
Fixpoint retries (a b : Z) (k : nat) : list event :=
  match k with
  | O => []
  | S k' =>
      Post a
        :: match k' with
           | O => []
           | S _ => Sleep b :: retries (Z.succ a) (Z.min (b * 2) 8) k'
           end
  end.

(** The exception one attempt ends with when it is the last: that of the
    post, [HTTPError] for a 4xx or 5xx status, that of [resp.json()]; [None]
    when the attempt returns the decoded body. *)
Definition failure_of (o : outcome) : option exn :=
  match o with
  | Refused e => Some e
  | Response status_code json =>
      if (400 <=? status_code) && (status_code <? 600) then Some HTTPError
      else match json with Raise e => Some e | Ok _ => None end
  end.

(** The body an attempt returns when it does not fail. *)
Definition body_of (o : outcome) : option pyval :=
  match o with
  | Response _ (Ok j) => Some j
  | _ => None
  end.

(** A service that refuses the first post, answers 503 to the second and
    then answers. *)
Definition flaky_service : Z -> outcome :=
  fun attempt =>
    if attempt =? 0 then Refused ConnectionError
    else if attempt =? 1 then Response 503 (Raise ValueError)
    else Response 200 (Ok (chat_response (PStr brace_content))).

(** ** Items and buckets of the extraction *)

Global Instance exn_eq_dec : EqDecision exn.
Proof. solve_decision. Defined.

Global Instance result_eq_dec {A} `{EqDecision A} : EqDecision (result A).
Proof. solve_decision. Defined.

(** The chunks of a list of items [(style, si, chunk)]. *)
Definition chunks (items : list (list N * Z * list N)) : list (list N) :=
  (fun it => it.2) <$> items.

(** Items in non-decreasing order of their start position. *)
Definition by_offset (a b : list N * Z * list N) : Prop := a.1.2 ≤ b.1.2.

(** The items whose style goes to the bucket [key]. *)
Definition of_bucket (key : list N) (items : list (list N * Z * list N))
    : list (list N * Z * list N) :=
  filter (fun it => bucket_key it.1.1 = Ok key) items.

Section Items.
Context `{Builtins}.

(** The list [items] of [extract_words_by_style] before it is sorted. *)
Definition items_of (p : payload) : list (list N * Z * list N) :=
  omap (extract_step (value p)) (styles p).

(** With [dedupe], the folded forms recorded in [seen] are those of the
    terms of the bucket, each once. *)
Definition seen_exact (st : gmap (list N) (list (list N)) * gmap (list N) (gset (list N)))
    : Prop :=
  ∀ k, NoDup (str_casefold <$> terms_of st.1 k)
       ∧ ∀ norm, norm ∈ default ∅ (st.2 !! k)
                 ↔ norm ∈ str_casefold <$> terms_of st.1 k.

End Items.

(** Two bold spans, the later one of the text listed first. *)
Definition payload_unordered : payload :=
  {| value := lit "Sugar, salt and water";
     styles := [span_dict 16 5 BOLD; span_dict 0 5 BOLD] |}.

(** Three annotations: one without a length, one with an unknown style and
    one bold span, given with capitalised keys and a synonym of the
    style. *)
Definition mixed_annotations : str :=
  jlit "[{'offset': 0, 'style': 'bold'}, {'offset': 1, 'length': 2, 'style': 'strike'}, {'Offset': 4, 'Length': 4, 'Style': 'Bolded'}]".

(** ** Arrays of strings *)

(** [[str(x) for x in l]] *)
Definition stringify `{Builtins} (l : list pyval) : list pyval :=
  (fun x => PStr (str_of x)) <$> l.

(** An object that has the three keys, each with an array of strings. *)
Definition well_formed_alignment (d : list (list N * pyval)) : Prop :=
  ∀ k, k ∈ alignment_keys → ∃ v, Dict.get k d = Some v ∧ string_array v.

(** The content [{"bold": ["Sugar****Sucre"], "underline": 5}]. *)
Definition broken_alignment : list N :=
  jlit "{'bold': ['Sugar****Sucre'], 'underline': 5}".

(** The content [["a", 1, "b", "c"]], a flat list. *)
Definition flat_content : list N := jlit "['a', 1, 'b', 'c']".

(** ** Texts without white space at their ends *)

(** No white space at the head and none at the end. *)
Definition clean (s : list N) : Prop :=
  (∀ c, head s = Some c → Py.isspace c = false)
  ∧ (∀ c, last s = Some c → Py.isspace c = false).

(** A prose answer with an object inside, whose string holds braces. *)
Definition prose_content : list N :=
  jlit "Here you are: {'bold': ['a}{b'], 'n': {'m': 1}} and {'more': 0}".

(** ** Entries and spans of the relocation *)

(** The entries of an alignment in the order they are processed, each with
    the style name of its bucket and the source it splits into. *)
Definition tagged_sources (alignment : gmap (list N) (list (list N)))
    : list (list N * list N) :=
  ((fun e => (BOLD, (_split_pair e).1)) <$> default [] (alignment !! bold))
  ++ ((fun e => (ITALIC, (_split_pair e).1))
        <$> default [] (alignment !! italics))
  ++ ((fun e => (UNDERLINE, (_split_pair e).1))
        <$> default [] (alignment !! underline)).

(** A span that was found in [text]: its offset is an index, its length is
    positive and its text is read from [text] at its offset. *)
Definition found_in (text : list N) (s : Span.t) : Prop :=
  0 ≤ Span.offset s ∧ 0 < Span.length s
  ∧ Span.translated_text s
    = Py.slice text (Span.offset s) (Span.offset s + Span.length s).

(** The placeholder of an entry that was not found. *)
Definition placeholder (s : Span.t) : Prop :=
  Span.offset s = -1 ∧ Span.length s = 0 ∧ Span.translated_text s = [].

(** An alignment with a target that is absent from the text and an entry
    without a target. *)
Definition partly_absent_alignment : gmap (list N) (list (list N)) :=
  <[bold := [lit "Sugar****Sucre"; lit "Pepper****Poivre"]]>
    (<[italics := [lit "Salt****"; lit "Salt****SEL"]]> ∅).

(** An answer of bare targets and the terms extracted for it. *)
Definition bare_targets : gmap (list N) (list (list N)) :=
  <[bold := [lit "Sucre"; []; lit "Sel"]]> ∅.

Definition extracted_sources : gmap (list N) (list (list N)) :=
  <[bold := [lit "Sugar"; lit "Pepper"; lit "Salt"; lit "Oil"]]> ∅.

(** ** Word boundaries *)

(** The character class of the pattern [_WORD_CH]: digits, ASCII letters
    and the blocks U+00C0-U+00FF, U+00C0-U+024F, U+0370-U+03FF,
    U+0400-U+04FF, U+0590-U+05FF, U+0600-U+06FF, U+0900-U+097F and
    U+4E00-U+9FFF. *)
Definition code_between (a b c : N) : bool := ((a <=? c) && (c <=? b))%N.

Definition _WORD_CH (c : N) : bool :=
  code_between 48 57 c || code_between 65 90 c || code_between 97 122 c
  || code_between 192 255 c || code_between 192 591 c
  || code_between 880 1023 c || code_between 1024 1279 c
  || code_between 1424 1535 c || code_between 1536 1791 c
  || code_between 2304 2431 c || code_between 19968 40959 c.

(** [_is_word_char(ch)]: [match] tests the first character of [ch], and
    [ch in "'-"] is a substring test. *)
Definition _is_word_char (ch : list N) : bool :=
  match ch with
  | [] => false
  | c :: _ => _WORD_CH c || Py.contains (lit "'-") ch
  end.

(** [text[i]] for a string [text]. *)
Definition char_at (text : list N) (i : Z) : result (list N) :=
  let* v := py_getitem (PStr text) (PInt i) in
  match v with
  | PStr ch => Ok ch
  | _ => Raise TypeError
  end.

(** The first loop of [_expand_to_word_boundaries], entered with a positive
    [i]: one round for each step down. *)
Fixpoint expand_left (text : list N) (i : nat) : result Z :=
  match i with
  | O => Ok 0
  | S i' =>
      let* ch := char_at text (Z.of_nat i') in
      if _is_word_char ch then expand_left text i' else Ok (Z.of_nat i)
  end.

(** The second loop.  [j] grows by one in each round and the test
    [j < len(text)] ends the loop, so [len(text) - j] rounds are enough. *)
Fixpoint expand_right (text : list N) (rounds : nat) (j : Z) : result Z :=
  match rounds with
  | O => Ok j
  | S rounds' =>
      if j <? Py.len text then
        let* ch := char_at text j in
        if _is_word_char ch then expand_right text rounds' (j + 1) else Ok j
      else Ok j
  end.

Definition _expand_to_word_boundaries (text : list N) (start end_ : Z)
    : result (Z * Z) :=
  let* i := (if 0 <? start then expand_left text (Z.to_nat start)
             else Ok start) in
  let* j := expand_right text (Z.to_nat (Py.len text - end_)) end_ in
  Ok (i, j).

(** A character that [_is_word_char] accepts. *)
Definition word_char (c : N) : Prop := _is_word_char [c] = true.

(** ** The keys of a recovered alignment *)

(** The keys of a recovered object [obj], by what the content decoded to.
    An object [d] keeps all its keys, in their order, with the values of
    the keys other than the three buckets untouched, and gets the buckets
    it lacks; every other content gives the three buckets and nothing
    else. *)
Definition keys_kept (parsed : option pyval) (obj : list (list N * pyval))
    : Prop :=
  match parsed with
  | Some (PDict d) =>
      (∀ k, k ∈ Dict.keys obj ↔ k ∈ Dict.keys d ∨ k ∈ alignment_keys)
      ∧ Dict.keys d `prefix_of` Dict.keys obj
      ∧ (∀ k, k ∉ alignment_keys → Dict.get k obj = Dict.get k d)
  | _ => Dict.keys obj = alignment_keys
  end.

(** ** The order of placement *)

Section Placement_order.
Context `{Builtins}.

(** The items in the order the second loop of [extract_words_by_style]
    places them: sorted on their start positions. *)
Definition placement (p : payload) : list (list N * Z * list N) :=
  sort_items (items_of p).

(** An item [e] of the bucket [key], among the items [pre] placed before a
    chunk, that has the folded form of that chunk. *)
Definition earlier_duplicate (key : list N)
    (pre : list (list N * Z * list N)) (chunk : list N)
    (e : list N * Z * list N) : Prop :=
  e ∈ pre ∧ bucket_key e.1.1 = Ok key
  ∧ str_casefold e.2 = str_casefold chunk.

(** How a chunk placed after the items [pre] shows in the terms of its
    bucket.  Without [dedupe] it is one of them.  With [dedupe] the bucket
    has exactly one term with the folded form of the chunk: the chunk
    itself when no earlier item of the bucket has this folded form, and
    the chunk of such an earlier item otherwise. *)
Definition represented (dedupe : bool) (key : list N)
    (pre : list (list N * Z * list N)) (chunk : list N)
    (terms : list (list N)) : Prop :=
  if dedupe then
    ∃ t, t ∈ terms
         ∧ (∀ t', t' ∈ terms → str_casefold t' = str_casefold chunk → t' = t)
         ∧ ((¬ ∃ e, earlier_duplicate key pre chunk e) → t = chunk)
         ∧ ((∃ e, earlier_duplicate key pre chunk e) →
            ∃ e, earlier_duplicate key pre chunk e ∧ t = e.2)
  else chunk ∈ terms.

End Placement_order.

(** * Theorems *)

(** Settle a comparison of integers that the hypotheses decide. *)
Ltac cmp_false c :=
  replace c with false
    by (symmetry; first [apply Z.ltb_ge | apply Z.leb_gt]; lia).
Ltac cmp_true c :=
  replace c with true
    by (symmetry; first [apply Z.ltb_lt | apply Z.leb_le]; lia).

(** ** Facts on string search *)

Lemma startswith_take s p : Py.startswith s p = true ↔ take (length p) s = p.
Proof.
  revert s; induction p as [|a p IH]; intros [|b s]; simpl; try done.
  rewrite andb_true_iff, N.eqb_eq, IH. split.
  - intros [-> ->]; done.
  - intros [= -> ->]; done.
Qed.

Lemma find_aux_eq sub s i :
  Py.find_aux sub s i =
  if Py.startswith s sub then Some i
  else match s with [] => None | _ :: s' => Py.find_aux sub s' (S i) end.
Proof. by destruct s. Qed.

Lemma find_aux_Some sub s i k :
  Py.find_aux sub s i = Some k →
  (i ≤ k)%nat ∧ (k - i ≤ length s)%nat
  ∧ Py.startswith (drop (k - i) s) sub = true
  ∧ ∀ j, (i ≤ j < k)%nat → Py.startswith (drop (j - i) s) sub = false.
Proof.
  revert i; induction s as [|c s IH]; intros i; rewrite find_aux_eq.
  - destruct (Py.startswith [] sub) eqn:E; [|done].
    intros [= <-]. rewrite Nat.sub_diag. simpl.
    repeat split; try lia; try done; intros; lia.
  - destruct (Py.startswith (c :: s) sub) eqn:E.
    + intros [= <-]. rewrite Nat.sub_diag. simpl.
      repeat split; try lia; try done; intros; lia.
    + intros Hk. apply IH in Hk as (Hik & Hlen & Hocc & Hmin).
      replace (k - i)%nat with (S (k - S i)) by lia. simpl.
      repeat split; try lia; try done.
      intros j Hj. destruct (decide (j = i)) as [->|Hne].
      * rewrite Nat.sub_diag. done.
      * replace (j - i)%nat with (S (j - S i)) by lia. simpl. apply Hmin. lia.
Qed.

Lemma find_aux_None sub s i :
  Py.find_aux sub s i = None →
  ∀ j, (j ≤ length s)%nat → Py.startswith (drop j s) sub = false.
Proof.
  revert i; induction s as [|c s IH]; intros i; rewrite find_aux_eq.
  - destruct (Py.startswith [] sub) eqn:E; [done|].
    intros _ j Hj. by rewrite drop_nil.
  - destruct (Py.startswith (c :: s) sub) eqn:E; [done|].
    intros Hn [|j] Hj; simpl in *; [done|]. eapply IH; [done|lia].
Qed.

(** A search answers -1 or an index of the text. *)
Lemma find_from_range text sub start :
  Py.find_from text sub start = -1
  ∨ 0 ≤ Py.find_from text sub start ≤ Py.len text.
Proof.
  unfold Py.find_from, Py.len.
  destruct (_ <? _) eqn:Hlt; [by left|].
  destruct (Py.find_aux _ _ _) as [k|] eqn:E; [|by left].
  apply find_aux_Some in E as (? & Hk & _). rewrite length_drop in Hk.
  apply Z.ltb_ge in Hlt. right. destruct (Z.ltb_spec start 0); lia.
Qed.

(** A search from [start] answers nothing before [start]. *)
Lemma find_from_ge text sub start :
  0 ≤ start → Py.find_from text sub start ≠ -1 →
  start ≤ Py.find_from text sub start.
Proof.
  unfold Py.find_from. intros Hs.
  cmp_false (start <? 0).
  destruct (_ <? _); [done|].
  destruct (Py.find_aux _ _ _) as [k|] eqn:E; [|done].
  apply find_aux_Some in E as (? & _). lia.
Qed.

(** Where a search succeeds, the text reads [sub]. *)
Lemma find_from_occurs text sub start :
  Py.find_from text sub start ≠ -1 →
  let pos := Py.find_from text sub start in
  Py.slice text pos (pos + Py.len sub) = sub.
Proof.
  intros Hne pos.
  destruct (find_from_range text sub start) as [?|Hr]; [done|].
  fold pos in Hr. subst pos. revert Hne Hr.
  unfold Py.find_from.
  set (a := if start <? 0 then _ else _).
  destruct (Py.len text <? a) eqn:Hlt; [done|]. apply Z.ltb_ge in Hlt.
  destruct (Py.find_aux _ _ _) as [k|] eqn:E; [|done].
  intros _ Hr.
  apply find_aux_Some in E as (Hak & Hk & Hocc & _).
  rewrite length_drop in Hk. rewrite drop_drop in Hocc.
  apply startswith_take in Hocc.
  assert (Ha : 0 ≤ a) by (subst a; destruct (Z.ltb_spec start 0); lia).
  replace (Z.to_nat a + (k - Z.to_nat a))%nat with k in Hocc by lia.
  unfold Py.slice, Py.clamp, Py.len in *.
  cmp_false (Z.of_nat k <? 0).
  replace (Z.of_nat k + Z.of_nat (length sub) <? 0) with false
    by (symmetry; apply Z.ltb_ge; lia).
  rewrite (Z.min_l (Z.of_nat k)) by lia.
  rewrite Nat2Z.id.
  assert (Hfit : (k + length sub ≤ length text)%nat).
  { apply (f_equal length) in Hocc.
    rewrite length_take, length_drop in Hocc. lia. }
  rewrite Z.min_l by lia.
  replace (Z.to_nat (Z.of_nat k + Z.of_nat (length sub) - Z.of_nat k))
    with (length sub) by lia.
  done.
Qed.

(** When the search from [start] fails, every occurrence of [sub] starts
    before [start]. *)
Lemma find_before text sub start :
  0 ≤ start → Py.find_from text sub start = -1 →
  Py.find text sub ≠ -1 → Py.find text sub < start.
Proof.
  intros Hs Hnone Hsome.
  destruct (find_from_range text sub 0) as [?|Hr]; [done|].
  fold (Py.find text sub) in Hr.
  destruct (decide (Py.find text sub < start)) as [|Hge]; [done|exfalso].
  revert Hnone Hsome Hr Hge. unfold Py.find, Py.find_from at 1.
  cmp_false (start <? 0).
  destruct (Py.len text <? start) eqn:Hlt.
  { apply Z.ltb_lt in Hlt. lia. }
  destruct (Py.find_aux sub (drop _ _) _) as [k|] eqn:E; [lia|].
  intros _. unfold Py.find_from. simpl.
  destruct (Py.len text <? 0) eqn:Hl0; [done|].
  rewrite drop_0.
  destruct (Py.find_aux sub text _) as [p|] eqn:Ep; [|done].
  intros _ Hr Hge.
  apply find_aux_Some in Ep as (_ & Hp & Hocc & _).
  rewrite Nat.sub_0_r in Hocc, Hp.
  apply (find_aux_None _ _ _) with (j := (p - Z.to_nat start)%nat) in E.
  2:{ rewrite length_drop. lia. }
  rewrite drop_drop in E.
  replace (Z.to_nat start + (p - Z.to_nat start))%nat with p in E by lia.
  congruence.
Qed.

(** ** Facts on slices *)

(** Within bounds a slice is the plain substring. *)
Lemma slice_in_range {A} (s : list A) (i j : Z) :
  0 ≤ i → i ≤ j → j ≤ Py.len s →
  Py.slice s i j = take (Z.to_nat (j - i)) (drop (Z.to_nat i) s).
Proof.
  intros Hi Hij Hj. unfold Py.slice, Py.clamp.
  cmp_false (i <? 0).
  cmp_false (j <? 0).
  by rewrite !Z.min_l by lia.
Qed.

Lemma slice_length {A} (s : list A) (i j : Z) :
  0 ≤ i → i ≤ j → j ≤ Py.len s → Py.len (Py.slice s i j) = j - i.
Proof.
  intros Hi Hij Hj. rewrite slice_in_range by done.
  unfold Py.len in *. rewrite length_take, length_drop. lia.
Qed.

(** An end past the text is cut back to the end of the text. *)
Lemma slice_past_end {A} (s : list A) (i j : Z) :
  0 ≤ i → Py.len s ≤ j → Py.slice s i j = drop (Z.to_nat i) s.
Proof.
  intros Hi Hj. unfold Py.slice, Py.clamp.
  cmp_false (i <? 0).
  replace (j <? 0) with false
    by (symmetry; apply Z.ltb_ge; unfold Py.len in *; lia).
  rewrite (Z.min_r j) by lia.
  destruct (decide (i ≤ Py.len s)).
  - rewrite Z.min_l by lia. apply take_ge.
    rewrite length_drop. unfold Py.len. lia.
  - rewrite Z.min_r by lia. rewrite Z.sub_diag. simpl.
    symmetry. apply drop_ge. unfold Py.len in *. lia.
Qed.

Lemma slice_Forall {A} (P : A → Prop) (s : list A) (i j : Z) :
  Forall P s → Forall P (Py.slice s i j).
Proof. intros Hs. unfold Py.slice. by apply Forall_take, Forall_drop. Qed.

(** [sub in s] holds exactly when [s] reads [sub] somewhere. *)
Lemma contains_spec s sub :
  Py.contains s sub = true ↔ ∃ pre post, s = pre ++ sub ++ post.
Proof.
  unfold Py.contains. split.
  - destruct (Py.find_aux sub s 0) as [k|] eqn:E; [|done]. intros _.
    apply find_aux_Some in E as (_ & _ & Hocc & _).
    rewrite Nat.sub_0_r in Hocc. apply startswith_take in Hocc.
    exists (take k s), (drop (length sub) (drop k s)).
    rewrite <- Hocc at 1. by rewrite !take_drop.
  - intros (pre & post & ->).
    destruct (Py.find_aux sub _ 0) as [k|] eqn:E; [done|exfalso].
    apply find_aux_None with (j := length pre) in E.
    2:{ rewrite length_app. lia. }
    rewrite drop_app_length in E.
    assert (Py.startswith (sub ++ post) sub = true); [|congruence].
    apply startswith_take. by rewrite take_app_length.
Qed.

(** ** Relocation: where the spans of a bucket are put *)

Section Relocation_facts.
Context `{Builtins}.

Lemma _find_from_range text needle start :
  _find_from text needle start = -1 ∨ 0 ≤ _find_from text needle start.
Proof.
  unfold _find_from.
  destruct (find_from_range text needle start) as [->|?]; simpl.
  - destruct (find_from_range (str_lower text) (str_lower needle) start)
      as [->|?]; simpl.
    + destruct (find_from_range text needle 0) as [?|?]; [by left|right].
      unfold Py.find; lia.
    + destruct (_ =? -1) eqn:E; simpl; [apply Z.eqb_eq in E; lia|right; lia].
  - destruct (_ =? -1) eqn:E; simpl; [apply Z.eqb_eq in E; lia|right; lia].
Qed.

(** The three strategies of [_find_from], seen from the cursor. *)
Lemma _find_from_placed text needle start :
  0 ≤ start → _find_from text needle start ≠ -1 →
  let pos := _find_from text needle start in
  start ≤ pos
  ∨ (Py.find_from text needle start = -1
     ∧ Py.find_from (str_lower text) (str_lower needle) start = -1
     ∧ pos = Py.find text needle
     ∧ pos < start
     ∧ Py.slice text pos (pos + Py.len needle) = needle).
Proof.
  intros Hs. unfold _find_from.
  destruct (Py.find_from text needle start =? -1) eqn:E1; simpl.
  - apply Z.eqb_eq in E1.
    destruct (Py.find_from (str_lower text) _ start =? -1) eqn:E2; simpl.
    + apply Z.eqb_eq in E2. intros Hne. right.
      repeat split; try done.
      * by apply find_before.
      * by apply find_from_occurs.
    + apply Z.eqb_neq in E2. intros _. left. by apply find_from_ge.
  - apply Z.eqb_neq in E1. intros _. left. by apply find_from_ge.
Qed.

Lemma chain_Sorted text e l : chain text e l → Sorted (placed_after text) l.
Proof.
  revert e; induction l as [|s l IH]; intros e; simpl; [constructor|].
  intros (_ & _ & Hl). constructor; [by eapply IH|].
  destruct l as [|s' l']; constructor. by destruct Hl.
Qed.

(** One entry: either it is found, and the cursor moves to its end, or
    nothing found is emitted and the cursor stays. *)
Lemma locate_item_cases st text keep item cursor :
  0 ≤ cursor →
  let r := locate_item st text keep item cursor in
  Forall (fun s => Span.style s = st) r.1
  ∧ ((∃ s, r.1 = [s] ∧ located s ∧ right_of text cursor s
           ∧ 0 ≤ span_end s ∧ r.2 = span_end s)
     ∨ (filter located r.1 = [] ∧ r.2 = cursor)).
Proof.
  intros Hc. unfold locate_item.
  destruct (_split_pair item) as [src tgt].
  assert (Hun : ∀ l, l = [unmatched st src] ∨ l = [] →
    Forall (fun s => Span.style s = st) l ∧ filter located l = []).
  { intros l [-> | ->]; (split; [by repeat constructor|done]). }
  destruct tgt as [|c tgt].
  { destruct keep; simpl; (split; [|right; split; [|done]]); apply Hun; auto. }
  set (needle := c :: tgt).
  destruct (_find_from text needle cursor =? -1) eqn:E; simpl.
  { destruct keep; simpl; (split; [|right; split; [|done]]); apply Hun; auto. }
  apply Z.eqb_neq in E.
  split; [by repeat constructor|left].
  eexists; split; [done|]. unfold located, span_end, right_of; simpl.
  pose proof (_find_from_placed text needle cursor Hc E) as Hp. simpl in Hp.
  destruct (_find_from_range text needle cursor) as [?|Hr]; [done|].
  repeat split; try done; [|unfold Py.len; lia].
  destruct Hp as [?|(H1 & H2 & H3 & H4 & H5)]; [by left|right].
  rewrite H5. done.
Qed.

Lemma locate_bucket_chain st text keep arr cursor :
  0 ≤ cursor →
  let r := locate_bucket st text keep arr cursor in
  Forall (fun s => Span.style s = st) r.1
  ∧ chain text cursor (filter located r.1).
Proof.
  revert cursor; induction arr as [|item arr IH]; intros cursor Hc; simpl.
  { split; [constructor|done]. }
  pose proof (locate_item_cases st text keep item cursor Hc) as [Hst Hcase].
  destruct (locate_item st text keep item cursor) as [spans c1]. simpl in *.
  assert (Hc1 : 0 ≤ c1).
  { destruct Hcase as [(s & _ & _ & _ & ? & ->)|[_ ->]]; done. }
  specialize (IH c1 Hc1).
  destruct (locate_bucket st text keep arr c1) as [spans' c2]. simpl in *.
  destruct IH as [Hst' Hch]. split; [by apply Forall_app|].
  rewrite filter_app.
  destruct Hcase as [(s & -> & Hloc & Hright & Hend & ->)|[-> ->]]; [|done].
  rewrite filter_cons, filter_nil. destruct (decide (located s)); [|done].
  simpl. done.
Qed.

Lemma located_in_app st (l1 l2 : list Span.t) :
  located_in st (l1 ++ l2) = located_in st l1 ++ located_in st l2.
Proof. apply filter_app. Qed.

Lemma filter_style st X (spans : list Span.t) :
  Forall (fun s => Span.style s = X) spans →
  located_in st spans = if decide (X = st) then filter located spans else [].
Proof.
  unfold located_in.
  induction 1 as [|s l Hs _ IH]; [by destruct (decide _)|].
  rewrite !filter_cons, IH.
  destruct (decide (X = st)) as [->|Hne].
  - destruct (decide (located s)), (decide (_ ∧ _)); intuition congruence.
  - destruct (decide (_ ∧ _)); intuition congruence.
Qed.

Lemma transform_buckets alignment text keep :
  transform_alignment_to_styles alignment text keep =
  (locate_bucket BOLD text keep (default [] (alignment !! bold)) 0).1
  ++ (locate_bucket ITALIC text keep (default [] (alignment !! italics)) 0).1
  ++ (locate_bucket UNDERLINE text keep (default [] (alignment !! underline)) 0).1.
Proof.
  unfold transform_alignment_to_styles. simpl.
  rewrite lookup_insert_eq. simpl.
  destruct (locate_bucket BOLD _ _ _ _) as [s1 c1].
  rewrite lookup_insert_ne by done.
  rewrite lookup_insert_ne by done.
  rewrite lookup_insert_eq. simpl.
  destruct (locate_bucket ITALIC _ _ _ _) as [s2 c2].
  do 2 rewrite lookup_insert_ne by done.
  rewrite lookup_insert_ne by done.
  rewrite lookup_insert_ne by done.
  rewrite lookup_insert_eq. simpl.
  destruct (locate_bucket UNDERLINE _ _ _ _) as [s3 c3]. simpl.
  by rewrite <- app_assoc.
Qed.

End Relocation_facts.

(** C1, as amended: within one style bucket, each span that was found is
    put at or after the end of the span found before it, unless its text
    occurs nowhere from that end on; it is then put at its first occurrence
    in the whole translated text, before that end. *)
Theorem located_spans_follow_the_cursor `{Builtins}
    (alignment : gmap str (list str)) (translated_text : str)
    (keep_unmatched : bool) (st : str) :
  Sorted (placed_after translated_text)
    (located_in st
       (transform_alignment_to_styles alignment translated_text keep_unmatched)).
Proof.
  rewrite transform_buckets.
  pose proof (locate_bucket_chain BOLD translated_text keep_unmatched
    (default [] (alignment !! bold)) 0 ltac:(done)) as [Hb Cb].
  pose proof (locate_bucket_chain ITALIC translated_text keep_unmatched
    (default [] (alignment !! italics)) 0 ltac:(done)) as [Hi Ci].
  pose proof (locate_bucket_chain UNDERLINE translated_text keep_unmatched
    (default [] (alignment !! underline)) 0 ltac:(done)) as [Hu Cu].
  rewrite !located_in_app.
  rewrite (filter_style st BOLD), (filter_style st ITALIC),
    (filter_style st UNDERLINE) by done.
  destruct (decide (BOLD = st)) as [<-|?].
  { rewrite decide_False, decide_False by done.
    rewrite !app_nil_r. by eapply chain_Sorted. }
  destruct (decide (ITALIC = st)) as [<-|?].
  { rewrite decide_False by done. rewrite app_nil_r. simpl.
    by eapply chain_Sorted. }
  destruct (decide (UNDERLINE = st)) as [<-|?]; simpl.
  - by eapply chain_Sorted.
  - constructor.
Qed.

(** C1, the counterexample: the second entry is not found from the cursor
    and is put before the first. *)
Lemma located_spans_not_left_to_right :
  ¬ Sorted left_to_right
      (located_in BOLD
         (transform_alignment_to_styles
            (<[bold := [lit "Sugar****Sucre"; lit "Salt****Sel"]]> ∅)
            (lit "Sel, Sucre") false)).
Proof.
  vm_compute. intros Hs.
  apply Sorted_inv in Hs as [_ Hh]. apply HdRel_inv in Hh.
  vm_compute in Hh. by apply Hh.
Qed.

(** The same target twice: the second span is found past the end of the
    first. *)
Example duplicate_targets_move_forward :
  transform_alignment_to_styles
    (<[bold := [lit "Sugar****Sucre"; lit "Sugar****Sucre"]]> ∅)
    (lit "Sucre, Sel, Sucre") false
  = [Span.mk BOLD (lit "Sugar") (lit "Sucre") 0 5;
     Span.mk BOLD (lit "Sugar") (lit "Sucre") 12 5].
Proof. reflexivity. Qed.

(** C6, as amended: for the translated text [Le mot **Gras**] and the
    alignment with the single bold entry [Bold****Gras] and no italics or
    underline entry, exactly one span is returned: style BOLD, source
    [Bold], translated text [Gras], offset 9 and length 4.  Seven characters
    and two asterisks come before [Gras]. *)
Theorem end_to_end_bold_span `{Builtins} :
  transform_alignment_to_styles
    (<[bold := [lit "Bold****Gras"]]>
       (<[italics := []]> (<[underline := []]> ∅)))
    (lit "Le mot **Gras**") false
  = [Span.mk BOLD (lit "Bold") (lit "Gras") 9 4].
Proof.
  rewrite transform_buckets.
  replace (default [] (_ !! bold)) with [lit "Bold****Gras"] by done.
  replace (default [] (_ !! italics)) with (@nil (list N)) by done.
  replace (default [] (_ !! underline)) with (@nil (list N)) by done.
  reflexivity.
Qed.

(** C6, the counterexample: the same span at offset 8 is not what is
    returned. *)
Lemma end_to_end_offset_is_not_8 :
  transform_alignment_to_styles
    (<[bold := [lit "Bold****Gras"]]>
       (<[italics := []]> (<[underline := []]> ∅)))
    (lit "Le mot **Gras**") false
  ≠ [Span.mk BOLD (lit "Bold") (lit "Gras") 8 4].
Proof. vm_compute. discriminate. Qed.

(** ** The retrying client *)

(** Every round of the loop starts with a post. *)
Lemma retry_loop_posts net max_retries attempt attempts backoff :
  ∃ tr, (retry_loop net max_retries (attempt :: attempts) backoff).1
        = Post attempt :: tr.
Proof.
  simpl.
  destruct (retry_loop net max_retries attempts _) as [tr r].
  destruct (attempt_body _ _ _) as [[j|]|e]; simpl; eauto.
  destruct (max_retries <=? attempt); simpl; eauto.
Qed.

(** An error status met before the last attempt leads to a sleep and a
    further round, whether the status is in the retry list or not. *)
Lemma retry_loop_error_status net max_retries attempt attempts backoff
    status_code json :
  net attempt = Response status_code json →
  400 ≤ status_code < 600 → attempt < max_retries →
  retry_loop net max_retries (attempt :: attempts) backoff =
  (Post attempt :: Sleep backoff
     :: (retry_loop net max_retries attempts (Z.min (backoff * 2) 8)).1,
   (retry_loop net max_retries attempts (Z.min (backoff * 2) 8)).2).
Proof.
  intros Hnet Hst Hlt. simpl. rewrite Hnet. unfold attempt_body.
  destruct (retry_loop net max_retries attempts _) as [tr r]. simpl.
  cmp_true (attempt <? max_retries).
  cmp_false (max_retries <=? attempt).
  unfold raise_for_status.
  cmp_true (400 <=? status_code).
  cmp_true (status_code <? 600).
  by destruct (retry_status status_code).
Qed.

(** Only at the last attempt is an error status surfaced. *)
Lemma retry_loop_last_attempt net max_retries attempt attempts backoff
    status_code json :
  net attempt = Response status_code json →
  400 ≤ status_code < 600 → max_retries ≤ attempt →
  retry_loop net max_retries (attempt :: attempts) backoff
  = ([Post attempt], Raise HTTPError).
Proof.
  intros Hnet Hst Hlast. simpl. rewrite Hnet. unfold attempt_body.
  destruct (retry_loop net max_retries attempts _) as [tr r].
  cmp_false (attempt <? max_retries). cmp_true (max_retries <=? attempt).
  rewrite andb_false_r. unfold raise_for_status.
  cmp_true (400 <=? status_code). cmp_true (status_code <? 600). done.
Qed.

(** C2: what the client does on an error status.  Any 4xx or 5xx status met
    at the first attempt, in the retry list or not, is followed by a sleep
    and a second post whenever a retry is left; the status is not surfaced
    at once. *)
Theorem any_error_status_is_retried (net : Z -> outcome) (max_retries : Z)
    (status_code : Z) (json : result pyval) :
  net 0 = Response status_code json →
  400 ≤ status_code < 600 →
  0 < max_retries →
  ∃ tr, (_http_post_json_with_retries net max_retries).1
        = Post 0 :: Sleep 1 :: Post 1 :: tr.
Proof.
  intros Hnet Hst Hmax. unfold _http_post_json_with_retries.
  rewrite seqZ_cons by lia.
  rewrite (seqZ_cons (Z.succ 0)) by lia.
  rewrite (retry_loop_error_status _ _ _ _ _ _ _ Hnet Hst Hmax). simpl.
  destruct (retry_loop_posts net max_retries 1
              (seqZ (Z.succ 1) (Z.pred (Z.pred (max_retries + 1)))) 2)
    as [tr Htr].
  exists tr. f_equal. f_equal. exact Htr.
Qed.

(** A service that answers 404 to every post is posted to again. *)
Lemma any_error_status_is_retried_witness :
  answer_404 0 = Response 404 (Raise ValueError)
  ∧ 400 ≤ 404 < 600
  ∧ 0 < 4
  ∧ ∃ tr, (_http_post_json_with_retries answer_404 4).1
          = Post 0 :: Sleep 1 :: Post 1 :: tr.
Proof.
  split; [reflexivity|]. split; [lia|]. split; [lia|].
  apply (any_error_status_is_retried answer_404 4 404 (Raise ValueError));
    [reflexivity | lia | lia].
Defined.

(** The whole trace of that service: five posts, then the error. *)
Example not_found_trace :
  _http_post_json_with_retries answer_404 4 =
  ([Post 0; Sleep 1; Post 1; Sleep 2; Post 2; Sleep 4; Post 3; Sleep 8; Post 4],
   Raise HTTPError).
Proof. reflexivity. Qed.

(** Two refused connections, then an answer: two sleeps of 1 and 2
    seconds and three posts. *)
Example refused_twice_trace :
  _http_post_json_with_retries
    (fun attempt =>
       if attempt <? 2 then Refused ConnectionError
       else Response 200 (Ok (chat_response (PStr brace_content)))) 4
  = ([Post 0; Sleep 1; Post 1; Sleep 2; Post 2],
     Ok (chat_response (PStr brace_content))).
Proof. reflexivity. Qed.

(** ** Recovery *)

Section Recovery_facts.
Context `{Builtins}.

(** C5: what happens to a structured [content].  When the content of the
    response is an object and not a string, no branch binds [obj] and the
    call raises [UnboundLocalError]; the object is not returned. *)
Theorem structured_content_raises (api_url : str) (net : Z -> outcome)
    (bold_array italics_array underlined_array : list str) (max_retries : Z)
    (data : pyval) (d : list (str * pyval)) :
  api_url ≠ [] →
  (_http_post_json_with_retries net max_retries).2 = Ok data →
  response_content data = PDict d →
  call_alignment_api api_url net bold_array italics_array underlined_array
    max_retries = Raise UnboundLocalError.
Proof.
  intros Hurl Hdata Hcontent. unfold call_alignment_api.
  destruct api_url as [|c url]; [done|]. simpl.
  rewrite Hdata. simpl. by rewrite Hcontent.
Qed.

End Recovery_facts.

(** The content [{"bold": [], "italics": [], "underline": []}], given as an
    object, is not returned. *)
Lemma structured_content_raises_witness :
  lit "https://align" ≠ []
  ∧ (_http_post_json_with_retries (answering (chat_response empty_alignment)) 4).2
    = Ok (chat_response empty_alignment)
  ∧ response_content (chat_response empty_alignment) = empty_alignment
  ∧ call_alignment_api (lit "https://align")
      (answering (chat_response empty_alignment)) [lit "Bold"] [] [] 4
    = Raise UnboundLocalError.
Proof.
  split; [discriminate|]. split; [reflexivity|]. split; [reflexivity|].
  apply (structured_content_raises (lit "https://align")
           (answering (chat_response empty_alignment)) [lit "Bold"] [] [] 4
           (chat_response empty_alignment)
           [(bold, PList []); (italics, PList []); (underline, PList [])]);
    [discriminate | reflexivity | reflexivity].
Defined.

(** ** The shape of a recovered alignment *)

Lemma dict_get_set_eq {V} (k : str) (v : V) d :
  Dict.get k (Dict.set k v d) = Some v.
Proof.
  induction d as [|[k' v'] d IH]; simpl.
  - by rewrite bool_decide_eq_true_2.
  - destruct (bool_decide (k = k')) eqn:E; simpl.
    + by rewrite bool_decide_eq_true_2.
    + by rewrite E.
Qed.

Lemma dict_get_set_ne {V} (k k' : str) (v : V) d :
  k ≠ k' → Dict.get k' (Dict.set k v d) = Dict.get k' d.
Proof.
  intros Hne. induction d as [|[k0 v0] d IH]; simpl.
  - by rewrite bool_decide_eq_false_2.
  - destruct (bool_decide (k = k0)) eqn:E; simpl.
    + apply bool_decide_eq_true_1 in E as <-.
      by rewrite !bool_decide_eq_false_2.
    + by rewrite IH.
Qed.

Section Shape.
Context `{Builtins}.

Lemma stringified xs : string_array (PList ((fun x => PStr (str_of x)) <$> xs)).
Proof.
  eexists; split; [done|]. apply Forall_fmap, Forall_true. done.
Qed.

(** On an array of strings [str] changes nothing. *)
Lemma stringify_strings (l : list pyval) :
  Forall (fun x => is_str x = true) l →
  (fun x => PStr (str_of x)) <$> l = l.
Proof.
  induction 1 as [|x l Hx _ IH]; [done|]. rewrite fmap_cons, IH.
  destruct x; try done. by rewrite str_of_str.
Qed.

Lemma ensure_key_get obj k obj' :
  ensure_key obj k = Ok obj' →
  (∃ v, Dict.get k obj' = Some v ∧ string_array v)
  ∧ ∀ k', k ≠ k' → Dict.get k' obj' = Dict.get k' obj.
Proof.
  unfold ensure_key.
  set (obj1 := match Dict.get k obj with None => _ | Some _ => _ end).
  assert (Hother : ∀ k', k ≠ k' → Dict.get k' obj1 = Dict.get k' obj).
  { intros k' Hne. subst obj1. destruct (Dict.get k obj); [done|].
    by apply dict_get_set_ne. }
  destruct (py_iter _) as [xs|e]; simpl; [|done].
  intros [= <-]. split.
  - eexists. rewrite dict_get_set_eq. split; [done|]. apply stringified.
  - intros k' Hne. rewrite dict_get_set_ne by done. by apply Hother.
Qed.

Lemma _ensure_alignment_keys_shape obj obj' :
  _ensure_alignment_keys obj = Ok obj' →
  ∀ k, k ∈ alignment_keys → ∃ v, Dict.get k obj' = Some v ∧ string_array v.
Proof.
  unfold _ensure_alignment_keys.
  destruct (ensure_key obj bold) as [o1|] eqn:E1; simpl; [|done].
  destruct (ensure_key o1 italics) as [o2|] eqn:E2; simpl; [|done].
  intros E3 k Hk.
  apply ensure_key_get in E1 as [Hb _].
  apply ensure_key_get in E2 as [Hi Hi'].
  apply ensure_key_get in E3 as [Hu Hu'].
  unfold alignment_keys in Hk.
  apply elem_of_cons in Hk as [->|Hk].
  { rewrite Hu', Hi' by done. done. }
  apply elem_of_cons in Hk as [->|Hk].
  { rewrite Hu' by done. done. }
  apply list_elem_of_singleton in Hk as ->. done.
Qed.

(** Three arrays of strings under the three keys are left as they are. *)
Lemma _ensure_alignment_keys_strings (b i u : list pyval) :
  Forall (fun x => is_str x = true) b →
  Forall (fun x => is_str x = true) i →
  Forall (fun x => is_str x = true) u →
  _ensure_alignment_keys
    [(bold, PList b); (italics, PList i); (underline, PList u)]
  = Ok [(bold, PList b); (italics, PList i); (underline, PList u)].
Proof.
  intros Hb Hi Hu. unfold _ensure_alignment_keys, ensure_key.
  change (Dict.get bold [(bold, PList b); (italics, PList i); (underline, PList u)])
    with (Some (PList b)).
  simpl. rewrite (stringify_strings b Hb).
  change (Dict.set bold (PList b) _)
    with [(bold, PList b); (italics, PList i); (underline, PList u)].
  change (Dict.get italics [(bold, PList b); (italics, PList i); (underline, PList u)])
    with (Some (PList i)).
  simpl. rewrite (stringify_strings i Hi).
  change (Dict.set italics (PList i) _)
    with [(bold, PList b); (italics, PList i); (underline, PList u)].
  change (Dict.get underline [(bold, PList b); (italics, PList i); (underline, PList u)])
    with (Some (PList u)).
  simpl. rewrite (stringify_strings u Hu).
  done.
Qed.

(** Every value [recover_content] returns went through
    [_ensure_alignment_keys]. *)
Lemma recover_content_ensured content bN iN uN obj :
  recover_content content bN iN uN = Ok obj →
  ∃ d, _ensure_alignment_keys d = Ok obj.
Proof.
  unfold recover_content.
  destruct (decode_content _) as [v|].
  - destruct v; try done; eauto.
  - destruct (_coerce_brace_list_to_array _) as [l|]; [|done].
    destruct (_ =? _); [eauto|done].
Qed.

Lemma call_alignment_api_recovered api_url net b i u max_retries obj :
  call_alignment_api api_url net b i u max_retries = Ok obj →
  ∃ d, _ensure_alignment_keys d = Ok obj.
Proof.
  unfold call_alignment_api.
  destruct (negb _); [done|].
  destruct (_http_post_json_with_retries _ _).2 as [data|]; simpl; [|done].
  destruct (response_content data); try done.
  apply recover_content_ensured.
Qed.

(** [d[k] = v] keeps the keys of [d] in their order and puts a new key
    last. *)
Lemma dict_keys_set {V} (k : str) (v : V) d :
  Dict.keys (Dict.set k v d)
  = Dict.keys d ++ (if bool_decide (k ∈ Dict.keys d) then [] else [k]).
Proof.
  induction d as [|[k' v'] d IH]; [done|].
  cbn [Dict.set]. destruct (bool_decide (k = k')) eqn:E.
  - apply bool_decide_eq_true_1 in E as <-.
    change (Dict.keys ((k, v') :: d)) with (k :: Dict.keys d).
    change (Dict.keys ((k, v) :: d)) with (k :: Dict.keys d).
    rewrite bool_decide_eq_true_2 by left. by rewrite app_nil_r.
  - apply bool_decide_eq_false_1 in E.
    change (Dict.keys ((k', v') :: Dict.set k v d))
      with (k' :: Dict.keys (Dict.set k v d)).
    change (Dict.keys ((k', v') :: d)) with (k' :: Dict.keys d).
    rewrite IH. cbn [app]. f_equal. f_equal.
    rewrite (bool_decide_ext (k ∈ k' :: Dict.keys d) (k ∈ Dict.keys d));
      [done|].
    rewrite elem_of_cons. intuition congruence.
Qed.

Lemma dict_keys_get {V} (k : str) (d : list (str * V)) :
  k ∈ Dict.keys d ↔ is_Some (Dict.get k d).
Proof.
  unfold Dict.keys. induction d as [|[k' v'] d IH]; simpl.
  - split; [by intros ?%elem_of_nil|by intros [? ?]].
  - rewrite elem_of_cons, IH. destruct (bool_decide (k = k')) eqn:E.
    + apply bool_decide_eq_true_1 in E. split; [by eexists|by left].
    + apply bool_decide_eq_false_1 in E. intuition congruence.
Qed.

(** What [ensure_key] does to the keys: they stay in their order, and a
    missing [k] goes last. *)
Lemma ensure_key_keys obj k obj' :
  ensure_key obj k = Ok obj' →
  Dict.keys obj'
  = Dict.keys obj ++ (if bool_decide (k ∈ Dict.keys obj) then [] else [k]).
Proof.
  unfold ensure_key. destruct (Dict.get k obj) as [v|] eqn:Hget.
  - destruct (py_iter _) as [xs|e]; simpl; [|done]. intros [= <-].
    apply dict_keys_set.
  - destruct (py_iter _) as [xs|e]; simpl; [|done]. intros [= <-].
    rewrite !dict_keys_set.
    assert (Hk : k ∉ Dict.keys obj).
    { rewrite dict_keys_get, Hget. by intros [? ?]. }
    rewrite (bool_decide_eq_false_2 (k ∈ Dict.keys obj)) by done.
    rewrite bool_decide_eq_true_2, app_nil_r; [done|].
    apply elem_of_app. right. left.
Qed.

Lemma ensure_key_keys_elem obj k obj' :
  ensure_key obj k = Ok obj' →
  ∀ k', k' ∈ Dict.keys obj' ↔ k' ∈ Dict.keys obj ∨ k' = k.
Proof.
  intros Hk%ensure_key_keys k'. rewrite Hk, elem_of_app.
  case_bool_decide.
  - rewrite elem_of_nil. intuition congruence.
  - rewrite list_elem_of_singleton. tauto.
Qed.

(** [_ensure_alignment_keys] removes no key and touches no value under a
    key other than the three buckets. *)
Lemma _ensure_alignment_keys_keys obj obj' :
  _ensure_alignment_keys obj = Ok obj' →
  keys_kept (Some (PDict obj)) obj'.
Proof.
  unfold _ensure_alignment_keys.
  destruct (ensure_key obj bold) as [o1|] eqn:E1; simpl; [|done].
  destruct (ensure_key o1 italics) as [o2|] eqn:E2; simpl; [|done].
  intros E3. split; [|split].
  - intros k.
    rewrite (ensure_key_keys_elem _ _ _ E3), (ensure_key_keys_elem _ _ _ E2),
      (ensure_key_keys_elem _ _ _ E1).
    unfold alignment_keys. rewrite !elem_of_cons, elem_of_nil. tauto.
  - rewrite (ensure_key_keys _ _ _ E3), (ensure_key_keys _ _ _ E2),
      (ensure_key_keys _ _ _ E1), <- !app_assoc.
    by eexists.
  - intros k Hk. unfold alignment_keys in Hk.
    rewrite !not_elem_of_cons in Hk. destruct Hk as (? & ? & ? & _).
    apply ensure_key_get in E1 as [_ G1].
    apply ensure_key_get in E2 as [_ G2].
    apply ensure_key_get in E3 as [_ G3].
    rewrite G3, G2, G1; done.
Qed.

(** The three buckets cut from a list come back as three buckets. *)
Lemma _ensure_alignment_keys_split (b i u : list pyval) obj :
  _ensure_alignment_keys
    [(bold, PList b); (italics, PList i); (underline, PList u)] = Ok obj →
  Dict.keys obj = alignment_keys.
Proof. intros [= <-]. reflexivity. Qed.

Lemma recover_content_keys content bN iN uN obj :
  recover_content content bN iN uN = Ok obj →
  keys_kept (decode_content (_strip_code_fences content)) obj.
Proof.
  unfold recover_content.
  destruct (decode_content _) as [v|].
  - destruct v; try done.
    + apply _ensure_alignment_keys_split.
    + apply _ensure_alignment_keys_keys.
  - destruct (_coerce_brace_list_to_array _) as [l|]; [|done].
    destruct (_ =? _); [|done]. apply _ensure_alignment_keys_split.
Qed.

(** C4, as amended: a recovered alignment has the three keys bold, italics
    and underline, each with an array of strings; and no key is removed:
    when the content of the answer decoded to an object, the result has
    all the keys of that object, in their order and before any bucket it
    lacked, with the values under the keys other than the three buckets
    as they were decoded; in every other case the result has the three
    keys alone. *)
Theorem recovered_alignment_has_three_string_arrays (api_url : str)
    (net : Z -> outcome) (bold_array italics_array underlined_array : list str)
    (max_retries : Z) (obj : list (str * pyval)) :
  call_alignment_api api_url net bold_array italics_array underlined_array
    max_retries = Ok obj →
  (∀ k, k ∈ alignment_keys → ∃ v, Dict.get k obj = Some v ∧ string_array v)
  ∧ ∃ data content,
      (_http_post_json_with_retries net max_retries).2 = Ok data
      ∧ response_content data = PStr content
      ∧ keys_kept (decode_content (_strip_code_fences content)) obj.
Proof.
  intros Hcall. split.
  { apply call_alignment_api_recovered in Hcall as [d Hd].
    by eapply _ensure_alignment_keys_shape. }
  revert Hcall. unfold call_alignment_api.
  destruct (negb _); [done|].
  destruct (_http_post_json_with_retries _ _).2 as [data|]; simpl; [|done].
  destruct (response_content data) as [| | | |content| |] eqn:Hcontent;
    try done.
  intros Hrec. exists data, content. split; [done|]. split; [done|].
  by eapply recover_content_keys.
Qed.

End Shape.

(** An object with a fourth key, decoded from a string content. *)
Lemma recovered_alignment_has_three_string_arrays_witness :
  call_alignment_api (lit "https://align")
    (answering (chat_response (PStr noted_alignment))) [lit "Bold"] [] [] 4
  = Ok [(bold, PList [PStr (lit "Bold****Gras")]); (italics, PList []);
        (underline, PList []); (lit "note", PList [])]
  ∧ ∀ k, k ∈ alignment_keys →
      ∃ v, Dict.get k
             [(bold, PList [PStr (lit "Bold****Gras")]); (italics, PList []);
              (underline, PList []); (lit "note", PList [])] = Some v
           ∧ string_array v.
Proof.
  split; [reflexivity|].
  apply (recovered_alignment_has_three_string_arrays (lit "https://align")
           (answering (chat_response (PStr noted_alignment)))
           [lit "Bold"] [] [] 4).
  reflexivity.
Defined.

(** C4, the counterexample: a decoded object with a fourth key is returned
    with its fourth key. *)
Lemma recovered_alignment_keeps_other_keys :
  ∃ obj,
    call_alignment_api (lit "https://align")
      (answering (chat_response (PStr noted_alignment))) [lit "Bold"] [] [] 4
    = Ok obj
    ∧ ¬ (∀ k, k ∈ Dict.keys obj ↔ k ∈ alignment_keys).
Proof.
  eexists. split; [reflexivity|]. intros Hkeys.
  assert (Hin : lit "note" ∈ alignment_keys).
  { apply Hkeys. vm_compute. do 3 right. left. }
  vm_compute in Hin.
  repeat (apply elem_of_cons in Hin as [Hin|Hin]; [discriminate|]).
  by apply elem_of_nil in Hin.
Qed.

(** ** The brace-list fallback *)

Lemma forallb_Forall {A} (f : A → bool) (l : list A) :
  forallb f l = true → Forall (fun x => f x = true) l.
Proof.
  induction l as [|x l IH]; simpl; [constructor|].
  intros [Hx Hl]%andb_true_iff. constructor; auto.
Qed.

Lemma _coerce_brace_list_strings `{Builtins} text arr :
  _coerce_brace_list_to_array text = Some arr →
  Forall (fun x => is_str x = true) arr.
Proof.
  unfold _coerce_brace_list_to_array.
  destruct (_ && _); [|done].
  destruct (json_loads _) as [[]|]; try done.
  destruct (forallb is_str l) eqn:E; [|done].
  intros [= <-]. by apply forallb_Forall.
Qed.

(** A list cut at [a] and [a + b]. *)
Lemma slices_partition {A} (l : list A) (a b c : Z) :
  0 ≤ a → 0 ≤ b → 0 ≤ c → Py.len l = a + b + c →
  l = Py.slice l 0 a ++ Py.slice l a (a + b) ++ Py.slice l (a + b) (a + b + c)
  ∧ Py.len (Py.slice l 0 a) = a
  ∧ Py.len (Py.slice l a (a + b)) = b
  ∧ Py.len (Py.slice l (a + b) (a + b + c)) = c.
Proof.
  intros Ha Hb Hc Hl.
  rewrite !slice_length by lia.
  repeat split; try lia.
  rewrite !slice_in_range by lia. rewrite drop_0.
  replace (Z.to_nat (a - 0)) with (Z.to_nat a) by lia.
  replace (Z.to_nat (a + b - a)) with (Z.to_nat b) by lia.
  replace (Z.to_nat (a + b + c - (a + b))) with (Z.to_nat c) by lia.
  replace (Z.to_nat (a + b)) with (Z.to_nat a + Z.to_nat b)%nat by lia.
  rewrite <- drop_drop.
  rewrite (take_ge (drop (Z.to_nat b) _)).
  2:{ rewrite !length_drop. unfold Py.len in Hl. lia. }
  by rewrite !take_drop.
Qed.

Section Fallback.
Context `{Builtins}.

Lemma recover_content_brace_list content bN iN uN brace_list :
  decode_content (_strip_code_fences content) = None →
  _coerce_brace_list_to_array (_strip_code_fences content) = Some brace_list →
  recover_content content bN iN uN =
  if Py.len brace_list =? bN + iN + uN
  then Ok (split_by_counts brace_list bN iN uN)
  else Raise ValueError.
Proof.
  intros Hdec Hco. unfold recover_content. rewrite Hdec, Hco.
  destruct (_ =? _); [|done].
  apply _coerce_brace_list_strings in Hco.
  unfold split_by_counts.
  apply _ensure_alignment_keys_strings; by apply slice_Forall.
Qed.

End Fallback.



(** ** Positional pairing *)

Lemma omap_seq_S {B} (g : nat → option B) (a n : nat) :
  omap g (seq (S a) n) = omap (fun i => g (S i)) (seq a n).
Proof.
  revert a; induction n as [|n IH]; intros a; simpl; [done|].
  rewrite IH. done.
Qed.

Lemma pair_by_zip_cons (it s : list N) (items srcs : list (list N)) :
  pair_by_zip (it :: items) (s :: srcs) =
  match it with
  | [] => pair_by_zip items srcs
  | _ => (s ++ SEP ++ it) :: pair_by_zip items srcs
  end.
Proof.
  unfold pair_by_zip. cbn [zip_with filter list_filter].
  destruct it as [|c it]; destruct (decide _) as [Hd|Hd]; simpl in *;
    done || (exfalso; by apply Hd).
Qed.

(** The comprehension over [range(n)] is the zip of the two lists. *)
Lemma comprehension_zip (items srcs : list (list N)) :
  omap (fun i =>
          let item := items !!! i in
          match item with
          | [] => None
          | _ => Some (srcs !!! i ++ SEP ++ item)
          end) (seq 0 (Nat.min (length items) (length srcs)))
  = pair_by_zip items srcs.
Proof.
  revert srcs; induction items as [|it items IH]; intros [|s srcs]; try done.
  rewrite pair_by_zip_cons, <- IH.
  cbn [length Nat.min seq omap list_omap]. rewrite omap_seq_S.
  by destruct it.
Qed.

Lemma existsb_marker (items : list str) :
  existsb (fun x => Py.contains x SEP) items = true ↔ Exists has_marker items.
Proof.
  induction items as [|x items IH]; simpl.
  - split; [done|]. by intros ?%Exists_nil.
  - rewrite orb_true_iff, Exists_cons, IH. unfold has_marker at 1.
    by rewrite contains_spec.
Qed.

Lemma pair_bucket_spec (items srcs : list str) :
  (¬ Exists has_marker items → pair_bucket items srcs = pair_by_zip items srcs)
  ∧ (Exists has_marker items → pair_bucket items srcs = items).
Proof.
  unfold pair_bucket. split.
  - intros Hno. destruct items as [|x items].
    { unfold pair_by_zip. by destruct srcs. }
    rewrite <- existsb_marker in Hno.
    destruct (existsb _ _); [done|]. simpl negb. cbv iota.
    apply comprehension_zip.
  - intros Hex. destruct items as [|x items]; [done|].
    apply existsb_marker in Hex. by rewrite Hex.
Qed.

Lemma _pair_positionally_lookup alignment source_terms key :
  key ∈ alignment_keys →
  _pair_positionally_if_needed alignment source_terms !! key
  = Some (pair_bucket (default [] (alignment !! key))
            (default [] (source_terms !! key))).
Proof.
  intros Hk. unfold _pair_positionally_if_needed. simpl.
  unfold alignment_keys in Hk.
  apply elem_of_cons in Hk as [->|Hk].
  { rewrite !lookup_insert_ne by done. by rewrite lookup_insert_eq. }
  apply elem_of_cons in Hk as [->|Hk].
  { rewrite lookup_insert_ne by done. by rewrite lookup_insert_eq. }
  apply list_elem_of_singleton in Hk as ->. by rewrite lookup_insert_eq.
Qed.

(** C8: positional pairing.  For each of the three buckets: when no entry
    contains the marker, the bucket becomes the pairs obtained by zipping
    its entries index for index against the extracted terms of that style,
    up to the shorter length, without the pairs whose target is empty; when
    some entry contains the marker, the bucket is kept as it is. *)
Theorem positional_pairing (alignment source_terms : gmap str (list str))
    (key : str) :
  key ∈ alignment_keys →
  let items := default [] (alignment !! key) in
  let srcs := default [] (source_terms !! key) in
  let fixed := _pair_positionally_if_needed alignment source_terms in
  (¬ Exists has_marker items → fixed !! key = Some (pair_by_zip items srcs))
  ∧ (Exists has_marker items → fixed !! key = Some items).
Proof.
  intros Hk items srcs fixed. subst fixed.
  rewrite _pair_positionally_lookup by done. fold items srcs.
  destruct (pair_bucket_spec items srcs) as [Hzip Hkeep].
  split; intros Hm; f_equal; auto.
Qed.

(** Bare bold targets are paired with the extracted terms, the empty one
    dropped and the fourth left out; the italics bucket, which has a marked
    entry, is kept. *)
Lemma positional_pairing_witness :
  bold ∈ alignment_keys
  ∧ ¬ Exists has_marker (default [] (bare_alignment !! bold))
  ∧ _pair_positionally_if_needed bare_alignment extracted_terms !! bold
    = Some [lit "Sugar****Sucre"; lit "Salt****Sel"]
  ∧ Exists has_marker (default [] (bare_alignment !! italics))
  ∧ _pair_positionally_if_needed bare_alignment extracted_terms !! italics
    = Some [lit "Water****Eau"; lit "Lait"].
Proof.
  assert (Hbare : ¬ Exists has_marker (default [] (bare_alignment !! bold))).
  { intros Hex. apply existsb_marker in Hex. vm_compute in Hex. discriminate. }
  assert (Hmarked : Exists has_marker (default [] (bare_alignment !! italics))).
  { apply existsb_marker. reflexivity. }
  split; [left|]. split; [exact Hbare|]. split; [|split; [exact Hmarked|]].
  - rewrite (proj1 (positional_pairing bare_alignment extracted_terms bold
                      ltac:(left)) Hbare).
    reflexivity.
  - rewrite (proj2 (positional_pairing bare_alignment extracted_terms italics
                      ltac:(right; left)) Hmarked).
    reflexivity.
Defined.

(** ** Extraction *)

Section Style_span_facts.
Context `{Builtins}.

(** What one span contributes to [items]. *)
Lemma extract_step_Some src s style o chunk :
  extract_step src s = Some (style, o, chunk) ↔
  ∃ l, span_reads s o l style ∧ 0 < l ∧ is_style style = true
       ∧ chunk = Py.slice src o (o + l) ∧ chunk ≠ [].
Proof.
  unfold extract_step, extract_item, span_reads. split.
  - destruct (py_get s (lit "offset") PNone) as [vo|]; simpl; [|done].
    destruct (py_int vo) as [start|]; simpl; [|done].
    destruct (py_get s (lit "length") PNone) as [vl|]; simpl; [|done].
    destruct (py_int vl) as [len|]; simpl; [|done].
    destruct (len <=? 0) eqn:Hlen; [done|]. apply Z.leb_gt in Hlen.
    destruct (py_get s (lit "style") (PStr [])) as [vs|]; simpl; [|done].
    destruct (_normalize_style_name vs) as [st|]; simpl; [|done].
    destruct (is_style st) eqn:Hst; simpl; [|done].
    destruct (Py.slice src start (start + len)) as [|c chunk'] eqn:Hchunk;
      [done|].
    intros [= <- <- <-]. exists len. by rewrite Hchunk.
  - intros (l & (Ho & Hl & Hs) & Hpos & Hst & -> & Hne).
    destruct (py_get s (lit "offset") PNone) as [vo|]; simpl in *; [|done].
    rewrite Ho. simpl.
    destruct (py_get s (lit "length") PNone) as [vl|]; simpl in *; [|done].
    rewrite Hl. simpl.
    cmp_false (l <=? 0).
    destruct (py_get s (lit "style") (PStr [])) as [vs|]; simpl in *; [|done].
    rewrite Hs. simpl. rewrite Hst. simpl.
    by destruct (Py.slice src o (o + l)).
Qed.

(** Sorting keeps the items. *)
Lemma elem_of_insert_item x y l : x ∈ insert_item y l ↔ x = y ∨ x ∈ l.
Proof.
  induction l as [|z l IH]; simpl.
  - rewrite list_elem_of_singleton, elem_of_nil. tauto.
  - destruct (_ <? _).
    + by rewrite elem_of_cons.
    + rewrite !elem_of_cons, IH. tauto.
Qed.

Lemma elem_of_sort_items x l : x ∈ sort_items l ↔ x ∈ l.
Proof.
  unfold sort_items.
  assert (Hgen : ∀ acc, x ∈ foldl (fun acc x => insert_item x acc) acc l
                        ↔ x ∈ acc ∨ x ∈ l).
  { induction l as [|y l IH]; intros acc; simpl.
    - rewrite elem_of_nil. tauto.
    - rewrite IH, elem_of_insert_item, elem_of_cons. tauto. }
  rewrite Hgen, elem_of_nil. tauto.
Qed.

(** The key of the bucket of a style. *)
Lemma bucket_key_Ok style key :
  bucket_key style = Ok key →
  is_style style = true ∧ key ∈ alignment_keys.
Proof.
  unfold bucket_key, is_style, alignment_keys. simpl.
  destruct (bool_decide (style = BOLD)) eqn:E1.
  { apply bool_decide_eq_true_1 in E1 as ->. intros [= <-].
    split; [done|]. left. }
  destruct (bool_decide (style = ITALIC)) eqn:E2.
  { apply bool_decide_eq_true_1 in E2 as ->. intros [= <-].
    split; [done|]. right; left. }
  destruct (bool_decide (style = UNDERLINE)) eqn:E3; [|done].
  apply bool_decide_eq_true_1 in E3 as ->. intros [= <-].
  split; [done|]. right; right; left.
Qed.

Lemma is_style_bucket_key style :
  is_style style = true → ∃ key, bucket_key style = Ok key.
Proof.
  unfold is_style. intros Hst%bool_decide_eq_true_1.
  apply elem_of_cons in Hst as [->|Hst]; [by eexists|].
  apply elem_of_cons in Hst as [->|Hst]; [by eexists|].
  apply list_elem_of_singleton in Hst as ->. by eexists.
Qed.

(** Appending to one bucket. *)
Lemma terms_of_append_elem (out : gmap (list N) (list (list N))) k chunk k' t :
  t ∈ terms_of (alter (fun l => l ++ [chunk]) k out) k' ↔
  t ∈ terms_of out k' ∨ (k = k' ∧ is_Some (out !! k) ∧ t = chunk).
Proof.
  unfold terms_of. rewrite lookup_alter.
  destruct (decide (k = k')) as [<-|Hne].
  - destruct (out !! k) as [l|]; simpl.
    + rewrite elem_of_app, list_elem_of_singleton.
      split; [intros [?|?]; eauto|intros [?|(_ & _ & ?)]; eauto].
    + rewrite elem_of_nil. split; [done|].
      intros [[]|(_ & [? [=]] & _)].
  - split; [by left|]. by intros [?|[? _]].
Qed.

Lemma terms_of_append_elem_ex (out : gmap (list N) (list (list N))) k chunk k'
    (P : list N → Prop) :
  (∃ t, t ∈ terms_of (alter (fun l => l ++ [chunk]) k out) k' ∧ P t) ↔
  (∃ t, (t ∈ terms_of out k' ∨ (k = k' ∧ is_Some (out !! k) ∧ t = chunk)) ∧ P t).
Proof. by setoid_rewrite terms_of_append_elem. Qed.

(** One round of the second loop. *)
Lemma place_cases dedupe out seen style pos chunk st' :
  place dedupe (out, seen) (style, pos, chunk) = Ok st' →
  ∃ k, bucket_key style = Ok k
    ∧ ((dedupe = true ∧ str_casefold chunk ∈ default ∅ (seen !! k)
        ∧ st' = (out, seen))
       ∨ st' = (alter (fun l => l ++ [chunk]) k out,
                if dedupe
                then alter (fun s => s ∪ {[str_casefold chunk]}) k seen
                else seen)).
Proof.
  unfold place. destruct (bucket_key style) as [k|] eqn:Hk; simpl; [|done].
  intros Hst. exists k. split; [done|].
  destruct dedupe.
  - destruct (bool_decide _) eqn:E.
    + apply bool_decide_eq_true_1 in E. left. by injection Hst as <-.
    + right. by injection Hst as <-.
  - right. by injection Hst as <-.
Qed.

Lemma place_has_keys dedupe st it st' :
  place dedupe st it = Ok st' → has_keys st → has_keys st'.
Proof.
  destruct st as [out seen], it as [[style pos] chunk].
  intros (k & _ & [(_ & _ & ->) | ->])%place_cases Hkeys; [done|].
  intros k' Hk'. destruct (Hkeys k' Hk') as [Ho Hs]. simpl in *. split.
  - rewrite lookup_alter. destruct (decide _) as [->|]; [|done].
    by apply fmap_is_Some.
  - destruct dedupe; [|done]. rewrite lookup_alter.
    destruct (decide _) as [->|]; [|done]. by apply fmap_is_Some.
Qed.

Lemma place_seen_in_out dedupe st it st' :
  place dedupe st it = Ok st' → has_keys st →
  seen_in_out st → seen_in_out st'.
Proof.
  destruct st as [out seen], it as [[style pos] chunk].
  intros (k & Hk & [(_ & _ & ->) | ->])%place_cases Hkeys Hinv; [done|].
  apply bucket_key_Ok in Hk as [_ Hk]. destruct (Hkeys k Hk) as [Ho Hs].
  intros k' norm. simpl. rewrite terms_of_append_elem_ex.
  destruct dedupe.
  - rewrite lookup_alter. destruct (decide (k = k')) as [<-|Hne].
    + destruct Hs as [s Hs]. simpl in Hs. rewrite Hs. simpl.
      rewrite elem_of_union, elem_of_singleton.
      intros [Hin| ->].
      * destruct (Hinv k norm) as (t & Ht & Hc); [simpl; by rewrite Hs|].
        exists t. split; [by left|done].
      * exists chunk. split; [|done]. right. done.
    + intros Hin. destruct (Hinv k' norm Hin) as (t & Ht & Hc).
      exists t. split; [by left|done].
  - intros Hin. destruct (Hinv k' norm Hin) as (t & Ht & Hc).
    exists t. split; [by left|done].
Qed.


(** What one round does to the buckets. *)
Lemma place_step dedupe st style pos chunk st' :
  place dedupe st (style, pos, chunk) = Ok st' →
  has_keys st → seen_in_out st →
  (∀ k t, t ∈ terms_of st.1 k → t ∈ terms_of st'.1 k)
  ∧ (∀ k t, t ∈ terms_of st'.1 k →
       t ∈ terms_of st.1 k ∨ (t = chunk ∧ bucket_key style = Ok k))
  ∧ (∀ k, bucket_key style = Ok k →
       ∃ t, t ∈ terms_of st'.1 k
            ∧ if dedupe then str_casefold t = str_casefold chunk
              else t = chunk).
Proof.
  destruct st as [out seen].
  intros (k & Hk & [(-> & Hseen & ->) | ->])%place_cases Hkeys Hinv; simpl.
  - split; [done|]. split; [by left|].
    intros k' Hk'. rewrite Hk in Hk'. injection Hk' as <-.
    by apply Hinv.
  - destruct (bucket_key_Ok _ _ Hk) as [_ Hin].
    destruct (Hkeys k Hin) as [Ho _]. simpl in Ho.
    split; [|split].
    + intros k' t Ht. apply terms_of_append_elem. by left.
    + intros k' t [Ht|(<- & _ & ->)]%terms_of_append_elem; [by left|by right].
    + intros k' Hk'. rewrite Hk in Hk'. injection Hk' as <-.
      exists chunk. split; [|by destruct dedupe].
      apply terms_of_append_elem. by right.
Qed.

Lemma place_all_total dedupe items st :
  Forall (fun it : list N * Z * list N => is_style it.1.1 = true) items →
  ∃ st', place_all dedupe st items = Ok st'.
Proof.
  intros Hitems. revert st.
  induction Hitems as [|[[style pos] chunk] items Hst _ IH]; intros st; simpl.
  { by eexists. }
  destruct (is_style_bucket_key style Hst) as [k Hk].
  assert (∃ st1, place dedupe st (style, pos, chunk) = Ok st1) as [st1 ->].
  { unfold place. destruct st as [out seen]. rewrite Hk. simpl.
    destruct dedupe; [destruct (bool_decide _)|]; by eexists. }
  simpl. apply IH.
Qed.

Lemma place_all_facts dedupe items st st' :
  place_all dedupe st items = Ok st' →
  has_keys st → seen_in_out st →
  (∀ k t, t ∈ terms_of st.1 k → t ∈ terms_of st'.1 k)
  ∧ (∀ k t, t ∈ terms_of st'.1 k →
       t ∈ terms_of st.1 k
       ∨ ∃ style pos, (style, pos, t) ∈ items ∧ bucket_key style = Ok k)
  ∧ (∀ style pos chunk k, (style, pos, chunk) ∈ items →
       bucket_key style = Ok k →
       ∃ t, t ∈ terms_of st'.1 k
            ∧ if dedupe then str_casefold t = str_casefold chunk
              else t = chunk).
Proof.
  revert st; induction items as [|[[style pos] chunk] items IH]; intros st;
    simpl.
  { intros [= <-] _ _. split; [done|]. split; [by left|].
    by intros ???? ?%elem_of_nil. }
  destruct (place dedupe st (style, pos, chunk)) as [st1|] eqn:Hplace;
    simpl; [|done].
  intros Hall Hkeys Hinv.
  pose proof (place_has_keys _ _ _ _ Hplace Hkeys) as Hkeys1.
  pose proof (place_seen_in_out _ _ _ _ Hplace Hkeys Hinv) as Hinv1.
  destruct (place_step _ _ _ _ _ _ Hplace Hkeys Hinv) as (Hm1 & Hs1 & Hf1).
  destruct (IH _ Hall Hkeys1 Hinv1) as (Hm & Hs & Hf).
  split; [|split].
  - intros k t Ht. by apply Hm, Hm1.
  - intros k t [Ht|(style' & pos' & Hin & Hk)]%Hs.
    + apply Hs1 in Ht as [Ht|[-> Hk]]; [by left|right].
      exists style, pos. split; [left|done].
    + right. exists style', pos'. split; [by right|done].
  - intros style' pos' chunk' k [[= -> -> ->]|Hin]%elem_of_cons Hk.
    + destruct (Hf1 k Hk) as (t & Ht & Hc). exists t. split; [by apply Hm|done].
    + by eapply Hf.
Qed.

Lemma has_keys_init : has_keys (empty_buckets, empty_seen).
Proof.
  intros k Hk. unfold alignment_keys in Hk.
  repeat (apply elem_of_cons in Hk as [->|Hk]; [by split; eexists|]).
  by apply elem_of_nil in Hk.
Qed.

Lemma terms_of_init k : terms_of empty_buckets k = [].
Proof.
  unfold terms_of, empty_buckets.
  rewrite !lookup_insert. repeat (destruct (decide _); [done|]).
  by rewrite lookup_empty.
Qed.

Lemma seen_in_out_init : seen_in_out (empty_buckets, empty_seen).
Proof.
  intros k norm. simpl. unfold empty_seen.
  rewrite !lookup_insert.
  repeat (destruct (decide _); [by intros ?%elem_of_empty|]).
  rewrite lookup_empty. by intros ?%elem_of_empty.
Qed.

(** What [extract_words_by_style] returns: it never raises; every term of a
    bucket is the slice of a span of that style with a positive length; and
    every such span with a non-empty slice is present in its bucket, by
    its slice or, under [dedupe], by a term with the same folded form. *)
Lemma extract_words_by_style_facts (p : payload) (snap_to_word dedupe : bool) :
  ∃ out,
    extract_words_by_style p snap_to_word dedupe = Ok out
    ∧ (∀ key term, term ∈ terms_of out key →
         ∃ s o l style,
           s ∈ styles p ∧ span_reads s o l style ∧ 0 < l
           ∧ bucket_key style = Ok key
           ∧ term = Py.slice (value p) o (o + l) ∧ term ≠ [])
    ∧ (∀ s o l style,
         s ∈ styles p → span_reads s o l style → is_style style = true →
         0 < l → Py.slice (value p) o (o + l) ≠ [] →
         ∃ key t,
           bucket_key style = Ok key ∧ t ∈ terms_of out key
           ∧ if dedupe
             then str_casefold t = str_casefold (Py.slice (value p) o (o + l))
             else t = Py.slice (value p) o (o + l)).
Proof.
  unfold extract_words_by_style.
  set (items := sort_items (omap (extract_step (value p)) (styles p))).
  assert (Hitems : ∀ style o chunk, (style, o, chunk) ∈ items ↔
    ∃ s, s ∈ styles p ∧ extract_step (value p) s = Some (style, o, chunk)).
  { intros. subst items. by rewrite elem_of_sort_items, list_elem_of_omap. }
  destruct (place_all_total dedupe items (empty_buckets, empty_seen))
    as [st' Hst'].
  { apply Forall_forall. intros [[style o] chunk] (s & _ & Hs)%Hitems.
    apply extract_step_Some in Hs as (l & _ & _ & Hst & _). done. }
  rewrite Hst'. simpl. exists st'.1. split; [done|].
  destruct (place_all_facts _ _ _ _ Hst' has_keys_init seen_in_out_init)
    as (_ & Hsound & Hforward).
  split.
  - intros key term [Hin|(style & o & Hin & Hk)]%Hsound.
    { simpl in Hin. rewrite terms_of_init in Hin. by apply elem_of_nil in Hin. }
    apply Hitems in Hin as (s & Hs & Hstep).
    apply extract_step_Some in Hstep as (l & Hreads & Hl & _ & -> & Hne).
    by exists s, o, l, style.
  - intros s o l style Hs Hreads Hst Hl Hne.
    destruct (is_style_bucket_key style Hst) as [key Hk].
    destruct (Hforward style o (Py.slice (value p) o (o + l)) key)
      as (t & Ht & Hc); [|done|by exists key, t].
    apply Hitems. exists s. split; [done|].
    apply extract_step_Some. by exists l.
Qed.

End Style_span_facts.

(** C7: extracted terms are verbatim.  Every term of a bucket is the slice
    of a span of that style, and for a span inside the text, with
    [0 <= offset] and [offset + length <= len(text)], that slice is the
    [length] characters of the text from [offset], unchanged; such a span is
    present in its bucket by this substring, or under [dedupe] by the term
    with the same folded form that was kept. *)
Theorem kept_terms_are_verbatim `{Builtins} (p : payload)
    (snap_to_word dedupe : bool) (out : gmap str (list str)) :
  extract_words_by_style p snap_to_word dedupe = Ok out →
  (∀ key term, term ∈ terms_of out key →
     ∃ s o l style,
       s ∈ styles p ∧ span_reads s o l style ∧ bucket_key style = Ok key
       ∧ term = Py.slice (value p) o (o + l)
       ∧ (0 ≤ o → o + l ≤ Py.len (value p) →
          term = substring (value p) o l ∧ Py.len term = l))
  ∧ (∀ s o l style,
       s ∈ styles p → span_reads s o l style → is_style style = true →
       0 < l → 0 ≤ o → o + l ≤ Py.len (value p) →
       ∃ key t,
         bucket_key style = Ok key ∧ t ∈ terms_of out key
         ∧ if dedupe
           then str_casefold t = str_casefold (substring (value p) o l)
           else t = substring (value p) o l).
Proof.
  intros Hout.
  destruct (extract_words_by_style_facts p snap_to_word dedupe)
    as (out' & Hout' & Hsound & Hforward).
  rewrite Hout in Hout'. injection Hout' as <-.
  assert (Hsub : ∀ o l, 0 < l → 0 ≤ o → o + l ≤ Py.len (value p) →
    Py.slice (value p) o (o + l) = substring (value p) o l).
  { intros o l Hl Ho Hfit. rewrite slice_in_range by lia.
    unfold substring. by replace (o + l - o) with l by lia. }
  split.
  - intros key term (s & o & l & style & Hs & Hreads & Hl & Hk & -> & _)%Hsound.
    exists s, o, l, style. do 4 (split; [done|]).
    intros Ho Hfit. split; [by apply Hsub|].
    rewrite slice_length by lia. lia.
  - intros s o l style Hs Hreads Hst Hl Ho Hfit.
    rewrite <- Hsub by done. apply (Hforward s o l style); try done.
    intros Hnil. apply (f_equal Py.len) in Hnil.
    rewrite slice_length in Hnil by lia. unfold Py.len in Hnil. simpl in Hnil.
    lia.
Qed.

(** Two spans inside the text [Sugar, salt and water]. *)
Lemma kept_terms_are_verbatim_witness :
  extract_words_by_style payload_in_range true true
  = Ok (buckets [lit "Sugar"] [lit "salt"] [])
  ∧ (∀ key term,
       term ∈ terms_of (buckets [lit "Sugar"] [lit "salt"] []) key →
       ∃ s o l style,
         s ∈ styles payload_in_range ∧ span_reads s o l style
         ∧ bucket_key style = Ok key
         ∧ term = Py.slice (value payload_in_range) o (o + l)
         ∧ (0 ≤ o → o + l ≤ Py.len (value payload_in_range) →
            term = substring (value payload_in_range) o l ∧ Py.len term = l)).
Proof.
  split; [reflexivity|].
  apply (kept_terms_are_verbatim payload_in_range true true
           (buckets [lit "Sugar"] [lit "salt"] [])).
  reflexivity.
Defined.

(** C3, the counterexample: an annotation with offset -3 is kept by
    [_parse_styles] and puts a term into the bold bucket. *)
Lemma negative_offset_is_not_skipped :
  _parse_styles (PStr (jlit "[{'offset': -3, 'length': 2, 'style': 'bold'}]"))
  = Ok (styles payload_negative)
  ∧ extract_words_by_style payload_negative true true
    = Ok (buckets [lit "de"] [] []).
Proof. split; reflexivity. Qed.

(** C10, the counterexample: the span at offset 4 runs past the end of the
    text; its suffix is dropped by [dedupe] and is not in the bucket. *)
Lemma overlong_suffix_not_included :
  0 ≤ 4 < Py.len (value payload_overlong_repeat)
  ∧ Py.len (value payload_overlong_repeat) < 4 + 10
  ∧ Py.slice_from (value payload_overlong_repeat) 4 = lit "abc"
  ∧ extract_words_by_style payload_overlong_repeat true true
    = Ok (buckets [lit "ABC"] [] [])
  ∧ lit "abc" ∉ terms_of (buckets [lit "ABC"] [] []) bold.
Proof.
  split; [vm_compute; split; congruence|].
  split; [reflexivity|]. split; [reflexivity|]. split; [reflexivity|].
  vm_compute. intros Hin.
  apply elem_of_cons in Hin as [Hin|Hin]; [discriminate|].
  by apply elem_of_nil in Hin.
Qed.

(** ** The retrying client: attempts, delays, outcomes *)

(** Every status of the retry list is an error status. *)
Lemma retry_status_is_error status_code :
  retry_status status_code = true → 400 ≤ status_code < 600.
Proof.
  unfold retry_status. intros Hin%bool_decide_eq_true_1.
  repeat (apply elem_of_cons in Hin as [->|Hin]; [lia|]).
  by apply elem_of_nil in Hin.
Qed.

(** An attempt that fails before the last one: sleep and go on. *)
Lemma retry_loop_failure net max_retries attempt attempts backoff e :
  failure_of (net attempt) = Some e → attempt < max_retries →
  retry_loop net max_retries (attempt :: attempts) backoff =
  (Post attempt :: Sleep backoff
     :: (retry_loop net max_retries attempts (Z.min (backoff * 2) 8)).1,
   (retry_loop net max_retries attempts (Z.min (backoff * 2) 8)).2).
Proof.
  intros Hfail Hlt. simpl.
  destruct (retry_loop net max_retries attempts _) as [tr r]. simpl.
  cmp_false (max_retries <=? attempt).
  destruct (net attempt) as [e'|status_code json]; simpl in *; [done|].
  cmp_true (attempt <? max_retries). rewrite andb_true_r.
  destruct (retry_status status_code); [done|].
  unfold raise_for_status.
  destruct ((400 <=? status_code) && (status_code <? 600)); [done|].
  simpl. by destruct json.
Qed.

(** An attempt that fails and is the last one: its exception is raised. *)
Lemma retry_loop_failure_last net max_retries attempt attempts backoff e :
  failure_of (net attempt) = Some e → max_retries ≤ attempt →
  retry_loop net max_retries (attempt :: attempts) backoff
  = ([Post attempt], Raise e).
Proof.
  intros Hfail Hlast. simpl.
  destruct (retry_loop net max_retries attempts _) as [tr r].
  cmp_true (max_retries <=? attempt).
  destruct (net attempt) as [e'|status_code json]; simpl in *.
  { by injection Hfail as ->. }
  cmp_false (attempt <? max_retries). rewrite andb_false_r.
  unfold raise_for_status.
  destruct ((400 <=? status_code) && (status_code <? 600)).
  { by injection Hfail as <-. }
  simpl. destruct json; [done|]. by injection Hfail as ->.
Qed.

(** An attempt that does not fail returns the body. *)
Lemma retry_loop_success net max_retries attempt attempts backoff :
  failure_of (net attempt) = None →
  ∃ j, body_of (net attempt) = Some j
       ∧ retry_loop net max_retries (attempt :: attempts) backoff
         = ([Post attempt], Ok j).
Proof.
  intros Hok. simpl.
  destruct (retry_loop net max_retries attempts _) as [tr r].
  destruct (net attempt) as [e'|status_code json]; simpl in *; [done|].
  destruct ((400 <=? status_code) && (status_code <? 600)) eqn:Herr; [done|].
  destruct json as [j|]; [|done]. exists j. split; [done|].
  destruct (retry_status status_code) eqn:Hretry.
  { apply retry_status_is_error in Hretry.
    apply andb_false_iff in Herr as [?%Z.leb_gt|?%Z.ltb_ge]; lia. }
  simpl. unfold raise_for_status. by rewrite Herr.
Qed.

Lemma backoffs_lookup (j i n : nat) b :
  backoffs (Z.min (2 ^ Z.of_nat j) 8) n !! i = Some b →
  b = Z.min (2 ^ Z.of_nat (j + i)) 8.
Proof.
  revert j i; induction n as [|n IH]; intros j [|i]; simpl; try done.
  - intros [= <-]. by rewrite Nat.add_0_r.
  - intros Hb.
    replace (Z.min (Z.min (2 ^ Z.of_nat j) 8 * 2) 8)
      with (Z.min (2 ^ Z.of_nat (S j)) 8) in Hb.
    { apply IH in Hb. by replace (j + S i)%nat with (S j + i)%nat by lia. }
    rewrite Nat2Z.inj_succ, Z.pow_succ_r by lia.
    pose proof (Z.pow_pos_nonneg 2 (Z.of_nat j)). lia.
Qed.

(** The loop over [range(a, max_retries + 1)]: the first [k] attempts are
    posted, with a sleep between two posts. *)
Lemma retry_loop_trace net max_retries (n : nat) a backoff :
  a + Z.of_nat n = max_retries + 1 →
  ∃ k : nat,
    (k ≤ n)%nat ∧ (n ≠ 0%nat → k ≠ 0%nat)
    ∧ (retry_loop net max_retries (seqZ a (Z.of_nat n)) backoff).1
      = retries a backoff k.
Proof.
  revert a backoff; induction n as [|n IH]; intros a backoff Han.
  { exists 0%nat. by repeat split. }
  rewrite seqZ_cons by lia.
  replace (Z.pred (Z.of_nat (S n))) with (Z.of_nat n) by lia.
  destruct (failure_of (net a)) as [e|] eqn:Hfail.
  - destruct (decide (a < max_retries)) as [Hlt|Hge].
    + rewrite (retry_loop_failure _ _ _ _ _ _ Hfail Hlt).
      destruct (IH (Z.succ a) (Z.min (backoff * 2) 8)) as (k & Hk & Hk0 & Htr);
        [lia|].
      exists (S k). split; [lia|]. split; [done|]. cbn [fst].
      rewrite Htr. assert (k ≠ 0)%nat by (apply Hk0; lia).
      by destruct k.
    + rewrite (retry_loop_failure_last _ _ _ _ _ _ Hfail) by lia.
      exists 1%nat. split; [lia|]. by repeat split.
  - destruct (retry_loop_success net max_retries a (seqZ (Z.succ a) (Z.of_nat n))
                backoff Hfail) as (j & _ & ->).
    exists 1%nat. split; [lia|]. by repeat split.
Qed.

(** The posts and the sleeps of such a trace. *)
Lemma retries_posts a b k : posts (retries a b k) = seqZ a (Z.of_nat k).
Proof.
  revert a b; induction k as [|k IH]; intros a b; [done|].
  rewrite seqZ_cons by lia.
  replace (Z.pred (Z.of_nat (S k))) with (Z.of_nat k) by lia.
  cbn [retries]. destruct k as [|k]; [done|].
  change (posts (Post a :: Sleep b :: ?l)) with (a :: posts l).
  by rewrite IH.
Qed.

Lemma retries_sleeps a b k : sleeps (retries a b k) = backoffs b (k - 1).
Proof.
  revert a b; induction k as [|k IH]; intros a b; [done|].
  cbn [retries]. destruct k as [|k]; [done|].
  change (sleeps (Post a :: Sleep b :: ?l)) with (b :: sleeps l).
  rewrite IH. simpl. by rewrite Nat.sub_0_r.
Qed.





Lemma retry_loop_recovers net max_retries (k : nat) a backoff rest j :
  a + Z.of_nat k ≤ max_retries →
  (∀ i, a ≤ i < a + Z.of_nat k → is_Some (failure_of (net i))) →
  failure_of (net (a + Z.of_nat k)) = None →
  body_of (net (a + Z.of_nat k)) = Some j →
  let r := retry_loop net max_retries
             (seqZ a (Z.of_nat k) ++ (a + Z.of_nat k) :: rest) backoff in
  r.2 = Ok j
  ∧ posts r.1 = seqZ a (Z.of_nat (S k))
  ∧ sleeps r.1 = backoffs backoff k.
Proof.
  revert a backoff; induction k as [|k IH]; intros a backoff Hle Hfail Hok Hj;
    cbv zeta.
  - replace (a + Z.of_nat 0) with a in * by lia.
    rewrite seqZ_nil by done. rewrite app_nil_l.
    destruct (retry_loop_success net max_retries a rest backoff Hok)
      as (j' & Hj' & ->).
    rewrite Hj in Hj'. injection Hj' as <-. by repeat split.
  - rewrite seqZ_cons by lia.
    replace (Z.pred (Z.of_nat (S k))) with (Z.of_nat k) by lia.
    rewrite <- app_comm_cons.
    destruct (Hfail a) as [e He]; [lia|].
    rewrite (retry_loop_failure _ _ _ _ _ _ He) by lia.
    replace (a + Z.of_nat (S k)) with (Z.succ a + Z.of_nat k) in * by lia.
    destruct (IH (Z.succ a) (Z.min (backoff * 2) 8)) as (Hr & Hp & Hs);
      [lia|intros i Hi; apply Hfail; lia|done|done|].
    simpl. rewrite Hr, Hp, Hs. split; [done|]. split; [|done].
    rewrite (seqZ_cons a) by lia.
    by replace (Z.pred (Z.of_nat (S (S k)))) with (Z.of_nat (S k)) by lia.
Qed.



Lemma retry_loop_exhausted net max_retries (n : nat) a backoff e :
  a + Z.of_nat n = max_retries →
  (∀ i, a ≤ i < max_retries → is_Some (failure_of (net i))) →
  failure_of (net max_retries) = Some e →
  let r := retry_loop net max_retries (seqZ a (Z.of_nat (S n))) backoff in
  r.2 = Raise e ∧ posts r.1 = seqZ a (Z.of_nat (S n)).
Proof.
  revert a backoff; induction n as [|n IH]; intros a backoff Han Hfail Hlast;
    cbv zeta.
  - replace a with max_retries in * by lia.
    change (seqZ max_retries (Z.of_nat 1)) with [max_retries].
    rewrite (retry_loop_failure_last _ _ _ _ _ _ Hlast) by lia. done.
  - rewrite seqZ_cons by lia.
    replace (Z.pred (Z.of_nat (S (S n)))) with (Z.of_nat (S n)) by lia.
    destruct (Hfail a) as [e' He']; [lia|].
    rewrite (retry_loop_failure _ _ _ _ _ _ He') by lia.
    destruct (IH (Z.succ a) (Z.min (backoff * 2) 8)) as [Hr Hp];
      [lia|intros i Hi; apply Hfail; lia|done|].
    simpl. by rewrite Hr, Hp.
Qed.



(** ** Extraction: order, duplicates, buckets *)

Lemma insert_item_sorted x l :
  StronglySorted by_offset l → StronglySorted by_offset (insert_item x l).
Proof.
  induction 1 as [|y l Hl IH Hy]; simpl; [by repeat constructor|].
  destruct (x.1.2 <? y.1.2) eqn:E.
  - apply Z.ltb_lt in E. constructor; [by constructor|].
    constructor; [unfold by_offset; lia|].
    eapply Forall_impl; [done|]. unfold by_offset. intros; simpl in *; lia.
  - apply Z.ltb_ge in E. constructor; [done|].
    apply Forall_forall. intros z [->|Hz]%elem_of_insert_item; [done|].
    by eapply Forall_forall in Hy.
Qed.

Lemma insert_item_perm x l : insert_item x l ≡ₚ x :: l.
Proof.
  induction l as [|y l IH]; simpl; [done|].
  destruct (_ <? _); [done|]. by rewrite IH, Permutation_swap.
Qed.

(** [items.sort(key=...)] puts the items in order and keeps each of them. *)
Lemma sort_items_sorted l :
  StronglySorted by_offset (sort_items l) ∧ sort_items l ≡ₚ l.
Proof.
  unfold sort_items.
  assert (Hgen : ∀ acc, StronglySorted by_offset acc →
    StronglySorted by_offset (foldl (fun acc x => insert_item x acc) acc l)
    ∧ foldl (fun acc x => insert_item x acc) acc l ≡ₚ acc ++ l).
  { induction l as [|x l IH]; intros acc Hacc; simpl.
    - by rewrite app_nil_r.
    - destruct (IH (insert_item x acc)) as [Hs Hp];
        [by apply insert_item_sorted|].
      split; [done|]. rewrite Hp, insert_item_perm.
      by rewrite <- Permutation_middle. }
  destruct (Hgen []) as [Hs Hp]; [constructor|]. done.
Qed.

Lemma of_bucket_cons key it items :
  of_bucket key (it :: items) =
  if decide (bucket_key it.1.1 = Ok key) then it :: of_bucket key items
  else of_bucket key items.
Proof. reflexivity. Qed.

Section Bucket_facts.
Context `{Builtins}.

Lemma terms_of_append (out : gmap (list N) (list (list N))) k chunk k' :
  is_Some (out !! k) →
  terms_of (alter (fun l => l ++ [chunk]) k out) k' =
  if decide (k = k') then terms_of out k' ++ [chunk] else terms_of out k'.
Proof.
  intros [l Hl]. unfold terms_of. rewrite lookup_alter.
  destruct (decide (k = k')) as [<-|]; [|done]. by rewrite Hl.
Qed.

(** What the second loop appends to each bucket: the chunks of some of the
    items of that bucket, in the order of the list, and of all of them
    without [dedupe]. *)
Lemma place_all_kept dedupe items st st' :
  place_all dedupe st items = Ok st' → has_keys st →
  ∀ key, ∃ kept,
    kept `sublist_of` of_bucket key items
    ∧ terms_of st'.1 key = terms_of st.1 key ++ chunks kept
    ∧ (dedupe = false → kept = of_bucket key items).
Proof.
  revert st; induction items as [|[[style pos] chunk] items IH]; intros st;
    simpl.
  { intros [= <-] _ key. exists []. by rewrite app_nil_r. }
  destruct (place dedupe st (style, pos, chunk)) as [st1|] eqn:Hplace;
    simpl; [|done].
  intros Hall Hkeys key.
  pose proof (place_has_keys _ _ _ _ Hplace Hkeys) as Hkeys1.
  destruct (IH _ Hall Hkeys1 key) as (kept & Hsub & Hterms & Hfull).
  destruct st as [out seen].
  apply place_cases in Hplace as (k & Hk & [(Hd & _ & ->) | ->]).
  - exists kept. rewrite of_bucket_cons. simpl. split; [|split; [done|]].
    + destruct (decide _); [by apply sublist_cons|done].
    + intros ->. done.
  - destruct (bucket_key_Ok _ _ Hk) as [_ Hin].
    destruct (Hkeys k Hin) as [Ho _]. simpl in Ho, Hterms.
    rewrite terms_of_append in Hterms by done.
    rewrite of_bucket_cons. simpl. rewrite Hk.
    destruct (decide (k = key)) as [->|Hne].
    + rewrite decide_True by done.
      exists ((style, pos, chunk) :: kept). split; [by apply sublist_skip|].
      split; [by rewrite Hterms, <- app_assoc|].
      intros Hd. by rewrite Hfull.
    + rewrite decide_False by congruence. by exists kept.
Qed.


Lemma StronglySorted_sublist {A} (R : A → A → Prop) (l k : list A) :
  l `sublist_of` k → StronglySorted R k → StronglySorted R l.
Proof.
  induction 1 as [|x l k Hsub IH|x l k Hsub IH]; intros Hk;
    [done| |].
  - apply StronglySorted_inv in Hk as [Hk Hx].
    constructor; [by apply IH|].
    apply Forall_forall. intros y Hy. eapply Forall_forall in Hx; [done|].
    by eapply sublist_subseteq.
  - apply StronglySorted_inv in Hk as [Hk _]. by apply IH.
Qed.

Lemma place_all_dom dedupe items st st' :
  place_all dedupe st items = Ok st' → dom st'.1 = dom st.1.
Proof.
  revert st; induction items as [|[[style pos] chunk] items IH]; intros st;
    simpl.
  { by intros [= <-]. }
  destruct (place dedupe st (style, pos, chunk)) as [st1|] eqn:Hplace;
    simpl; [|done].
  intros ->%IH. destruct st as [out seen].
  apply place_cases in Hplace as (k & _ & [(_ & _ & ->) | ->]); [done|].
  simpl. apply dom_alter_L.
Qed.

Lemma place_seen_exact st it st' :
  place true st it = Ok st' → has_keys st → seen_exact st → seen_exact st'.
Proof.
  destruct st as [out seen], it as [[style pos] chunk]. unfold place.
  destruct (bucket_key style) as [k|] eqn:Hk; simpl; [|done].
  destruct (bool_decide _) eqn:Hseen; intros [= <-] Hkeys Hinv; [done|].
  apply bool_decide_eq_false_1 in Hseen.
  destruct (bucket_key_Ok _ _ Hk) as [_ Hin].
  destruct (Hkeys k Hin) as [Ho [s Hs]]. simpl in Ho, Hs.
  intros k'. simpl. rewrite terms_of_append by done.
  rewrite lookup_alter. destruct (decide (k = k')) as [<-|Hne].
  - destruct (Hinv k) as [Hnd Hiff]. simpl in Hnd, Hiff.
    rewrite Hs in Hseen, Hiff |- *. simpl in *.
    rewrite fmap_app. simpl. split.
    + apply NoDup_app. split; [done|]. split; [|apply NoDup_singleton].
      intros x Hx ->%list_elem_of_singleton. by apply Hseen, Hiff.
    + intros norm. rewrite elem_of_union, elem_of_singleton, elem_of_app,
        list_elem_of_singleton, Hiff. done.
  - apply Hinv.
Qed.

Lemma place_all_seen_exact items st st' :
  place_all true st items = Ok st' → has_keys st →
  seen_exact st → seen_exact st'.
Proof.
  revert st; induction items as [|it items IH]; intros st; simpl.
  { by intros [= <-]. }
  destruct (place true st it) as [st1|] eqn:Hplace; simpl; [|done].
  intros Hall Hkeys Hinv.
  eapply IH; [done| |].
  - by eapply place_has_keys.
  - by eapply place_seen_exact.
Qed.

Lemma seen_exact_init : seen_exact (empty_buckets, empty_seen).
Proof.
  intros k. simpl. rewrite terms_of_init. split; [constructor|].
  intros norm. split; [|by intros ?%elem_of_nil].
  intros Hin. exfalso. revert Hin. unfold empty_seen.
  rewrite !lookup_insert.
  repeat (destruct (decide _); [by intros ?%elem_of_empty|]).
  rewrite lookup_empty. by intros ?%elem_of_empty.
Qed.

(** The state of the second loop at its end. *)
Lemma extract_words_by_style_run (p : payload) (snap_to_word dedupe : bool)
    (out : gmap (list N) (list (list N))) :
  extract_words_by_style p snap_to_word dedupe = Ok out →
  ∃ seen, place_all dedupe (empty_buckets, empty_seen)
            (sort_items (items_of p)) = Ok (out, seen).
Proof.
  unfold extract_words_by_style, items_of.
  destruct (place_all _ _ _) as [[out' seen]|]; simpl; [|done].
  intros [= <-]. by exists seen.
Qed.

End Bucket_facts.

(** X5: [extract_words_by_style] returns for every payload, whatever its
    spans are, and what it returns has exactly the three buckets bold,
    italics and underline. *)
Theorem extraction_returns_three_buckets `{Builtins} (p : payload)
    (snap_to_word dedupe : bool) :
  ∃ out,
    extract_words_by_style p snap_to_word dedupe = Ok out
    ∧ dom out = {[bold; italics; underline]}.
Proof.
  destruct (extract_words_by_style_facts p snap_to_word dedupe)
    as (out & Hout & _).
  exists out. split; [done|].
  destruct (extract_words_by_style_run _ _ _ _ Hout) as [seen Hrun].
  apply place_all_dom in Hrun. simpl in Hrun. rewrite Hrun.
  unfold empty_buckets. rewrite !dom_insert_L, dom_empty_L. set_solver.
Qed.

(** X6: with [dedupe], no two terms of a bucket have the same folded form
    ([casefold]). *)
Theorem deduped_buckets_have_distinct_folded_terms `{Builtins} (p : payload)
    (snap_to_word : bool) (out : gmap str (list str)) (key : str) :
  extract_words_by_style p snap_to_word true = Ok out →
  NoDup (str_casefold <$> terms_of out key).
Proof.
  intros Hout.
  destruct (extract_words_by_style_run _ _ _ _ Hout) as [seen Hrun].
  apply place_all_seen_exact in Hrun;
    [|apply has_keys_init|apply seen_exact_init].
  apply (Hrun key).
Qed.

(** Two spans over the same word in two cases: one term. *)
Lemma deduped_buckets_have_distinct_folded_terms_witness :
  extract_words_by_style payload_overlong_repeat true true
  = Ok (buckets [lit "ABC"] [] [])
  ∧ NoDup (str_casefold <$> terms_of (buckets [lit "ABC"] [] []) bold).
Proof.
  split; [reflexivity|].
  apply (deduped_buckets_have_distinct_folded_terms payload_overlong_repeat
           true (buckets [lit "ABC"] [] []) bold).
  reflexivity.
Defined.



(** X8: without [dedupe], a bucket has one term for each span of its style
    with a positive length and a non-empty slice, repeated terms
    included. *)
Theorem without_dedupe_every_span_has_its_term `{Builtins} (p : payload)
    (snap_to_word : bool) (out : gmap str (list str)) (key : str) :
  extract_words_by_style p snap_to_word false = Ok out →
  terms_of out key ≡ₚ chunks (of_bucket key (items_of p)).
Proof.
  intros Hout.
  destruct (extract_words_by_style_run _ _ _ _ Hout) as [seen Hrun].
  destruct (place_all_kept _ _ _ _ Hrun has_keys_init key)
    as (kept & _ & Hterms & Hfull).
  simpl in Hterms. rewrite terms_of_init in Hterms.
  rewrite Hterms, Hfull by done. unfold chunks, of_bucket.
  destruct (sort_items_sorted (items_of p)) as [_ Hperm].
  by rewrite Hperm.
Qed.

(** The same word under two bold spans, kept twice. *)
Lemma without_dedupe_every_span_has_its_term_witness :
  extract_words_by_style payload_overlong_repeat true false
  = Ok (buckets [lit "ABC"; lit "abc"] [] [])
  ∧ terms_of (buckets [lit "ABC"; lit "abc"] [] []) bold
    ≡ₚ chunks (of_bucket bold (items_of payload_overlong_repeat)).
Proof.
  split; [reflexivity|].
  apply (without_dedupe_every_span_has_its_term payload_overlong_repeat true
           (buckets [lit "ABC"; lit "abc"] [] []) bold).
  reflexivity.
Defined.

(** ** Which term stands for a span *)

(** In a list whose images under [f] are distinct, two elements with the
    same image are the same. *)
Lemma NoDup_fmap_elem {A B} (f : A → B) (l : list A) (x y : A) :
  NoDup (f <$> l) → x ∈ l → y ∈ l → f x = f y → x = y.
Proof.
  induction l as [|a l IH]; [by intros _ ?%elem_of_nil|].
  rewrite fmap_cons, NoDup_cons. intros [Ha Hl] Hx Hy Hf.
  apply elem_of_cons in Hx as [->|Hx]; apply elem_of_cons in Hy as [->|Hy].
  - done.
  - exfalso. apply Ha. rewrite Hf. by apply list_elem_of_fmap_2.
  - exfalso. apply Ha. rewrite <- Hf. by apply list_elem_of_fmap_2.
  - by apply IH.
Qed.

Section Representation.
Context `{Builtins}.

(** Under [dedupe], an item whose folded form is neither in its bucket yet
    nor that of an item of the bucket placed before it puts its chunk into
    the bucket, where it stays. *)
Lemma place_all_first pre it post st st' key :
  place_all true st (pre ++ it :: post) = Ok st' →
  has_keys st → seen_exact st →
  bucket_key it.1.1 = Ok key →
  str_casefold it.2 ∉ str_casefold <$> terms_of st.1 key →
  (∀ e, e ∈ pre → bucket_key e.1.1 = Ok key →
        str_casefold e.2 ≠ str_casefold it.2) →
  it.2 ∈ terms_of st'.1 key.
Proof.
  revert st. induction pre as [|e pre IH]; intros st Hrun Hkeys Hexact Hk Hnew Hpre.
  - change ([] ++ it :: post) with (it :: post) in Hrun.
    cbn [place_all] in Hrun.
    destruct (place true st it) as [st1|] eqn:E; cbn [bind] in Hrun; [|done].
    pose proof (place_has_keys _ _ _ _ E Hkeys) as Hkeys1.
    destruct (place_all_kept _ _ _ _ Hrun Hkeys1 key) as (kept & _ & -> & _).
    apply elem_of_app. left.
    destruct st as [out seen], it as [[style pos] chunk]. cbn [fst snd] in *.
    apply place_cases in E as (k & Hk' & [(_ & Hseen & _)| ->]).
    + exfalso. rewrite Hk in Hk'. injection Hk' as <-.
      apply Hnew. by apply (Hexact key).
    + rewrite Hk in Hk'. injection Hk' as <-. simpl.
      apply terms_of_append_elem. right.
      destruct (bucket_key_Ok _ _ Hk) as [_ Hin].
      destruct (Hkeys key Hin) as [Ho _]. done.
  - change ((e :: pre) ++ it :: post) with (e :: (pre ++ it :: post)) in Hrun.
    cbn [place_all] in Hrun.
    destruct (place true st e) as [st1|] eqn:E; cbn [bind] in Hrun; [|done].
    apply (IH st1); try done.
    + by eapply place_has_keys.
    + by eapply place_seen_exact.
    + intros (t & Hfold & Ht)%list_elem_of_fmap. apply Hnew.
      destruct st as [out seen], e as [[style pos] chunk]. cbn [fst snd] in *.
      apply place_cases in E as (k & Hk' & [(_ & _ & ->)| ->]); simpl in Ht.
      * apply list_elem_of_fmap. by exists t.
      * apply terms_of_append_elem in Ht as [Ht|(<- & _ & ->)].
        -- apply list_elem_of_fmap. by exists t.
        -- exfalso. apply (Hpre (style, pos, chunk)); [left|done|done].
    + intros e' He'. apply Hpre. by right.
Qed.

(** The first item of the bucket with a given folded form. *)
Lemma first_duplicate key (pre : list (str * Z * str)) chunk :
  (∃ e, earlier_duplicate key pre chunk e) →
  ∃ pre1 e pre2,
    pre = pre1 ++ e :: pre2 ∧ earlier_duplicate key pre chunk e
    ∧ ∀ x, x ∈ pre1 → bucket_key x.1.1 = Ok key →
           str_casefold x.2 ≠ str_casefold chunk.
Proof.
  unfold earlier_duplicate. induction pre as [|a pre IH].
  { intros (e & He & _). by apply elem_of_nil in He. }
  intros (e & He & Hk & Hf).
  destruct (decide (bucket_key a.1.1 = Ok key
                    ∧ str_casefold a.2 = str_casefold chunk)) as [[Ha Hfa]|Hna].
  - exists [], a, pre. split; [done|]. split; [by split; [left|]|].
    by intros x ?%elem_of_nil.
  - apply elem_of_cons in He as [->|He]; [by destruct Hna|].
    destruct IH as (pre1 & e' & pre2 & -> & (He' & Hk' & Hf') & Hfirst).
    { by exists e. }
    exists (a :: pre1), e', pre2. split; [done|].
    split; [by split; [right|]|].
    intros x [->|Hx]%elem_of_cons Hkx Hfx; [by apply Hna|].
    by apply (Hfirst x).
Qed.

(** Every item placed shows in its bucket as [represented] says. *)
Lemma placement_represented (p : payload) (snap_to_word dedupe : bool)
    (out : gmap str (list str)) pre it post key :
  extract_words_by_style p snap_to_word dedupe = Ok out →
  placement p = pre ++ it :: post →
  bucket_key it.1.1 = Ok key →
  represented dedupe key pre it.2 (terms_of out key).
Proof.
  intros Hout Hsplit Hk.
  apply extract_words_by_style_run in Hout as [seen Hrun].
  fold (placement p) in Hrun. rewrite Hsplit in Hrun.
  destruct dedupe; unfold represented.
  - pose proof (place_all_seen_exact _ _ _ Hrun has_keys_init seen_exact_init)
      as Hexact.
    destruct (Hexact key) as [Hnd _]. simpl in Hnd.
    assert (Hinit : ∀ c, str_casefold c
                         ∉ str_casefold <$> terms_of (empty_buckets, empty_seen).1 key).
    { intros c. simpl. rewrite terms_of_init. by intros ?%elem_of_nil. }
    destruct (decide (Exists (fun e : str * Z * str =>
                bucket_key e.1.1 = Ok key
                ∧ str_casefold e.2 = str_casefold it.2) pre)) as [Hdup|Hnone].
    + assert (Hex : ∃ e, earlier_duplicate key pre it.2 e).
      { apply Exists_exists in Hdup as (e & He & Hke & Hfe). by exists e. }
      destruct (first_duplicate _ _ _ Hex)
        as (pre1 & e & pre2 & Hpre & He & Hfirst).
      destruct He as (Hin & Hke & Hfe).
      assert (Hterm : e.2 ∈ terms_of out key).
      { rewrite Hpre, <- app_assoc in Hrun.
        change ((e :: pre2) ++ it :: post) with (e :: (pre2 ++ it :: post))
          in Hrun.
        apply (place_all_first pre1 e (pre2 ++ it :: post)
                 (empty_buckets, empty_seen) (out, seen) key Hrun
                 has_keys_init seen_exact_init Hke (Hinit _)).
        intros x Hx Hkx. rewrite Hfe. by apply Hfirst. }
      exists e.2. split; [done|]. split; [|split].
      * intros t' Ht' Hf'. apply (NoDup_fmap_elem str_casefold _ _ _ Hnd);
          [done|done|]. by rewrite Hf', Hfe.
      * intros Hno. by destruct Hno.
      * intros _. exists e. by repeat split.
    + assert (Hno : ¬ ∃ e, earlier_duplicate key pre it.2 e).
      { intros (e & He & Hke & Hfe). apply Hnone, Exists_exists. by exists e. }
      assert (Hterm : it.2 ∈ terms_of out key).
      { apply (place_all_first pre it post (empty_buckets, empty_seen)
                 (out, seen) key Hrun has_keys_init seen_exact_init Hk
                 (Hinit _)).
        intros e He Hke Hfe. apply Hno. by exists e. }
      exists it.2. split; [done|]. split; [|split].
      * intros t' Ht' Hf'.
        by apply (NoDup_fmap_elem str_casefold _ _ _ Hnd).
      * done.
      * intros Hex. by destruct Hno.
  - destruct (place_all_kept _ _ _ _ Hrun has_keys_init key)
      as (kept & _ & Hterms & Hall).
    simpl in Hterms. rewrite terms_of_init in Hterms. simpl in Hterms.
    rewrite Hterms, (Hall eq_refl). unfold chunks.
    apply list_elem_of_fmap. exists it. split; [done|].
    unfold of_bucket. apply list_elem_of_filter. split; [done|].
    apply elem_of_app. right. left.
Qed.

(** A span that yields an item is placed. *)
Lemma span_is_placed (p : payload) s o l style :
  s ∈ styles p → span_reads s o l style → is_style style = true → 0 < l →
  Py.slice (value p) o (o + l) ≠ [] →
  (style, o, Py.slice (value p) o (o + l)) ∈ placement p.
Proof.
  intros Hs Hreads Hst Hl Hne. unfold placement.
  apply elem_of_sort_items. unfold items_of.
  apply list_elem_of_omap. exists s. split; [done|].
  apply extract_step_Some. by exists l.
Qed.

End Representation.

(** C3, as amended: every term of the output is the non-empty slice
    [text[offset : offset + length]] of an annotation with a positive
    length and a recognised style; the offset may be negative, the slice
    then counts from the end of the text.  An annotation with a negative
    offset is not skipped: whenever its slice is not empty its item is
    placed, and its bucket holds that slice, or under [dedupe], when an
    item of the bucket placed before it has the same folded form, the
    chunk of such an earlier item, as the only term with this folded
    form. *)
Theorem terms_come_from_positive_lengths `{Builtins} (p : payload)
    (snap_to_word dedupe : bool) (out : gmap str (list str)) :
  extract_words_by_style p snap_to_word dedupe = Ok out →
  (∀ key term, term ∈ terms_of out key →
     ∃ s o l style,
       s ∈ styles p ∧ span_reads s o l style ∧ 0 < l
       ∧ bucket_key style = Ok key
       ∧ term = Py.slice (value p) o (o + l) ∧ term ≠ [])
  ∧ (∀ s o l style,
       s ∈ styles p → span_reads s o l style → is_style style = true →
       0 < l → o < 0 → Py.slice (value p) o (o + l) ≠ [] →
       ∃ key,
         bucket_key style = Ok key
         ∧ (style, o, Py.slice (value p) o (o + l)) ∈ placement p
         ∧ ∀ pre post,
             placement p
             = pre ++ (style, o, Py.slice (value p) o (o + l)) :: post →
             represented dedupe key pre (Py.slice (value p) o (o + l))
               (terms_of out key)).
Proof.
  intros Hout.
  destruct (extract_words_by_style_facts p snap_to_word dedupe)
    as (out' & Hout' & Hsound & _).
  rewrite Hout in Hout'. injection Hout' as <-.
  split; [done|].
  intros s o l style Hs Hreads Hst Hl _ Hne.
  destruct (is_style_bucket_key style Hst) as [key Hk].
  exists key. split; [done|]. split; [by eapply span_is_placed|].
  intros pre post Hsplit.
  by apply (placement_represented p snap_to_word dedupe out pre
              (style, o, Py.slice (value p) o (o + l)) post key).
Qed.

(** The span at offset -3 of [abcdef], without [dedupe]. *)
Lemma terms_come_from_positive_lengths_witness :
  extract_words_by_style payload_negative true false
  = Ok (buckets [lit "de"] [] [])
  ∧ (∀ key term, term ∈ terms_of (buckets [lit "de"] [] []) key →
      ∃ s o l style,
        s ∈ styles payload_negative ∧ span_reads s o l style ∧ 0 < l
        ∧ bucket_key style = Ok key
        ∧ term = Py.slice (value payload_negative) o (o + l) ∧ term ≠ [])
  ∧ ∀ pre post,
      placement payload_negative = pre ++ (BOLD, -3, lit "de") :: post →
      represented false bold pre (lit "de")
        (terms_of (buckets [lit "de"] [] []) bold).
Proof.
  assert (Hrun : extract_words_by_style payload_negative true false
                 = Ok (buckets [lit "de"] [] [])) by reflexivity.
  split; [exact Hrun|].
  destruct (terms_come_from_positive_lengths payload_negative true false
              (buckets [lit "de"] [] []) Hrun) as [Hsound Hneg].
  split; [exact Hsound|].
  destruct (Hneg (span_dict (-3) 2 BOLD) (-3) 2 BOLD)
    as (key & Hk & _ & Hrep);
    [left | by repeat split | reflexivity | lia | lia | discriminate |].
  injection Hk as <-. exact Hrep.
Defined.

(** C10, as amended: a span of positive length that starts inside the text
    and runs past its end yields the rest of the text from its offset,
    shorter than the declared length; its item is placed, and its bucket
    holds this suffix, or under [dedupe], when an item of the bucket
    placed before it has the same folded form, the chunk of such an
    earlier item, as the only term with this folded form.  A span that
    starts at or after the end yields nothing.  The call returns in both
    cases. *)
Theorem overlong_spans_are_cut `{Builtins} (p : payload)
    (snap_to_word dedupe : bool) (s : pyval) (o l : Z) (style : str) :
  s ∈ styles p → span_reads s o l style → is_style style = true → 0 < l →
  ∃ out,
    extract_words_by_style p snap_to_word dedupe = Ok out
    ∧ (0 ≤ o → o < Py.len (value p) → Py.len (value p) < o + l →
       extract_step (value p) s = Some (style, o, Py.slice_from (value p) o)
       ∧ Py.len (Py.slice_from (value p) o) < l
       ∧ ∃ key,
           bucket_key style = Ok key
           ∧ (style, o, Py.slice_from (value p) o) ∈ placement p
           ∧ ∀ pre post,
               placement p
               = pre ++ (style, o, Py.slice_from (value p) o) :: post →
               represented dedupe key pre (Py.slice_from (value p) o)
                 (terms_of out key))
    ∧ (Py.len (value p) ≤ o → extract_step (value p) s = None).
Proof.
  intros Hs Hreads Hst Hl.
  destruct (extract_words_by_style_facts p snap_to_word dedupe)
    as (out & Hout & _ & _).
  exists out. split; [done|]. split.
  - intros Ho Hin Hpast.
    assert (Hcut : Py.slice (value p) o (o + l) = Py.slice_from (value p) o).
    { rewrite slice_past_end by lia. unfold Py.slice_from, Py.clamp.
      cmp_false (o <? 0).
      by rewrite Z.min_l by lia. }
    assert (Hlen : Py.len (Py.slice_from (value p) o) = Py.len (value p) - o).
    { unfold Py.slice_from, Py.clamp.
      cmp_false (o <? 0).
      rewrite Z.min_l by lia. unfold Py.len in *. rewrite length_drop. lia. }
    assert (Hne : Py.slice_from (value p) o ≠ []).
    { intros Hnil. rewrite Hnil in Hlen. unfold Py.len in Hlen at 1.
      simpl in Hlen. lia. }
    split; [|split; [lia|]].
    + apply extract_step_Some. exists l. by rewrite Hcut.
    + destruct (is_style_bucket_key style Hst) as [key Hk].
      exists key. split; [done|]. rewrite <- Hcut. split.
      * apply (span_is_placed p s o l style); try done. by rewrite Hcut.
      * intros pre post Hsplit.
        by apply (placement_represented p snap_to_word dedupe out pre
                    (style, o, Py.slice (value p) o (o + l)) post key).
  - intros Hpast.
    destruct (extract_step (value p) s) as [[[st' o'] chunk]|] eqn:E; [|done].
    apply extract_step_Some in E as (l' & (Ho' & Hl' & _) & Hl'pos & _ & -> & Hne).
    destruct Hreads as (Ho & Hl2 & _).
    rewrite Ho in Ho'. injection Ho' as <-.
    exfalso. apply Hne.
    rewrite slice_past_end by (unfold Py.len in *; lia).
    apply drop_ge. unfold Py.len in Hpast. lia.
Qed.

(** The span of length 10 at offset 4 of [ABC abc], after the span of
    [ABC]: under [dedupe] the bucket holds [ABC] for it. *)
Lemma overlong_spans_are_cut_witness :
  span_dict 4 10 BOLD ∈ styles payload_overlong_repeat
  ∧ span_reads (span_dict 4 10 BOLD) 4 10 BOLD
  ∧ is_style BOLD = true
  ∧ 0 < 10
  ∧ extract_words_by_style payload_overlong_repeat true true
    = Ok (buckets [lit "ABC"] [] [])
  ∧ placement payload_overlong_repeat
    = [(BOLD, 0, lit "ABC")] ++ (BOLD, 4, lit "abc") :: []
  ∧ represented true bold [(BOLD, 0, lit "ABC")] (lit "abc")
      (terms_of (buckets [lit "ABC"] [] []) bold).
Proof.
  assert (Hin : span_dict 4 10 BOLD ∈ styles payload_overlong_repeat)
    by (right; left).
  assert (Hreads : span_reads (span_dict 4 10 BOLD) 4 10 BOLD)
    by (by repeat split).
  split; [exact Hin|]. split; [exact Hreads|]. split; [reflexivity|].
  split; [lia|]. split; [reflexivity|]. split; [reflexivity|].
  destruct (overlong_spans_are_cut payload_overlong_repeat true true
              (span_dict 4 10 BOLD) 4 10 BOLD Hin Hreads eq_refl)
    as (out & Hout & Hcut & _); [lia|].
  injection Hout as <-.
  destruct Hcut as (_ & _ & key & Hk & _ & Hrep);
    [lia | by vm_compute | by vm_compute |].
  injection Hk as <-.
  apply (Hrep [(BOLD, 0, lit "ABC")] []). reflexivity.
Defined.

(** ** Style names and the decoding of annotations *)

Section Style_name_facts.
Context `{Builtins}.

(** X9: the last test of [_normalize_style_name] is a substring test: every
    name whose upper-case form occurs inside the word UNDERLINED (LINE,
    UNDER, U, the empty name, ...) is normalised to UNDERLINE. *)
Theorem names_inside_UNDERLINED_are_underline (s : str) :
  (∃ pre post, lit "UNDERLINED" = pre ++ str_upper s ++ post) →
  _normalize_style_name (PStr s) = Ok UNDERLINE.
Proof.
  intros Hin%contains_spec. unfold _normalize_style_name.
  replace (py_or (PStr s) (PStr [])) with (PStr s)
    by (unfold py_or; simpl; by destruct s).
  simpl. set (u := str_upper s) in *.
  destruct (bool_decide (u ∈ [lit "BOLDED"])) eqn:E1.
  { apply bool_decide_eq_true_1, list_elem_of_singleton in E1.
    rewrite E1 in Hin. vm_compute in Hin. discriminate. }
  destruct (bool_decide (u ∈ [lit "ITALICS"; lit "ITALICIZED"])) eqn:E2.
  { apply bool_decide_eq_true_1 in E2.
    apply elem_of_cons in E2 as [E2|E2%list_elem_of_singleton];
      rewrite E2 in Hin; vm_compute in Hin; discriminate. }
  by rewrite Hin.
Qed.

(** X10: a span without a style key is read as an underline span: with a
    positive length and a non-empty slice it yields an UNDERLINE item. *)
Theorem spans_without_style_are_underline (src : str) (o l : Z) :
  str_upper [] = [] → 0 < l → Py.slice src o (o + l) ≠ [] →
  extract_step src
    (PDict [(lit "offset", PInt o); (lit "length", PInt l)])
  = Some (UNDERLINE, o, Py.slice src o (o + l)).
Proof.
  intros Hup Hl Hne. apply extract_step_Some. exists l.
  split; [|by repeat split].
  repeat split.
  change (py_get _ (lit "style") (PStr [])) with (@Ok pyval (PStr [])).
  simpl. unfold _normalize_style_name. simpl. by rewrite Hup.
Qed.

(** What a kept entry looks like. *)
Lemma parse_step_Some s d :
  parse_step s = Some d →
  ∃ o l st, d = span_dict o l st ∧ 0 < l ∧ is_style st = true.
Proof.
  unfold parse_step. destruct s; try done.
  unfold parse_entry. simpl.
  destruct (py_int _) as [o|]; simpl; [|done].
  destruct (py_int _) as [l|]; simpl; [|done].
  destruct (_normalize_style_name _) as [st|]; simpl; [|done].
  destruct (0 <? l) eqn:Hl; simpl; [|done].
  destruct (is_style st) eqn:Hst; [|done].
  intros [= <-]. exists o, l, st. apply Z.ltb_lt in Hl. done.
Qed.

Lemma _parse_styles_elem raw spans d :
  _parse_styles raw = Ok spans → d ∈ spans → ∃ s, parse_step s = Some d.
Proof.
  unfold _parse_styles. destruct (negb (truthy raw)).
  { intros [= <-] Hd. by apply elem_of_nil in Hd. }
  set (decoded := match raw with PStr t => json_loads t | _ => _ end).
  destruct decoded as [v|].
  2:{ intros [= <-] Hd. by apply elem_of_nil in Hd. }
  destruct (py_iter v) as [entries|]; simpl; [|done].
  intros [= <-] (s & _ & Hs)%list_elem_of_omap. by exists s.
Qed.

(** X11: every span [_parse_styles] returns has exactly the keys offset,
    length and style, with an integer offset, a positive integer length and
    one of the styles BOLD, ITALIC, UNDERLINE. *)
Theorem parsed_spans_are_well_formed (raw : pyval) (spans : list pyval) :
  _parse_styles raw = Ok spans →
  Forall (fun d => ∃ o l st,
            d = span_dict o l st ∧ 0 < l ∧ is_style st = true) spans.
Proof.
  intros Hparse. apply Forall_forall. intros d Hd.
  destruct (_parse_styles_elem raw spans d Hparse Hd) as [s Hs].
  by eapply parse_step_Some.
Qed.

(** X12: what [_parse_styles] does with a container it cannot use: [None],
    the empty string and the empty list give no span, and so does a string
    that does not decode; but a string that decodes to [null], a number or
    a boolean makes it raise [TypeError]. *)
Theorem unusable_annotations (raw : pyval) (t : str) :
  (truthy raw = false → _parse_styles raw = Ok [])
  ∧ (t ≠ [] → (∃ e, json_loads t = Raise e) → _parse_styles (PStr t) = Ok [])
  ∧ (t ≠ [] →
     (∃ v, json_loads t = Ok v
           ∧ match v with
             | PNone | PBool _ | PInt _ | PFloat _ => True
             | _ => False
             end) →
     _parse_styles (PStr t) = Raise TypeError).
Proof.
  unfold _parse_styles. split; [by intros ->|]. split.
  - intros Ht [e He]. destruct t; [done|]. simpl. by rewrite He.
  - intros Ht (v & Hv & Hscalar). destruct t; [done|]. simpl. rewrite Hv.
    by destruct v.
Qed.

(** X13: a span emitted by [_parse_styles] is read by
    [extract_words_by_style] with the same offset, length and style, as
    long as upper-casing leaves the three style names as they are. *)
Theorem parsed_spans_are_read_back (raw : pyval) (spans : list pyval)
    (d : pyval) :
  (∀ st, st ∈ [BOLD; ITALIC; UNDERLINE] → str_upper st = st) →
  _parse_styles raw = Ok spans → d ∈ spans →
  ∃ o l st,
    d = span_dict o l st ∧ 0 < l ∧ is_style st = true
    ∧ span_reads d o l st.
Proof.
  intros Hup Hparse Hd.
  destruct (_parse_styles_elem raw spans d Hparse Hd) as [s Hs].
  apply parse_step_Some in Hs as (o & l & st & -> & Hl & Hst).
  exists o, l, st. do 3 (split; [done|]).
  repeat split.
  change (py_get (span_dict o l st) (lit "style") (PStr []))
    with (@Ok pyval (PStr st)).
  simpl. unfold _normalize_style_name.
  replace (py_or (PStr st) (PStr [])) with (PStr st)
    by (unfold py_or; simpl; by destruct st).
  simpl.
  apply bool_decide_eq_true_1 in Hst. rewrite (Hup st Hst).
  repeat (apply elem_of_cons in Hst as [->|Hst]; [reflexivity|]).
  by apply elem_of_nil in Hst.
Qed.

End Style_name_facts.

(** The name [line] is normalised to UNDERLINE. *)
Lemma names_inside_UNDERLINED_are_underline_witness :
  (∃ pre post, lit "UNDERLINED" = pre ++ str_upper (lit "line") ++ post)
  ∧ _normalize_style_name (PStr (lit "line")) = Ok UNDERLINE.
Proof.
  assert (Hin : ∃ pre post,
            lit "UNDERLINED" = pre ++ str_upper (lit "line") ++ post).
  { by exists (lit "UNDER"), (lit "D"). }
  split; [exact Hin|].
  apply (names_inside_UNDERLINED_are_underline (lit "line") Hin).
Defined.

(** A span of two characters without a style. *)
Lemma spans_without_style_are_underline_witness :
  str_upper [] = []
  ∧ 0 < 2
  ∧ Py.slice (lit "abcdef") 1 (1 + 2) ≠ []
  ∧ extract_step (lit "abcdef")
      (PDict [(lit "offset", PInt 1); (lit "length", PInt 2)])
    = Some (UNDERLINE, 1, lit "bc").
Proof.
  split; [reflexivity|]. split; [lia|]. split; [discriminate|].
  apply (spans_without_style_are_underline (lit "abcdef") 1 2);
    [reflexivity | lia | discriminate].
Defined.

(** Three entries, of which one has a positive length and a style. *)
Lemma parsed_spans_are_well_formed_witness :
  _parse_styles (PStr mixed_annotations) = Ok [span_dict 4 4 BOLD]
  ∧ Forall (fun d => ∃ o l st,
              d = span_dict o l st ∧ 0 < l ∧ is_style st = true)
      [span_dict 4 4 BOLD].
Proof.
  split; [reflexivity|].
  apply (parsed_spans_are_well_formed (PStr mixed_annotations)
           [span_dict 4 4 BOLD]).
  reflexivity.
Defined.

(** The strings [not json] and [5]. *)
Lemma unusable_annotations_witness :
  _parse_styles PNone = Ok []
  ∧ _parse_styles (PStr (lit "not json")) = Ok []
  ∧ _parse_styles (PStr (lit "5")) = Raise TypeError.
Proof.
  destruct (unusable_annotations PNone (lit "not json")) as (H1 & H2 & _).
  destruct (unusable_annotations PNone (lit "5")) as (_ & _ & H3).
  split; [by apply H1|]. split.
  - apply H2; [discriminate|]. by eexists.
  - apply H3; [discriminate|]. by exists (PInt 5).
Defined.

(** The span of the annotations above, read back. *)
Lemma parsed_spans_are_read_back_witness :
  (∀ st, st ∈ [BOLD; ITALIC; UNDERLINE] → str_upper st = st)
  ∧ _parse_styles (PStr mixed_annotations) = Ok [span_dict 4 4 BOLD]
  ∧ span_dict 4 4 BOLD ∈ [span_dict 4 4 BOLD]
  ∧ ∃ o l st,
      span_dict 4 4 BOLD = span_dict o l st ∧ 0 < l ∧ is_style st = true
      ∧ span_reads (span_dict 4 4 BOLD) o l st.
Proof.
  assert (Hup : ∀ st, st ∈ [BOLD; ITALIC; UNDERLINE] → str_upper st = st).
  { intros st Hst.
    repeat (apply elem_of_cons in Hst as [->|Hst]; [reflexivity|]).
    by apply elem_of_nil in Hst. }
  split; [exact Hup|]. split; [reflexivity|]. split; [left|].
  apply (parsed_spans_are_read_back (PStr mixed_annotations)
           [span_dict 4 4 BOLD] (span_dict 4 4 BOLD) Hup);
    [reflexivity | left].
Defined.

(** ** Recovery: what becomes of a decoded value *)

Lemma dict_set_id {V} (k : list N) (v : V) d :
  Dict.get k d = Some v → Dict.set k v d = d.
Proof.
  induction d as [|[k' v'] d IH]; simpl; [done|].
  destruct (bool_decide (k = k')) eqn:E.
  - apply bool_decide_eq_true_1 in E as <-. by intros [= ->].
  - intros Hd. by rewrite IH.
Qed.

(** Slices that follow each other make one slice. *)
Lemma slice_app {A} (l : list A) (i j k : Z) :
  0 ≤ i → i ≤ j → j ≤ k →
  Py.slice l i j ++ Py.slice l j k = Py.slice l i k.
Proof.
  intros Hi Hij Hjk. unfold Py.slice, Py.clamp.
  cmp_false (i <? 0). cmp_false (j <? 0). cmp_false (k <? 0).
  set (n := Py.len l).
  assert (Hn : n = Z.of_nat (length l)) by done.
  replace (Z.to_nat (Z.min j n))
    with (Z.to_nat (Z.min i n) + Z.to_nat (Z.min j n - Z.min i n))%nat by lia.
  rewrite <- drop_drop, take_take_drop. f_equal. lia.
Qed.

Lemma slice_prefix {A} (l : list A) (k : Z) :
  0 ≤ k → Py.slice l 0 k = take (Z.to_nat k) l.
Proof.
  intros Hk. unfold Py.slice, Py.clamp. simpl.
  cmp_false (k <? 0). rewrite (Z.min_l 0) by (unfold Py.len; lia).
  rewrite Z.sub_0_r, drop_0.
  destruct (decide (k ≤ Py.len l)).
  - by rewrite Z.min_l by lia.
  - rewrite Z.min_r by lia. unfold Py.len in *.
    rewrite Nat2Z.id. by rewrite !take_ge by lia.
Qed.

Section Decoded_facts.
Context `{Builtins}.

Lemma stringify_string_array l : string_array (PList (stringify l)).
Proof. apply stringified. Qed.

(** Three arrays under the three keys are stringified in place. *)
Lemma _ensure_alignment_keys_arrays (b i u : list pyval) :
  _ensure_alignment_keys
    [(bold, PList b); (italics, PList i); (underline, PList u)]
  = Ok [(bold, PList (stringify b)); (italics, PList (stringify i));
        (underline, PList (stringify u))].
Proof. reflexivity. Qed.

(** On a well-formed object [ensure_key] changes nothing. *)
Lemma ensure_key_id d k :
  well_formed_alignment d → k ∈ alignment_keys → ensure_key d k = Ok d.
Proof.
  intros Hd Hk. destruct (Hd k Hk) as (v & Hv & l & -> & Hl).
  unfold ensure_key. rewrite Hv. simpl. rewrite Hv. simpl.
  rewrite stringify_strings by done. by rewrite dict_set_id.
Qed.

Lemma _ensure_alignment_keys_id d :
  well_formed_alignment d → _ensure_alignment_keys d = Ok d.
Proof.
  intros Hd. unfold _ensure_alignment_keys.
  rewrite ensure_key_id by (done || left). simpl.
  rewrite ensure_key_id by (done || (right; left)). simpl.
  apply ensure_key_id; [done|]. right; right; left.
Qed.

(** X14: [_ensure_alignment_keys] is idempotent: what it returns it returns
    again, unchanged. *)
Theorem ensuring_keys_twice_changes_nothing (obj obj' : list (str * pyval)) :
  _ensure_alignment_keys obj = Ok obj' →
  _ensure_alignment_keys obj' = Ok obj'.
Proof.
  intros Hobj. apply _ensure_alignment_keys_id.
  intros k Hk. by eapply _ensure_alignment_keys_shape.
Qed.

(** X15: a content that decodes at the first attempt to an object with the
    three keys and arrays of strings under them is returned as it was
    decoded, its other keys and the order of its keys included. *)
Theorem well_formed_answers_are_returned_as_decoded (content : str)
    (bN iN uN : Z) (d : list (str * pyval)) :
  json_loads (_strip_code_fences content) = Ok (PDict d) →
  well_formed_alignment d →
  recover_content content bN iN uN = Ok d.
Proof.
  intros Hdec Hd. unfold recover_content, decode_content. rewrite Hdec.
  by apply _ensure_alignment_keys_id.
Qed.

(** X16: a decoded object lacking one of the three keys gets it with an
    empty array; but one whose value under such a key is [null], a number
    or a boolean makes the recovery raise [TypeError]. *)
Theorem missing_and_broken_buckets (d : list (str * pyval)) (k : str) :
  k ∈ alignment_keys →
  (Dict.get k d = None →
   ∀ obj, _ensure_alignment_keys d = Ok obj →
          Dict.get k obj = Some (PList []))
  ∧ ((∃ v, Dict.get k d = Some v
           ∧ match v with
             | PNone | PBool _ | PInt _ | PFloat _ => True
             | _ => False
             end) →
     _ensure_alignment_keys d = Raise TypeError).
Proof.
  intros Hk.
  assert (Hstep : ∀ o k', ensure_key o k' = Raise TypeError
                          ∨ ∃ o', ensure_key o k' = Ok o').
  { intros o k'. unfold ensure_key. destruct (py_iter _) as [xs|e] eqn:E.
    - right. by eexists.
    - left. simpl. f_equal. revert E.
      destruct (default PNone _); simpl; congruence. }
  assert (Hmiss : ∀ o o', Dict.get k o = None → ensure_key o k = Ok o' →
                          Dict.get k o' = Some (PList [])).
  { intros o o' Hnone. unfold ensure_key. rewrite Hnone.
    rewrite dict_get_set_eq. simpl. intros [= <-].
    by rewrite dict_get_set_eq. }
  assert (Hbad : ∀ o, (∃ v, Dict.get k o = Some v
           ∧ match v with
             | PNone | PBool _ | PInt _ | PFloat _ => True
             | _ => False
             end) → ensure_key o k = Raise TypeError).
  { intros o (v & Hv & Hscalar). unfold ensure_key. rewrite Hv. simpl.
    rewrite Hv. simpl. by destruct v. }
  assert (Hkeep : ∀ o o' k', ensure_key o k' = Ok o' → k' ≠ k →
                             Dict.get k o' = Dict.get k o).
  { intros o o' k' Ho Hne. by apply ensure_key_get in Ho as [_ ->]. }
  unfold _ensure_alignment_keys, alignment_keys in *.
  apply elem_of_cons in Hk as [->|Hk]; [|apply elem_of_cons in Hk as [->|Hk]];
    [| |apply list_elem_of_singleton in Hk as ->].
  - split.
    + intros Hnone obj.
      destruct (ensure_key d bold) as [o1|] eqn:E1; cbn [bind]; [|done].
      destruct (ensure_key o1 italics) as [o2|] eqn:E2; cbn [bind]; [|done].
      intros E3. rewrite (Hkeep _ _ _ E3) by done.
      rewrite (Hkeep _ _ _ E2) by done. by eapply Hmiss.
    + intros Hb. by rewrite (Hbad d Hb).
  - split.
    + intros Hnone obj.
      destruct (ensure_key d bold) as [o1|] eqn:E1; cbn [bind]; [|done].
      destruct (ensure_key o1 italics) as [o2|] eqn:E2; cbn [bind]; [|done].
      intros E3. rewrite (Hkeep _ _ _ E3) by done.
      eapply Hmiss; [|done]. by rewrite (Hkeep _ _ _ E1) by done.
    + intros (v & Hv & Hscalar).
      destruct (Hstep d bold) as [->|[o1 E1]]; [done|]. rewrite E1. cbn [bind].
      rewrite (Hbad o1); [done|]. exists v. by rewrite (Hkeep _ _ _ E1) by done.
  - split.
    + intros Hnone obj.
      destruct (ensure_key d bold) as [o1|] eqn:E1; cbn [bind]; [|done].
      destruct (ensure_key o1 italics) as [o2|] eqn:E2; cbn [bind]; [|done].
      intros E3. eapply Hmiss; [|done].
      rewrite (Hkeep _ _ _ E2) by done.
      by rewrite (Hkeep _ _ _ E1) by done.
    + intros (v & Hv & Hscalar).
      destruct (Hstep d bold) as [->|[o1 E1]]; [done|]. rewrite E1. cbn [bind].
      destruct (Hstep o1 italics) as [->|[o2 E2]]; [done|]. rewrite E2. cbn [bind].
      apply Hbad. exists v.
      rewrite (Hkeep _ _ _ E2) by done.
      by rewrite (Hkeep _ _ _ E1) by done.
Qed.


End Decoded_facts.

(** The empty object becomes the three empty buckets. *)
Lemma ensuring_keys_twice_changes_nothing_witness :
  _ensure_alignment_keys []
  = Ok [(bold, PList []); (italics, PList []); (underline, PList [])]
  ∧ _ensure_alignment_keys
      [(bold, PList []); (italics, PList []); (underline, PList [])]
    = Ok [(bold, PList []); (italics, PList []); (underline, PList [])].
Proof.
  split; [reflexivity|].
  apply (ensuring_keys_twice_changes_nothing []). reflexivity.
Defined.

(** The object with a fourth key of the statements above. *)
Lemma well_formed_answers_are_returned_as_decoded_witness :
  json_loads (_strip_code_fences noted_alignment)
  = Ok (PDict [(bold, PList [PStr (lit "Bold****Gras")]); (italics, PList []);
               (underline, PList []); (lit "note", PList [])])
  ∧ recover_content noted_alignment 1 0 0
    = Ok [(bold, PList [PStr (lit "Bold****Gras")]); (italics, PList []);
          (underline, PList []); (lit "note", PList [])].
Proof.
  split; [reflexivity|].
  apply (well_formed_answers_are_returned_as_decoded noted_alignment 1 0 0);
    [reflexivity|].
  intros k Hk. unfold alignment_keys in Hk.
  repeat (apply elem_of_cons in Hk as [->|Hk];
          [eexists; split; [reflexivity|]; eexists; split;
           [reflexivity|by repeat constructor]|]).
  by apply elem_of_nil in Hk.
Defined.

(** An object without italics and with a number under underline. *)
Lemma missing_and_broken_buckets_witness :
  json_loads broken_alignment
  = Ok (PDict [(bold, PList [PStr (lit "Sugar****Sucre")]);
               (underline, PInt 5)])
  ∧ underline ∈ alignment_keys
  ∧ _ensure_alignment_keys
      [(bold, PList [PStr (lit "Sugar****Sucre")]); (underline, PInt 5)]
    = Raise TypeError
  ∧ recover_content broken_alignment 1 0 0 = Raise TypeError.
Proof.
  split; [reflexivity|]. split; [right; right; left|].
  split; [|reflexivity].
  apply (missing_and_broken_buckets
           [(bold, PList [PStr (lit "Sugar****Sucre")]); (underline, PInt 5)]
           underline); [right; right; left|].
  by exists (PInt 5).
Defined.


(** ** Recovery: fences and the first object of a text *)

Lemma scan_object_Some s i0 depth in_str esc i :
  scan_object s i0 depth in_str esc = Some i →
  (i0 ≤ i)%nat ∧ s !! (i - i0)%nat = Some 125%N.
Proof.
  revert i0 depth in_str esc.
  induction s as [|c s IH]; intros i0 depth in_str esc; simpl; [done|].
  assert (Hrec : ∀ d a b, scan_object s (S i0) d a b = Some i →
            (i0 ≤ i)%nat ∧ (c :: s) !! (i - i0)%nat = Some 125%N).
  { intros d a b [Hle Hi]%IH. split; [lia|].
    replace (i - i0)%nat with (S (i - S i0)) by lia. done. }
  destruct in_str.
  - destruct esc; [apply Hrec|].
    destruct (c =? 92)%N; [apply Hrec|].
    destruct (c =? 34)%N; apply Hrec.
  - destruct (c =? 34)%N; [apply Hrec|].
    destruct (c =? 123)%N; [apply Hrec|].
    destruct (c =? 125)%N eqn:E; [|apply Hrec].
    destruct (depth - 1 =? 0); [|apply Hrec].
    intros [= <-]. rewrite Nat.sub_diag. apply N.eqb_eq in E as ->. done.
Qed.

Lemma find_aux_char_None c s i :
  Py.find_aux [c] s i = None ↔ c ∉ s.
Proof.
  revert i; induction s as [|d s IH]; intros i; rewrite find_aux_eq; simpl.
  { split; [by intros _ ?%elem_of_nil|done]. }
  destruct (c =? d)%N eqn:E; simpl.
  - apply N.eqb_eq in E as ->. replace (Py.startswith s []) with true
      by (by destruct s).
    split; [done|]. intros Hn. destruct Hn. left.
  - apply N.eqb_neq in E. rewrite IH, not_elem_of_cons. tauto.
Qed.

Lemma find_whole text sub :
  Py.find text sub =
  match Py.find_aux sub text 0 with Some k => Z.of_nat k | None => -1 end.
Proof.
  unfold Py.find, Py.find_from. simpl.
  destruct (Py.len text <? 0) eqn:E.
  { apply Z.ltb_lt in E. unfold Py.len in E. lia. }
  by rewrite drop_0.
Qed.

(** X18: the text [_extract_first_json_object] returns is a part of the
    given text that starts at its first opening brace and ends with a
    closing brace; a text without an opening brace gives nothing. *)
Theorem first_object_is_a_braced_part (text : str) :
  (∀ obj, _extract_first_json_object text = Some obj →
     ∃ pre body post,
       text = pre ++ obj ++ post
       ∧ (123%N ∉ pre)
       ∧ obj = lit "{" ++ body ++ lit "}")
  ∧ (123%N ∉ text → _extract_first_json_object text = None).
Proof.
  unfold _extract_first_json_object. rewrite find_whole.
  change (lit "{") with [123%N]. change (lit "}") with [125%N].
  split.
  2:{ intros Hno. apply (find_aux_char_None _ _ 0) in Hno. by rewrite Hno. }
  intros obj. destruct (Py.find_aux [123%N] text 0) as [k|] eqn:Hfind; [|done].
  replace (Z.of_nat k =? -1) with false by (symmetry; apply Z.eqb_neq; lia).
  rewrite Nat2Z.id.
  destruct (scan_object (drop k text) k 0 false false) as [i|] eqn:Hscan;
    [|done].
  intros [= <-].
  apply find_aux_Some in Hfind as (_ & _ & Hocc & Hmin).
  rewrite Nat.sub_0_r in Hocc.
  apply scan_object_Some in Hscan as [Hki Hi]. rewrite lookup_drop in Hi.
  replace (k + (i - k))%nat with i in Hi by lia.
  assert (Hk : text !! k = Some 123%N).
  { apply startswith_take in Hocc. simpl in Hocc.
    destruct (drop k text) as [|c rest] eqn:Hd; [done|].
    injection Hocc as ->. rewrite <- (Nat.add_0_r k), <- lookup_drop, Hd. done. }
  assert (Hlt : (k < i)%nat).
  { destruct (decide (k = i)) as [->|]; [congruence|lia]. }
  pose proof (lookup_lt_Some _ _ _ Hi) as Hlen.
  rewrite slice_in_range by (unfold Py.len; lia).
  rewrite Nat2Z.id.
  replace (Z.to_nat (Z.of_nat i + 1 - Z.of_nat k)) with (S (i - k)) by lia.
  exists (take k text), (take (i - k - 1) (drop (S k) text)),
    (drop (S i) text).
  split; [|split].
  - rewrite <- (take_drop k text) at 1. f_equal.
    rewrite <- (take_drop (S (i - k)) (drop k text)) at 1. f_equal.
    rewrite drop_drop. f_equal. lia.
  - intros Hin. apply list_elem_of_lookup in Hin as [j Hj].
    pose proof (lookup_lt_Some _ _ _ Hj) as Hjk.
    rewrite length_take in Hjk.
    rewrite lookup_take_lt in Hj by lia.
    specialize (Hmin j ltac:(lia)). rewrite Nat.sub_0_r in Hmin.
    assert (Py.startswith (drop j text) [123%N] = true); [|congruence].
    apply startswith_take. simpl.
    destruct (drop j text) as [|c rest] eqn:Hd.
    { apply (f_equal length) in Hd. rewrite length_drop in Hd. simpl in Hd.
      lia. }
    rewrite <- (Nat.add_0_r j), <- lookup_drop, Hd in Hj.
    simpl in Hj. by injection Hj as ->.
  - rewrite (drop_S _ _ _ Hk). simpl.
    replace (i - k)%nat with (S (i - k - 1)) by lia.
    rewrite (take_S_r _ _ 125%N); [repeat f_equal; lia|].
    rewrite lookup_drop. by replace (S k + (i - k - 1))%nat with i by lia.
Qed.

(** An object in prose, with braces inside a string and a nested object. *)
Lemma first_object_is_a_braced_part_witness :
  _extract_first_json_object prose_content
  = Some (jlit "{'bold': ['a}{b'], 'n': {'m': 1}}")
  ∧ ∃ pre body post,
      prose_content = pre ++ jlit "{'bold': ['a}{b'], 'n': {'m': 1}}" ++ post
      ∧ (123%N ∉ pre)
      ∧ jlit "{'bold': ['a}{b'], 'n': {'m': 1}}" = lit "{" ++ body ++ lit "}".
Proof.
  split; [reflexivity|].
  apply (proj1 (first_object_is_a_braced_part prose_content)).
  reflexivity.
Defined.

(** ** Stripping *)

Lemma lstrip_app_ws (ws s : list N) :
  Forall (fun c => Py.isspace c = true) ws → Py.lstrip (ws ++ s) = Py.lstrip s.
Proof. induction 1 as [|c ws Hc _ IH]; simpl; [done|]. by rewrite Hc. Qed.

Lemma lstrip_split (s : list N) :
  ∃ ws, s = ws ++ Py.lstrip s ∧ Forall (fun c => Py.isspace c = true) ws.
Proof.
  induction s as [|c s (ws & Hs & Hws)]; simpl.
  { by exists []. }
  destruct (Py.isspace c) eqn:E.
  - exists (c :: ws). split; [by rewrite Hs at 1|by constructor].
  - by exists [].
Qed.

Lemma lstrip_head (s : list N) c :
  head (Py.lstrip s) = Some c → Py.isspace c = false.
Proof.
  induction s as [|d s IH]; simpl; [done|].
  destruct (Py.isspace d) eqn:E; [done|]. simpl. by intros [= <-].
Qed.

Lemma lstrip_id (s : list N) :
  (∀ c, head s = Some c → Py.isspace c = false) → Py.lstrip s = s.
Proof. destruct s as [|c s]; simpl; [done|]. intros Hc. by rewrite Hc. Qed.

Lemma lstrip_app (s t : list N) :
  Py.lstrip (s ++ t) =
  match Py.lstrip s with [] => Py.lstrip t | _ => Py.lstrip s ++ t end.
Proof.
  induction s as [|c s IH]; simpl; [by destruct (Py.lstrip t)|].
  by destruct (Py.isspace c).
Qed.

Lemma head_reverse {A} (l : list A) : head (reverse l) = last l.
Proof.
  induction l as [|x l IH] using rev_ind; [done|].
  by rewrite reverse_app, last_snoc.
Qed.

Lemma last_reverse {A} (l : list A) : last (reverse l) = head l.
Proof. by rewrite <- head_reverse, reverse_involutive. Qed.

(** What [strip] returns has no white space at its ends. *)
Lemma strip_clean (s : list N) : clean (Py.strip s).
Proof.
  unfold Py.strip. set (u := Py.lstrip s).
  split; intros c.
  - rewrite head_reverse.
    destruct (lstrip_split (reverse u)) as (ws & Hu & _).
    destruct (Py.lstrip (reverse u)) as [|d v] eqn:Hv; [done|].
    intros Hlast.
    assert (last (reverse u) = Some c) as Hc.
    { rewrite Hu, last_app. by rewrite Hlast. }
    rewrite last_reverse in Hc. by apply lstrip_head in Hc.
  - rewrite last_reverse. apply lstrip_head.
Qed.

(** A text without white space at its ends is left as it is. *)
Lemma strip_id (s : list N) : clean s → Py.strip s = s.
Proof.
  intros [Hhead Hlast]. unfold Py.strip.
  rewrite (lstrip_id s) by done.
  rewrite lstrip_id; [apply reverse_involutive|].
  intros c. rewrite head_reverse. apply Hlast.
Qed.

(** White space at the end does not count. *)
Lemma strip_app_ws (s : list N) c :
  Py.isspace c = true → Py.strip (s ++ [c]) = Py.strip s.
Proof.
  intros Hc. unfold Py.strip. rewrite lstrip_app.
  destruct (Py.lstrip s) as [|d u] eqn:Hu.
  - simpl. by rewrite Hc.
  - rewrite reverse_app. simpl. by rewrite Hc.
Qed.

Lemma startswith_app (p s : list N) : Py.startswith (p ++ s) p = true.
Proof. apply startswith_take. by rewrite take_app_length. Qed.

Lemma endswith_app (s p : list N) : Py.endswith (s ++ p) p = true.
Proof. unfold Py.endswith. rewrite reverse_app. apply startswith_app. Qed.

Lemma find_aux_char c (pre post : list N) i :
  c ∉ pre → Py.find_aux [c] (pre ++ c :: post) i = Some (i + length pre)%nat.
Proof.
  revert i; induction pre as [|d pre IH]; intros i Hc; rewrite find_aux_eq;
    simpl.
  - rewrite N.eqb_refl. simpl. replace (Py.startswith post []) with true
      by (by destruct post).
    f_equal. lia.
  - apply not_elem_of_cons in Hc as [Hcd Hc].
    replace (c =? d)%N with false by (symmetry; by apply N.eqb_neq).
    simpl. rewrite IH by done. f_equal. lia.
Qed.

Section Fence_facts.
Context `{Builtins}.

(** X19: a content wrapped in a fence of three backquotes, with the tag
    json, javascript or js (in any case) on the line of the opening fence
    and the closing fence on a line of its own, is unwrapped to its stripped
    body; it is then recovered as the bare body is, when the body is not
    itself fenced. *)
Theorem fenced_content_is_unwrapped (tag body : str) (bN iN uN : Z) :
  10%N ∉ tag →
  str_lower (Py.strip tag) ∈ [lit "json"; lit "javascript"; lit "js"] →
  _strip_code_fences (fence ++ tag ++ newline ++ body ++ newline ++ fence)
  = Py.strip body
  ∧ (Py.startswith (Py.strip body) fence = false →
     recover_content (fence ++ tag ++ newline ++ body ++ newline ++ fence)
       bN iN uN
     = recover_content body bN iN uN).
Proof.
  intros Htag Hlang.
  set (text := fence ++ tag ++ newline ++ body ++ newline ++ fence).
  assert (Hstrip : _strip_code_fences text = Py.strip body).
  { unfold _strip_code_fences.
    assert (Hclean : Py.strip text = text).
    { apply strip_id. subst text. split; intros c.
      - by intros [= <-].
      - rewrite !app_assoc. unfold fence.
        change [96%N; 96%N; 96%N] with ([96%N; 96%N] ++ [96%N]).
        rewrite !app_assoc, last_snoc. by intros [= <-]. }
    rewrite Hclean.
    replace (Py.startswith text fence) with true
      by (symmetry; apply startswith_app).
    replace (Py.endswith text fence) with true.
    2:{ symmetry. subst text. rewrite !app_assoc. apply endswith_app. }
    simpl andb. cbv iota.
    assert (Hdrop : Py.slice_from text 3
                    = tag ++ newline ++ body ++ newline ++ fence).
    { unfold Py.slice_from, Py.clamp. simpl.
      rewrite Z.min_l; [done|].
      subst text. unfold Py.len. rewrite length_app. simpl. lia. }
    rewrite Hdrop.
    assert (Hfind : Py.find_aux newline
              (tag ++ newline ++ body ++ newline ++ fence) 0
            = Some (length tag)).
    { unfold newline at 1 2. simpl app at 2.
      by rewrite find_aux_char. }
    unfold Py.contains, Py.split1. rewrite Hfind.
    rewrite take_app_length.
    replace (drop (length tag + length newline) _)
      with (body ++ newline ++ fence).
    2:{ rewrite (app_assoc tag newline), drop_app_length'; [done|].
        by rewrite length_app. }
    rewrite bool_decide_eq_true_2 by done.
    replace (Py.endswith (body ++ newline ++ fence) fence) with true.
    2:{ symmetry. rewrite app_assoc. apply endswith_app. }
    replace (Py.slice_to (body ++ newline ++ fence) (-3))
      with (body ++ newline).
    2:{ unfold Py.slice_to, Py.clamp. change (-3 <? 0) with true. cbv iota.
        rewrite app_assoc. unfold Py.len. rewrite length_app. simpl length.
        rewrite Z.max_l by lia.
        replace (Z.to_nat (-3 + Z.of_nat (length (body ++ newline) + 3)))
          with (length (body ++ newline)) by lia.
        by rewrite take_app_length. }
    by apply strip_app_ws. }
  split; [done|].
  intros Hbare. unfold recover_content. rewrite Hstrip.
  replace (_strip_code_fences body) with (Py.strip body); [done|].
  unfold _strip_code_fences. rewrite Hbare. simpl.
  symmetry. apply strip_id, strip_clean.
Qed.

End Fence_facts.

(** An object fenced with the tag [JSON]. *)
Lemma fenced_content_is_unwrapped_witness :
  (10%N ∉ lit "JSON ")
  ∧ str_lower (Py.strip (lit "JSON "))
      ∈ [lit "json"; lit "javascript"; lit "js"]
  ∧ _strip_code_fences
      (fence ++ lit "JSON " ++ newline ++ noted_alignment ++ newline ++ fence)
    = Py.strip noted_alignment
  ∧ (Py.startswith (Py.strip noted_alignment) fence = false →
     recover_content
       (fence ++ lit "JSON " ++ newline ++ noted_alignment ++ newline ++ fence)
       1 0 0
     = recover_content noted_alignment 1 0 0).
Proof.
  assert (Htag : 10%N ∉ lit "JSON ").
  { intros Hin.
    repeat (apply elem_of_cons in Hin as [Hin|Hin]; [discriminate|]).
    by apply elem_of_nil in Hin. }
  assert (Hlang : str_lower (Py.strip (lit "JSON "))
                    ∈ [lit "json"; lit "javascript"; lit "js"]) by left.
  split; [exact Htag|]. split; [exact Hlang|].
  apply (fenced_content_is_unwrapped (lit "JSON ") noted_alignment 1 0 0
           Htag Hlang).
Defined.

(** ** Relocation: which spans are returned *)

(** Splitting and joining entries. *)
Lemma find_aux_app_None sub s i :
  Py.find_aux sub s i = None ↔ ¬ ∃ pre post, s = pre ++ sub ++ post.
Proof.
  rewrite <- contains_spec. unfold Py.contains.
  split.
  - intros Hn. generalize (find_aux_None sub s i Hn). intros Hall.
    destruct (Py.find_aux sub s 0) as [k|] eqn:E; [|done].
    apply find_aux_Some in E as (_ & Hk & Hocc & _).
    rewrite Nat.sub_0_r in Hocc, Hk. rewrite Hall in Hocc by done. done.
  - intros Hn. destruct (Py.find_aux sub s i) as [k|] eqn:E; [|done].
    exfalso. apply Hn.
    apply find_aux_Some in E as (_ & Hk & Hocc & _).
    destruct (Py.find_aux sub s 0) as [k'|] eqn:E'; [done|].
    rewrite (find_aux_None sub s 0 E') in Hocc by done. done.
Qed.

Lemma _split_pair_marker (s src tgt : str) :
  has_marker s → _split_pair s = (src, tgt) →
  s = src ++ SEP ++ tgt ∧ ¬ has_marker src.
Proof.
  unfold has_marker. intros Hm. unfold _split_pair.
  replace (Py.contains s SEP) with true
    by (symmetry; by apply contains_spec).
  unfold Py.split1.
  destruct (Py.find_aux SEP s 0) as [k|] eqn:E.
  2:{ apply find_aux_app_None in E. done. }
  intros [= <- <-].
  apply find_aux_Some in E as (_ & Hk & Hocc & Hmin).
  rewrite Nat.sub_0_r in Hocc, Hk. apply startswith_take in Hocc.
  split.
  - rewrite <- (take_drop k s) at 1. f_equal.
    rewrite <- (take_drop (length SEP) (drop k s)) at 1.
    rewrite Hocc, drop_drop. done.
  - intros (pre & post & Hsrc).
    assert (Hlen : (length pre + length SEP ≤ k)%nat).
    { apply (f_equal length) in Hsrc.
      rewrite length_take, !length_app in Hsrc. lia. }
    assert (Hpre : (length pre < k)%nat) by (unfold SEP in *; simpl in *; lia).
    specialize (Hmin (length pre) ltac:(lia)). rewrite Nat.sub_0_r in Hmin.
    assert (Py.startswith (drop (length pre) s) SEP = true); [|congruence].
    apply startswith_take.
    rewrite <- (take_drop k s), Hsrc.
    rewrite <- !app_assoc, drop_app_length.
    by rewrite take_app_length.
Qed.

Lemma _split_pair_plain (s : str) : ¬ has_marker s → _split_pair s = (s, []).
Proof.
  unfold has_marker. intros Hn. unfold _split_pair.
  destruct (Py.contains s SEP) eqn:E; [|done].
  by apply contains_spec in E.
Qed.

Lemma _split_pair_join (src tgt : str) :
  42%N ∉ src → _split_pair (src ++ SEP ++ tgt) = (src, tgt).
Proof.
  intros Hsrc. unfold _split_pair.
  replace (Py.contains (src ++ SEP ++ tgt) SEP) with true
    by (symmetry; apply contains_spec; by eexists _, _).
  unfold Py.split1.
  assert (Hfind : Py.find_aux SEP (src ++ SEP ++ tgt) 0 = Some (length src)).
  { clear -Hsrc.
    assert (Hgen : ∀ i, Py.find_aux SEP (src ++ SEP ++ tgt) i
                        = Some (i + length src)%nat); [|by rewrite Hgen].
    induction src as [|c src IH]; intros i; rewrite find_aux_eq.
    - change ([] ++ SEP ++ tgt) with (SEP ++ tgt).
      rewrite startswith_app. f_equal. simpl. lia.
    - apply not_elem_of_cons in Hsrc as [Hc Hsrc].
      replace (Py.startswith ((c :: src) ++ SEP ++ tgt) SEP) with false.
      2:{ symmetry. apply not_true_is_false. intros E.
          apply startswith_take in E. injection E as E _. by subst c. }
      simpl. rewrite IH by done. f_equal. lia. }
  rewrite Hfind, take_app_length. f_equal.
  rewrite app_assoc, drop_app_length'; [done|]. by rewrite length_app.
Qed.



Section Span_facts.
Context `{Builtins}.

(** The spans one entry yields. *)
Lemma locate_item_spans st text keep item cursor :
  (locate_item st text keep item cursor).1 =
  let src := (_split_pair item).1 in
  let tgt := (_split_pair item).2 in
  let pos := _find_from text tgt cursor in
  if decide (tgt ≠ [] ∧ pos ≠ -1)
  then [Span.mk st src (Py.slice text pos (pos + Py.len tgt)) pos (Py.len tgt)]
  else if keep then [unmatched st src] else [].
Proof.
  unfold locate_item. destruct (_split_pair item) as [src tgt]. simpl.
  destruct tgt as [|c tgt].
  { rewrite decide_False by (by intros [? _]). by destruct keep. }
  destruct (_find_from text (c :: tgt) cursor =? -1) eqn:E; simpl.
  - apply Z.eqb_eq in E. rewrite decide_False by (intros [_ ?]; done).
    by destruct keep.
  - apply Z.eqb_neq in E. by rewrite decide_True.
Qed.

Lemma locate_item_cursor st text keep item cursor :
  0 ≤ cursor → 0 ≤ (locate_item st text keep item cursor).2.
Proof.
  intros Hc.
  destruct (locate_item_cases st text keep item cursor Hc)
    as [_ [(s & _ & _ & _ & ? & ->)|[_ ->]]]; done.
Qed.

Lemma locate_bucket_Forall (P : Span.t → Prop) st text keep :
  (∀ item cursor, 0 ≤ cursor →
     Forall P (locate_item st text keep item cursor).1) →
  ∀ arr cursor, 0 ≤ cursor →
    Forall P (locate_bucket st text keep arr cursor).1.
Proof.
  intros Hitem arr. induction arr as [|item arr IH]; intros cursor Hc; simpl.
  { constructor. }
  pose proof (Hitem item cursor Hc) as Hspans.
  pose proof (locate_item_cursor st text keep item cursor Hc) as Hc1.
  destruct (locate_item st text keep item cursor) as [spans c1]. simpl in *.
  specialize (IH c1 Hc1).
  destruct (locate_bucket st text keep arr c1) as [spans' c2]. simpl in *.
  by apply Forall_app.
Qed.

Lemma transform_Forall (P : Span.t → Prop) alignment text keep :
  (∀ st item cursor, 0 ≤ cursor →
     Forall P (locate_item st text keep item cursor).1) →
  Forall P (transform_alignment_to_styles alignment text keep).
Proof.
  intros Hitem. rewrite transform_buckets.
  repeat apply Forall_app_2; apply locate_bucket_Forall; try done;
    intros; by apply Hitem.
Qed.

(** X21: every span returned is a span found in the translated text, with
    an offset that is an index of it, a positive length and the text read
    there, or it is the placeholder with offset -1 and length 0; and a
    placeholder is returned only with [keep_unmatched]. *)
Theorem spans_are_found_or_placeholders (alignment : gmap str (list str))
    (translated_text : str) (keep_unmatched : bool) :
  Forall (fun s => found_in translated_text s
                   ∨ (keep_unmatched = true ∧ placeholder s))
    (transform_alignment_to_styles alignment translated_text keep_unmatched).
Proof.
  apply transform_Forall. intros st item cursor Hc.
  rewrite locate_item_spans. simpl.
  destruct (decide _) as [[Htgt Hpos]|_].
  - constructor; [left|constructor]. repeat split; simpl.
    + destruct (_find_from_range translated_text (_split_pair item).2 cursor);
        [done|lia].
    + destruct (_split_pair item).2; [done|]. unfold Py.len. simpl. lia.
  - destruct keep_unmatched; constructor; [right|constructor]. done.
Qed.

(** The sources of the spans of a bucket. *)
Lemma locate_bucket_sources st text keep arr cursor :
  (fun s => (Span.style s, Span.source s))
    <$> (locate_bucket st text keep arr cursor).1
  `sublist_of` (fun e => (st, (_split_pair e).1)) <$> arr
  ∧ (keep = true →
     (fun s => (Span.style s, Span.source s))
       <$> (locate_bucket st text keep arr cursor).1
     = (fun e => (st, (_split_pair e).1)) <$> arr).
Proof.
  revert cursor; induction arr as [|item arr IH]; intros cursor; simpl.
  { done. }
  pose proof (locate_item_spans st text keep item cursor) as Hspans.
  destruct (locate_item st text keep item cursor) as [spans c1]. simpl in *.
  specialize (IH c1).
  destruct (locate_bucket st text keep arr c1) as [spans' c2]. simpl in *.
  destruct IH as [Hsub Heq]. rewrite fmap_app, Hspans.
  destruct (decide _) as [_|_]; simpl.
  - split; [by apply sublist_skip|]. intros Hk. by rewrite Heq.
  - destruct keep; simpl.
    + split; [by apply sublist_skip|]. intros _. by rewrite Heq.
    + split; [by apply sublist_cons|done].
Qed.

(** X22: the spans are returned bucket by bucket, bold, italics,
    underline, and in the order of the entries: their styles and sources
    are those of the entries that yield a span, in order; with
    [keep_unmatched] every entry yields exactly one span. *)
Theorem spans_follow_the_entries (alignment : gmap str (list str))
    (translated_text : str) (keep_unmatched : bool) :
  (fun s => (Span.style s, Span.source s))
    <$> transform_alignment_to_styles alignment translated_text keep_unmatched
  `sublist_of` tagged_sources alignment
  ∧ (keep_unmatched = true →
     (fun s => (Span.style s, Span.source s))
       <$> transform_alignment_to_styles alignment translated_text
             keep_unmatched
     = tagged_sources alignment).
Proof.
  rewrite transform_buckets, !fmap_app. unfold tagged_sources.
  destruct (locate_bucket_sources BOLD translated_text keep_unmatched
              (default [] (alignment !! bold)) 0) as [Sb Eb].
  destruct (locate_bucket_sources ITALIC translated_text keep_unmatched
              (default [] (alignment !! italics)) 0) as [Si Ei].
  destruct (locate_bucket_sources UNDERLINE translated_text keep_unmatched
              (default [] (alignment !! underline)) 0) as [Su Eu].
  split.
  - by repeat apply sublist_app.
  - intros Hk. by rewrite Eb, Ei, Eu.
Qed.


(** A target that occurs in the text is found, wherever the cursor is. *)
Lemma _find_from_verbatim text needle start :
  (∃ pre post, text = pre ++ needle ++ post) →
  _find_from text needle start ≠ -1.
Proof.
  intros Hocc. unfold _find_from.
  destruct (Py.find_from text needle start =? -1) eqn:E1; simpl.
  2:{ by apply Z.eqb_neq in E1. }
  destruct (Py.find_from (str_lower text) _ start =? -1) eqn:E2; simpl.
  2:{ by apply Z.eqb_neq in E2. }
  rewrite find_whole.
  destruct (Py.find_aux needle text 0) as [k|] eqn:E; [lia|].
  by apply find_aux_app_None in E.
Qed.

Lemma locate_bucket_verbatim st text keep arr cursor e :
  e ∈ arr → (_split_pair e).2 ≠ [] →
  (∃ pre post, text = pre ++ (_split_pair e).2 ++ post) →
  ∃ s, s ∈ (locate_bucket st text keep arr cursor).1
       ∧ Span.style s = st ∧ Span.source s = (_split_pair e).1
       ∧ located s ∧ Span.length s = Py.len (_split_pair e).2.
Proof.
  intros He Htgt Hocc. revert cursor.
  induction arr as [|item arr IH]; intros cursor; [by apply elem_of_nil in He|].
  simpl.
  pose proof (locate_item_spans st text keep item cursor) as Hspans.
  destruct (locate_item st text keep item cursor) as [spans c1]. simpl in *.
  apply elem_of_cons in He as [<-|He].
  - destruct (locate_bucket st text keep arr c1) as [spans' c2]. simpl.
    rewrite decide_True in Hspans
      by (split; [done|by apply _find_from_verbatim]).
    eexists. split; [rewrite Hspans; left|]. simpl.
    repeat split; try done. unfold located. simpl.
    by apply _find_from_verbatim.
  - destruct (IH He c1) as (s & Hs & Hrest).
    destruct (locate_bucket st text keep arr c1) as [spans' c2]. simpl in *.
    exists s. split; [|done]. apply elem_of_app. by right.
Qed.

(** X23: an entry whose target is not empty and occurs as it is somewhere
    in the translated text always yields a found span, whatever was placed
    before it: the search falls back to the whole text. *)
Theorem verbatim_targets_are_always_found (alignment : gmap str (list str))
    (translated_text : str) (keep_unmatched : bool) (key st e : str) :
  (key, st) ∈ [(bold, BOLD); (italics, ITALIC); (underline, UNDERLINE)] →
  e ∈ default [] (alignment !! key) →
  (_split_pair e).2 ≠ [] →
  (∃ pre post, translated_text = pre ++ (_split_pair e).2 ++ post) →
  ∃ s,
    s ∈ transform_alignment_to_styles alignment translated_text keep_unmatched
    ∧ Span.style s = st ∧ Span.source s = (_split_pair e).1
    ∧ located s ∧ Span.length s = Py.len (_split_pair e).2.
Proof.
  intros Hkey He Htgt Hocc. rewrite transform_buckets.
  assert (Hb : ∀ cursor, ∃ s,
    s ∈ (locate_bucket st translated_text keep_unmatched
           (default [] (alignment !! key)) cursor).1
    ∧ Span.style s = st ∧ Span.source s = (_split_pair e).1
    ∧ located s ∧ Span.length s = Py.len (_split_pair e).2).
  { intros cursor. by apply locate_bucket_verbatim. }
  apply elem_of_cons in Hkey as [[= -> ->]|Hkey];
    [|apply elem_of_cons in Hkey as [[= -> ->]|Hkey];
      [|apply list_elem_of_singleton in Hkey as [= -> ->]]];
    destruct (Hb 0) as (s & Hs & Hrest); exists s; (split; [|done]);
    rewrite !elem_of_app; auto.
Qed.


End Span_facts.

(** A target that is found, one that is absent and one that is empty. *)
Lemma spans_follow_the_entries_witness :
  transform_alignment_to_styles partly_absent_alignment
    (lit "Sucre et sel") true
  = [Span.mk BOLD (lit "Sugar") (lit "Sucre") 0 5;
     unmatched BOLD (lit "Pepper");
     unmatched ITALIC (lit "Salt");
     Span.mk ITALIC (lit "Salt") (lit "sel") 9 3]
  ∧ (true = true →
     (fun s => (Span.style s, Span.source s))
       <$> transform_alignment_to_styles partly_absent_alignment
             (lit "Sucre et sel") true
     = tagged_sources partly_absent_alignment).
Proof.
  split; [reflexivity|].
  apply (proj2 (spans_follow_the_entries partly_absent_alignment
                  (lit "Sucre et sel") true)).
Defined.

(** The second [Sel] is found before the first span, not dropped. *)
Lemma verbatim_targets_are_always_found_witness :
  (bold, BOLD) ∈ [(bold, BOLD); (italics, ITALIC); (underline, UNDERLINE)]
  ∧ lit "Salt****Sel"
      ∈ default [] ((<[bold := [lit "Sugar****Sucre"; lit "Salt****Sel"]]> ∅
                      : gmap (list N) (list (list N))) !! bold)
  ∧ (_split_pair (lit "Salt****Sel")).2 ≠ []
  ∧ (∃ pre post,
       lit "Sel, Sucre" = pre ++ (_split_pair (lit "Salt****Sel")).2 ++ post)
  ∧ ∃ s,
      s ∈ transform_alignment_to_styles
            (<[bold := [lit "Sugar****Sucre"; lit "Salt****Sel"]]> ∅)
            (lit "Sel, Sucre") false
      ∧ Span.style s = BOLD
      ∧ Span.source s = (_split_pair (lit "Salt****Sel")).1
      ∧ located s
      ∧ Span.length s = Py.len (_split_pair (lit "Salt****Sel")).2.
Proof.
  assert (Hocc : ∃ pre post,
            lit "Sel, Sucre" = pre ++ (_split_pair (lit "Salt****Sel")).2 ++ post).
  { by exists [], (lit ", Sucre"). }
  split; [left|]. split; [right; left|]. split; [discriminate|].
  split; [exact Hocc|].
  apply (verbatim_targets_are_always_found
           (<[bold := [lit "Sugar****Sucre"; lit "Salt****Sel"]]> ∅)
           (lit "Sel, Sucre") false bold BOLD (lit "Salt****Sel"));
    [left | right; left | discriminate | exact Hocc].
Defined.

(** ** Positional pairing: what comes out *)

Lemma _pair_positionally_lookup_other alignment source_terms key :
  key ∉ alignment_keys →
  _pair_positionally_if_needed alignment source_terms !! key = None.
Proof.
  intros Hk. unfold _pair_positionally_if_needed. simpl.
  unfold alignment_keys in Hk.
  rewrite !not_elem_of_cons in Hk. destruct Hk as (? & ? & ? & _).
  by rewrite !lookup_insert_ne by done.
Qed.

Lemma pair_by_zip_markers (items srcs : list str) :
  Forall has_marker (pair_by_zip items srcs).
Proof.
  unfold pair_by_zip. apply Forall_fmap, Forall_forall.
  intros [s t] _. by exists s, t.
Qed.

Lemma pair_bucket_again (items srcs srcs' : list str) :
  pair_bucket (pair_bucket items srcs) srcs' = pair_bucket items srcs.
Proof.
  destruct (existsb (fun x => Py.contains x SEP) items) eqn:E.
  - apply existsb_marker in E.
    rewrite (proj2 (pair_bucket_spec items srcs)) by done.
    by apply pair_bucket_spec.
  - assert (Hno : ¬ Exists has_marker items).
    { rewrite <- existsb_marker. by rewrite E. }
    rewrite (proj1 (pair_bucket_spec items srcs)) by done.
    pose proof (pair_by_zip_markers items srcs) as Hall.
    destruct (pair_by_zip items srcs) as [|x l]; [done|].
    apply pair_bucket_spec. left. by apply Forall_cons_1 in Hall as [? _].
Qed.

(** X24: the paired alignment has the three buckets and no other key,
    whatever keys the alignment had, and pairing it again, against any
    extracted terms, changes nothing. *)
Theorem pairing_again_changes_nothing
    (alignment source_terms source_terms' : gmap str (list str)) :
  dom (_pair_positionally_if_needed alignment source_terms)
  = list_to_set alignment_keys
  ∧ _pair_positionally_if_needed
      (_pair_positionally_if_needed alignment source_terms) source_terms'
    = _pair_positionally_if_needed alignment source_terms.
Proof.
  split.
  - apply set_eq. intros key. rewrite elem_of_dom, elem_of_list_to_set.
    destruct (decide (key ∈ alignment_keys)) as [Hk|Hk].
    + rewrite _pair_positionally_lookup by done. split; [done|]. by eexists.
    + rewrite _pair_positionally_lookup_other by done.
      split; [by intros [? ?]|done].
  - apply map_eq. intros key.
    destruct (decide (key ∈ alignment_keys)) as [Hk|Hk].
    + rewrite !_pair_positionally_lookup by done. simpl.
      by rewrite pair_bucket_again.
    + by rewrite !_pair_positionally_lookup_other by done.
Qed.

(** X25: the entries built by pairing split back into the extracted term
    and the target they were built from: for a bucket without markers and
    extracted terms without an asterisk, splitting the paired entries gives
    the terms zipped with the targets, the empty targets left out. *)
Theorem paired_entries_split_back
    (alignment source_terms : gmap str (list str)) (key : str) :
  key ∈ alignment_keys →
  ¬ Exists has_marker (default [] (alignment !! key)) →
  Forall (fun src => 42%N ∉ src) (default [] (source_terms !! key)) →
  _split_pair
    <$> default [] (_pair_positionally_if_needed alignment source_terms !! key)
  = filter (fun p : str * str => p.2 ≠ [])
      (zip (default [] (source_terms !! key)) (default [] (alignment !! key))).
Proof.
  intros Hk Hno Hsrcs. rewrite _pair_positionally_lookup by done. simpl.
  rewrite (proj1 (pair_bucket_spec _ _)) by done.
  unfold pair_by_zip. rewrite <- list_fmap_compose.
  rewrite <- (list_fmap_id (filter _ _)) at 2.
  apply Forall_fmap_ext, Forall_forall. intros [s t] Hin. simpl.
  apply list_elem_of_filter in Hin as [_ Hin].
  apply elem_of_zip_l in Hin. simpl in Hin.
  rewrite Forall_forall in Hsrcs.
  by apply _split_pair_join, Hsrcs.
Qed.

Lemma paired_entries_split_back_witness :
  bold ∈ alignment_keys
  ∧ ¬ Exists has_marker (default [] (bare_targets !! bold))
  ∧ Forall (fun src => 42%N ∉ src) (default [] (extracted_sources !! bold))
  ∧ _split_pair
      <$> default []
            (_pair_positionally_if_needed bare_targets extracted_sources
               !! bold)
    = [(lit "Sugar", lit "Sucre"); (lit "Salt", lit "Sel")].
Proof.
  assert (Hno : ¬ Exists has_marker (default [] (bare_targets !! bold))).
  { rewrite <- existsb_marker. by vm_compute. }
  assert (Hsrcs : Forall (fun src => 42%N ∉ src)
                    (default [] (extracted_sources !! bold))).
  { repeat constructor; intros Hin;
      repeat (apply elem_of_cons in Hin as [Hin|Hin]; [discriminate|]);
      by apply elem_of_nil in Hin. }
  split; [left|]. split; [exact Hno|]. split; [exact Hsrcs|].
  rewrite (paired_entries_split_back bare_targets extracted_sources bold
             ltac:(left) Hno Hsrcs).
  reflexivity.
Defined.

(** ** Relocation: found spans and the bounds of the text *)

Lemma find_from_fits text sub start :
  Py.find_from text sub start ≠ -1 →
  Py.find_from text sub start + Py.len sub ≤ Py.len text.
Proof.
  intros Hpos. pose proof (find_from_occurs text sub start Hpos) as Hocc.
  cbv zeta in Hocc.
  destruct (find_from_range text sub start) as [|Hr]; [done|].
  set (pos := Py.find_from text sub start) in *.
  apply (f_equal length) in Hocc. revert Hocc.
  unfold Py.slice, Py.clamp, Py.len in *.
  destruct (Z.ltb_spec pos 0); [lia|].
  destruct (Z.ltb_spec (pos + Z.of_nat (length sub)) 0); [lia|].
  rewrite length_take, length_drop. lia.
Qed.

Section Bounds.
Context `{Builtins}.

Lemma _find_from_fits text needle start :
  length (str_lower text) = length text →
  length (str_lower needle) = length needle →
  _find_from text needle start ≠ -1 →
  _find_from text needle start + Py.len needle ≤ Py.len text.
Proof.
  intros Htext Hneedle. unfold _find_from.
  destruct (Py.find_from text needle start =? -1) eqn:E1; simpl.
  2:{ intros _. apply find_from_fits. by apply Z.eqb_neq in E1. }
  destruct (Py.find_from (str_lower text) _ start =? -1) eqn:E2; simpl.
  2:{ intros _. apply Z.eqb_neq, find_from_fits in E2.
      unfold Py.len in *. by rewrite Htext, Hneedle in E2. }
  apply find_from_fits.
Qed.

Lemma locate_bucket_Forall_in (P : Span.t → Prop) st text keep arr :
  (∀ item cursor, item ∈ arr → 0 ≤ cursor →
     Forall P (locate_item st text keep item cursor).1) →
  ∀ cursor, 0 ≤ cursor →
    Forall P (locate_bucket st text keep arr cursor).1.
Proof.
  induction arr as [|item arr IH]; intros Hitem cursor Hc; simpl.
  { constructor. }
  pose proof (Hitem item cursor ltac:(left) Hc) as Hspans.
  pose proof (locate_item_cursor st text keep item cursor Hc) as Hc1.
  destruct (locate_item st text keep item cursor) as [spans c1]. simpl in *.
  assert (IH' := IH (fun it c Hit => Hitem it c (proj2 (elem_of_cons _ _ _) (or_intror Hit)))
                   c1 Hc1).
  destruct (locate_bucket st text keep arr c1) as [spans' c2]. simpl in *.
  by apply Forall_app.
Qed.

(** X26: when lower-casing changes the length neither of the translated
    text nor of the target of any entry, every found span lies inside the
    translated text and its text has the span's length. *)
Theorem found_spans_lie_in_the_text (alignment : gmap str (list str))
    (translated_text : str) (keep_unmatched : bool) :
  length (str_lower translated_text) = length translated_text →
  (∀ key e, key ∈ alignment_keys → e ∈ default [] (alignment !! key) →
     length (str_lower (_split_pair e).2) = length (_split_pair e).2) →
  Forall (fun s => located s →
            0 ≤ Span.offset s
            ∧ Span.offset s + Span.length s ≤ Py.len translated_text
            ∧ Py.len (Span.translated_text s) = Span.length s)
    (transform_alignment_to_styles alignment translated_text keep_unmatched).
Proof.
  intros Htext Htargets.
  assert (Hbucket : ∀ key st, key ∈ alignment_keys →
    Forall (fun s => located s →
              0 ≤ Span.offset s
              ∧ Span.offset s + Span.length s ≤ Py.len translated_text
              ∧ Py.len (Span.translated_text s) = Span.length s)
      (locate_bucket st translated_text keep_unmatched
         (default [] (alignment !! key)) 0).1).
  { intros key st Hkey. apply locate_bucket_Forall_in; [|done].
    intros item cursor Hitem Hc. rewrite locate_item_spans. simpl.
    destruct (decide _) as [[Htgt Hpos]|_].
    - constructor; [|constructor]. simpl. intros _.
      pose proof (_find_from_fits _ _ _ Htext (Htargets key item Hkey Hitem)
                    Hpos) as Hfit.
      destruct (_find_from_range translated_text (_split_pair item).2 cursor)
        as [|Hr]; [done|].
      split; [done|]. split; [done|].
      rewrite slice_length; unfold Py.len in *; lia.
    - destruct keep_unmatched; constructor; [|constructor].
      unfold located, unmatched. simpl. done. }
  rewrite transform_buckets.
  repeat apply Forall_app_2; apply Hbucket; unfold alignment_keys;
    [left | right; left | right; right; left].
Qed.

End Bounds.

Lemma found_spans_lie_in_the_text_witness :
  length (str_lower (lit "Sucre et sel")) = length (lit "Sucre et sel")
  ∧ (∀ key e, key ∈ alignment_keys →
       e ∈ default [] (partly_absent_alignment !! key) →
       length (str_lower (_split_pair e).2) = length (_split_pair e).2)
  ∧ Forall (fun s => located s →
            0 ≤ Span.offset s
            ∧ Span.offset s + Span.length s ≤ Py.len (lit "Sucre et sel")
            ∧ Py.len (Span.translated_text s) = Span.length s)
    (transform_alignment_to_styles partly_absent_alignment
       (lit "Sucre et sel") true).
Proof.
  assert (Htargets : ∀ key e, key ∈ alignment_keys →
            e ∈ default [] (partly_absent_alignment !! key) →
            length (str_lower (_split_pair e).2) = length (_split_pair e).2).
  { intros key e _ _. apply length_fmap. }
  assert (Htext : length (str_lower (lit "Sucre et sel"))
                  = length (lit "Sucre et sel")) by reflexivity.
  split; [exact Htext|]. split; [exact Htargets|].
  apply (found_spans_lie_in_the_text partly_absent_alignment
           (lit "Sucre et sel") true Htext Htargets).
Defined.

(** ** Word boundaries *)

Lemma char_at_in (text : list N) (k : nat) (c : N) :
  text !! k = Some c → char_at text (Z.of_nat k) = Ok [c].
Proof.
  intros Hk. pose proof (lookup_lt_Some _ _ _ Hk) as Hlt.
  unfold char_at, py_getitem.
  cmp_false (Z.of_nat k <? 0).
  cmp_true (0 <=? Z.of_nat k).
  replace (Z.of_nat k <? Py.len text) with true
    by (symmetry; apply Z.ltb_lt; unfold Py.len; lia).
  by rewrite Nat2Z.id, Hk.
Qed.

Lemma char_at_out (text : list N) (i : Z) :
  Py.len text ≤ i ∨ i < - Py.len text → char_at text i = Raise IndexError.
Proof.
  intros Hi. unfold char_at, py_getitem, Py.len in *.
  destruct (Z.ltb_spec i 0).
  - replace (0 <=? i + Z.of_nat (length text)) with false; [done|].
    symmetry. apply Z.leb_gt. lia.
  - replace (i <? Z.of_nat (length text)) with false
      by (symmetry; apply Z.ltb_ge; lia).
    by rewrite andb_false_r.
Qed.

Lemma expand_left_spec (text : list N) (i : nat) :
  (i ≤ length text)%nat →
  ∃ i' : nat,
    expand_left text i = Ok (Z.of_nat i') ∧ (i' ≤ i)%nat
    ∧ Forall word_char (take (i - i') (drop i' text))
    ∧ (i' = 0%nat
       ∨ ∃ c, text !! (i' - 1)%nat = Some c ∧ ¬ word_char c).
Proof.
  induction i as [|i IH]; intros Hi.
  { exists 0%nat. repeat split; [lia|constructor|by left]. }
  destruct (lookup_lt_is_Some_2 text i ltac:(lia)) as [c Hc].
  cbn [expand_left]. rewrite (char_at_in _ _ _ Hc). cbn [bind].
  destruct (_is_word_char [c]) eqn:Hw.
  - destruct (IH ltac:(lia)) as (i' & Hrun & Hle & Hall & Hstop).
    exists i'. split; [done|]. split; [lia|]. split; [|done].
    replace (S i - i')%nat with (S (i - i')) by lia.
    rewrite (take_S_r _ _ c).
    + apply Forall_app. split; [done|]. by repeat constructor.
    + rewrite lookup_drop. by replace (i' + (i - i'))%nat with i by lia.
  - exists (S i). split; [done|]. split; [lia|].
    rewrite Nat.sub_diag. split; [constructor|].
    right. exists c. rewrite Nat.sub_1_r. simpl. split; [done|].
    unfold word_char. by rewrite Hw.
Qed.

Lemma expand_right_spec (text : list N) (rounds j : nat) :
  rounds = (length text - j)%nat → (j ≤ length text)%nat →
  ∃ j' : nat,
    expand_right text rounds (Z.of_nat j) = Ok (Z.of_nat j')
    ∧ (j ≤ j' ≤ length text)%nat
    ∧ Forall word_char (take (j' - j) (drop j text))
    ∧ (j' = length text
       ∨ ∃ c, text !! j' = Some c ∧ ¬ word_char c).
Proof.
  revert j; induction rounds as [|rounds IH]; intros j Hr Hj.
  { exists j. rewrite Nat.sub_diag.
    repeat split; [lia|lia|constructor|left; lia]. }
  destruct (lookup_lt_is_Some_2 text j ltac:(lia)) as [c Hc].
  cbn [expand_right].
  replace (Z.of_nat j <? Py.len text) with true
    by (symmetry; apply Z.ltb_lt; unfold Py.len; lia).
  rewrite (char_at_in _ _ _ Hc). cbn [bind].
  destruct (_is_word_char [c]) eqn:Hw.
  - destruct (IH (S j) ltac:(lia) ltac:(lia))
      as (j' & Hrun & Hle & Hall & Hstop).
    exists j'. replace (Z.of_nat j + 1) with (Z.of_nat (S j)) by lia.
    split; [done|]. split; [lia|]. split; [|done].
    rewrite (drop_S _ c) by done.
    replace (j' - j)%nat with (S (j' - S j)) by lia.
    simpl. by constructor.
  - exists j. rewrite Nat.sub_diag.
    repeat split; [lia|lia|constructor|].
    right. exists c. split; [done|]. unfold word_char. by rewrite Hw.
Qed.

Lemma expand_left_stop (text : list N) (i : nat) (c : N) :
  text !! (i - 1)%nat = Some c → ¬ word_char c → i ≠ 0%nat →
  expand_left text i = Ok (Z.of_nat i).
Proof.
  intros Hc Hw Hi. destruct i as [|i]; [done|].
  rewrite Nat.sub_1_r in Hc. simpl in Hc.
  cbn [expand_left]. rewrite (char_at_in _ _ _ Hc). cbn [bind].
  unfold word_char in Hw. by destruct (_is_word_char [c]).
Qed.

Lemma expand_right_stop (text : list N) (rounds j : nat) :
  j = length text ∨ (∃ c, text !! j = Some c ∧ ¬ word_char c) →
  rounds = (length text - j)%nat →
  expand_right text rounds (Z.of_nat j) = Ok (Z.of_nat j).
Proof.
  intros [->|(c & Hc & Hw)] ->.
  { by rewrite Nat.sub_diag. }
  pose proof (lookup_lt_Some _ _ _ Hc) as Hlt.
  destruct (length text - j)%nat as [|rounds] eqn:E; [lia|].
  cbn [expand_right].
  replace (Z.of_nat j <? Py.len text) with true
    by (symmetry; apply Z.ltb_lt; unfold Py.len; lia).
  rewrite (char_at_in _ _ _ Hc). cbn [bind].
  unfold word_char in Hw. by destruct (_is_word_char [c]).
Qed.

(** X27: for bounds inside the text the expansion returns the largest
    stretch of word characters around them: it only moves the start down
    and the end up, over word characters alone, stops at the ends of the
    text or at a character that is not a word character, and expanding its
    result again changes nothing. *)
Theorem expansion_is_maximal (text : str) (start end_ : Z) :
  0 ≤ start ≤ Py.len text → 0 ≤ end_ ≤ Py.len text →
  ∃ i j,
    _expand_to_word_boundaries text start end_ = Ok (i, j)
    ∧ 0 ≤ i ≤ start ∧ end_ ≤ j ≤ Py.len text
    ∧ Forall word_char (Py.slice text i start)
    ∧ Forall word_char (Py.slice text end_ j)
    ∧ (i = 0 ∨ ∃ c, text !! Z.to_nat (i - 1) = Some c ∧ ¬ word_char c)
    ∧ (j = Py.len text ∨ ∃ c, text !! Z.to_nat j = Some c ∧ ¬ word_char c)
    ∧ _expand_to_word_boundaries text i j = Ok (i, j).
Proof.
  unfold Py.len. intros Hs He.
  destruct (expand_left_spec text (Z.to_nat start) ltac:(lia))
    as (i & Hleft & Hi & Hli & Hlstop).
  destruct (expand_right_spec text (Z.to_nat (Py.len text - end_))
              (Z.to_nat end_) ltac:(unfold Py.len; lia) ltac:(lia))
    as (j & Hright & Hj & Hrj & Hrstop).
  rewrite Z2Nat.id in Hright by lia.
  assert (Hrun : _expand_to_word_boundaries text start end_
                 = Ok (Z.of_nat i, Z.of_nat j)).
  { unfold _expand_to_word_boundaries. rewrite Hright.
    destruct (Z.ltb_spec 0 start).
    - by rewrite Hleft.
    - replace i with 0%nat by lia. by replace start with 0 by lia. }
  exists (Z.of_nat i), (Z.of_nat j).
  split; [done|]. split; [lia|]. split; [lia|].
  split; [|split; [|split; [|split]]].
  - rewrite slice_in_range by (unfold Py.len; lia).
    rewrite Nat2Z.id. by replace (Z.to_nat (start - Z.of_nat i))
      with (Z.to_nat start - i)%nat by lia.
  - rewrite slice_in_range by (unfold Py.len; lia).
    by replace (Z.to_nat (Z.of_nat j - end_))
      with (j - Z.to_nat end_)%nat by lia.
  - destruct Hlstop as [->|(c & Hc & Hw)]; [by left|].
    destruct (decide (i = 0%nat)) as [->|Hne]; [by left|].
    right. exists c. split; [|done].
    by replace (Z.to_nat (Z.of_nat i - 1)) with (i - 1)%nat by lia.
  - destruct Hrstop as [->|(c & Hc & Hw)]; [by left|].
    right. exists c. by rewrite Nat2Z.id.
  - unfold _expand_to_word_boundaries.
    rewrite (expand_right_stop text _ j Hrstop)
      by (unfold Py.len; lia).
    destruct (Z.ltb_spec 0 (Z.of_nat i)); [|done].
    destruct Hlstop as [->|(c & Hc & Hw)]; [lia|].
    rewrite Nat2Z.id. by rewrite (expand_left_stop text i c) by (done || lia).
Qed.

(** The bounds of [op] in [the co-op shop] grow to those of [co-op]. *)
Lemma expansion_is_maximal_witness :
  0 ≤ 7 ≤ Py.len (lit "the co-op shop")
  ∧ 0 ≤ 9 ≤ Py.len (lit "the co-op shop")
  ∧ _expand_to_word_boundaries (lit "the co-op shop") 7 9 = Ok (4, 9)
  ∧ ∃ i j,
      _expand_to_word_boundaries (lit "the co-op shop") 7 9 = Ok (i, j)
      ∧ 0 ≤ i ≤ 7 ∧ 9 ≤ j ≤ Py.len (lit "the co-op shop")
      ∧ Forall word_char (Py.slice (lit "the co-op shop") i 7)
      ∧ Forall word_char (Py.slice (lit "the co-op shop") 9 j)
      ∧ (i = 0 ∨ ∃ c, lit "the co-op shop" !! Z.to_nat (i - 1) = Some c
                      ∧ ¬ word_char c)
      ∧ (j = Py.len (lit "the co-op shop")
         ∨ ∃ c, lit "the co-op shop" !! Z.to_nat j = Some c ∧ ¬ word_char c)
      ∧ _expand_to_word_boundaries (lit "the co-op shop") i j = Ok (i, j).
Proof.
  split; [by vm_compute|]. split; [by vm_compute|]. split; [reflexivity|].
  apply (expansion_is_maximal (lit "the co-op shop") 7 9); by vm_compute.
Defined.

(** X28: bounds outside the text are not clamped: a start beyond the end
    of the text raises [IndexError], and so does an end below
    [-len(text)] after a start inside the text; a start that is not
    positive together with an end at or beyond the end of the text comes
    back as it is. *)
Theorem bounds_outside_the_text (text : str) (start end_ : Z) :
  (Py.len text < start →
   _expand_to_word_boundaries text start end_ = Raise IndexError)
  ∧ (0 ≤ start ≤ Py.len text → end_ < - Py.len text →
     _expand_to_word_boundaries text start end_ = Raise IndexError)
  ∧ (start ≤ 0 → Py.len text ≤ end_ →
     _expand_to_word_boundaries text start end_ = Ok (start, end_)).
Proof.
  assert (Hlen : 0 ≤ Py.len text) by (unfold Py.len; lia).
  unfold _expand_to_word_boundaries. split; [|split].
  - intros Hs. cmp_true (0 <? start).
    destruct (Z.to_nat start) as [|i] eqn:E; [lia|].
    cbn [expand_left]. rewrite char_at_out; [done|]. left. lia.
  - intros Hs He.
    destruct (expand_left_spec text (Z.to_nat start)
                ltac:(unfold Py.len in *; lia)) as (i & Hleft & _).
    assert (Hl : ∃ i, (if 0 <? start then expand_left text (Z.to_nat start)
                       else Ok start) = Ok i).
    { destruct (0 <? start); by eexists. }
    destruct Hl as [i0 ->]. cbn [bind].
    destruct (Z.to_nat (Py.len text - end_)) as [|r] eqn:E; [lia|].
    cbn [expand_right]. cmp_true (end_ <? Py.len text).
    rewrite char_at_out; [done|]. by right.
  - intros Hs He. cmp_false (0 <? start). cbn [bind].
    replace (Z.to_nat (Py.len text - end_)) with 0%nat by lia.
    done.
Qed.

(** A start of 9 and an end of -9 in a text of five characters; the bounds
    -2 and 7. *)
Lemma bounds_outside_the_text_witness :
  _expand_to_word_boundaries (lit "co-op") 9 2 = Raise IndexError
  ∧ _expand_to_word_boundaries (lit "co-op") 2 (-9) = Raise IndexError
  ∧ _expand_to_word_boundaries (lit "co-op") (-2) 7 = Ok (-2, 7).
Proof.
  split; [|split].
  - apply (proj1 (bounds_outside_the_text (lit "co-op") 9 2)). by vm_compute.
  - apply (proj1 (proj2 (bounds_outside_the_text (lit "co-op") 2 (-9))));
      by vm_compute.
  - apply (proj2 (proj2 (bounds_outside_the_text (lit "co-op") (-2) 7)));
      by vm_compute.
Defined.
